(** * no-more-timer-leaks: the timer tracker of [src/index.ts]

    A shallow embedding of the development-time shim that wraps the four
    timer entry points of a browser window ([setTimeout], [clearTimeout],
    [setInterval], [clearInterval]), keeps two insertion-ordered maps of the
    timers it has seen, and reports on them.

    The host (the browser) is a parameter: a state type with the native
    functions the module calls.  The module's own code is written in a small
    state-and-exception monad over a [World] that holds the tracker's two
    maps, the host state and the chronological log of the effects on the
    host (native timer calls, console output, clipboard writes).

    The ECMAScript built-ins whose results the module's contract speaks
    about ([String.prototype.trim] and [split], [Array.prototype.join],
    [Number.prototype.toFixed], [Date.prototype.toISOString]) are written
    out; numbers that take part in arithmetic are IEEE 754 binary64 values
    ([spec_float] at precision 53).

    The floating button is created on a document that is the list of its
    elements in tree order. *)

From Stdlib Require Import String Ascii.
From Stdlib Require Import ZArith NArith List Bool Lia Permutation.
From Stdlib Require Import Floats.SpecFloat.
Import ListNotations.
Open Scope string_scope.
Open Scope list_scope.
Open Scope Z_scope.

(** ** Strings *)

(** A JavaScript string is a sequence of UTF-16 code units. *)
Definition jsstring := list N.

(** An ASCII literal as a JavaScript string. *)
Definition lit (s : string) : jsstring :=
  map N_of_ascii (list_ascii_of_string s).

Definition jsstring_eq_dec : forall a b : jsstring, {a = b} + {a <> b} :=
  list_eq_dec N.eq_dec.

Definition jsstring_eqb (a b : jsstring) : bool :=
  if jsstring_eq_dec a b then true else false.

(** The code units [String.prototype.trim] strips: ECMAScript's WhiteSpace
    (TAB, VT, FF, ZWNBSP and the space separators) and LineTerminator
    (LF, CR, LS, PS). *)
Definition is_whitespace (c : N) : bool :=
  (existsb (N.eqb c)
     [9; 10; 11; 12; 13; 32; 160; 5760; 8232; 8233; 8239; 8287; 12288; 65279]
   || ((8192 <=? c) && (c <=? 8202)))%N.

Fixpoint trimStart (s : jsstring) : jsstring :=
  match s with
  | [] => []
  | c :: r => if is_whitespace c then trimStart r else s
  end.

Definition trimEnd (s : jsstring) : jsstring := rev (trimStart (rev s)).

(** [s.trim()] *)
Definition trim (s : jsstring) : jsstring := trimEnd (trimStart s).

(** [s.split(sep)] for a separator of one code unit: the pieces between the
    separators, the empty ones included; never the empty array. *)
Fixpoint split (sep : N) (s : jsstring) : list jsstring :=
  match s with
  | [] => [[]]
  | c :: r =>
      if (c =? sep)%N then [] :: split sep r
      else match split sep r with
           | piece :: pieces => (c :: piece) :: pieces
           | [] => [[c]]
           end
  end.

(** [pieces.join(sep)] on strings. *)
Fixpoint join (sep : jsstring) (pieces : list jsstring) : jsstring :=
  match pieces with
  | [] => []
  | [p] => p
  | p :: rest => p ++ sep ++ join sep rest
  end.

Definition nonempty {A} (l : list A) : bool :=
  match l with
  | [] => false
  | _ => true
  end.

(** The decimal digit of [d] (taken modulo ten). *)
Definition digit (d : Z) : N := (48 + Z.to_N (d mod 10))%N.

Definition is_digit (c : N) : bool := ((48 <=? c) && (c <=? 57))%N.

Fixpoint decimal_fuel (fuel : nat) (n : Z) (acc : jsstring) : jsstring :=
  match fuel with
  | O => acc
  | S f =>
      let acc' := digit n :: acc in
      if n <? 10 then acc' else decimal_fuel f (n / 10) acc'
  end.

(** The decimal numeral of a non-negative integer, without leading zeros. *)
Definition decimal (n : Z) : jsstring :=
  decimal_fuel (S (Z.to_nat (Z.log2 n))) n [].

(** ToZeroPaddedDecimalString(n, minLength) *)
Definition zero_padded (n : Z) (minLength : nat) : jsstring :=
  let s := decimal n in
  repeat 48%N (minLength - List.length s) ++ s.

(** The number a string of digits spells. *)
Definition digits_value (s : jsstring) : Z :=
  fold_left (fun acc d => acc * 10 + (Z.of_N d - 48)) s 0.

(** Digits that spell a number from [lo] to [hi]. *)
Definition in_range (ds : jsstring) (lo hi : Z) : bool :=
  forallb is_digit ds && (lo <=? digits_value ds) && (digits_value ds <=? hi).

(** ** Completions *)

(** Thrown values. *)
Inductive JsError : Type :=
| TypeError (message : jsstring)
| RangeError (message : jsstring)
| DOMException (name : jsstring)
| OtherError (message : jsstring).

(** The completion of a call: a value, or a thrown exception. *)
Inductive Completion (A : Type) : Type :=
| Normal (a : A)
| Throw (e : JsError).
Arguments Normal {A} a.
Arguments Throw {A} e.

(** ** Numbers *)

(** The numbers that reach the module as a [delay]: the integer-valued
    ones and NaN.  (Fractional and infinite delays are truthy, like the
    non-zero integers, and take the same path through the code.) *)
Inductive number : Type :=
| Int (z : Z)
| NaN.

(** ToBoolean on a number: [0] and [NaN] are falsy. *)
Definition truthy (n : number) : bool :=
  match n with
  | Int z => negb (z =? 0)
  | NaN => false
  end.

(** [delay || 0] for [delay : number | undefined]. *)
Definition or_zero (delay : option number) : number :=
  match delay with
  | Some n => if truthy n then n else Int 0
  | None => Int 0
  end.

(** IEEE 754 binary64. *)
Definition prec : Z := 53.
Definition emax : Z := 1024.

(** The Number with the value of an integer (the nearest one, ties to even). *)
Definition Number_of_Z (z : Z) : spec_float := binary_normalize prec emax z 0 false.

(** The integer value of a finite Number whose exponent is not negative. *)
Definition integer_value (m : positive) (e : Z) : Z := Z.pos m * 2 ^ e.

(** [10^21 <= m * 2^e] *)
Definition at_least_1e21 (m : positive) (e : Z) : bool :=
  if 0 <=? e then 10 ^ 21 <=? Z.pos m * 2 ^ e
  else 10 ^ 21 * 2 ^ (- e) <=? Z.pos m.

(** Number::toString on a Number [x = m * 2^e >= 10^21], which is an
    integer: the shortest decimal significand [s] of [k] digits with
    [s * 10^(n-k)] rounding to [x], the closest to [x] among those, printed
    in exponent notation. *)
Definition closer (x a b : Z) : Z :=
  match Z.abs (a - x) ?= Z.abs (b - x) with
  | Lt => a
  | Gt => b
  | Eq => if Z.even a then a else b
  end.

Fixpoint shortest_significand (fuel : nat) (x : spec_float) (X : Z) (nd k : Z)
  : Z * Z :=
  match fuel with
  | O => (X, 0)
  | S f =>
      let j := nd - k in
      let lo := X / 10 ^ j in
      let hi := lo + 1 in
      let ok c := SFeqb (Number_of_Z (c * 10 ^ j)) x in
      match ok lo, ok hi with
      | true, true => (closer X (lo * 10 ^ j) (hi * 10 ^ j) / 10 ^ j, j)
      | true, false => (lo, j)
      | false, true => (hi, j)
      | false, false => shortest_significand f x X nd (k + 1)
      end
  end.

Fixpoint drop_zeros (l : jsstring) : jsstring :=
  match l with
  | 48%N :: r => drop_zeros r
  | _ => l
  end.

Definition exponent_notation (m : positive) (e : Z) : jsstring :=
  let X := integer_value m e in
  let nd := Z.of_nat (List.length (decimal X)) in
  let '(s, j) := shortest_significand 17 (S754_finite false m e) X nd 1 in
  let digits := decimal s in
  let n := Z.of_nat (List.length digits) + j in
  let significand :=
    match digits with
    | d :: rest =>
        match rev (drop_zeros (rev rest)) with
        | [] => [d]
        | fraction => d :: 46%N :: fraction
        end
    | [] => []
    end in
  significand ++ lit "e+" ++ decimal (n - 1).

(** The integer [n] for which [n / 10 - m * 2^e] is closest to zero, the
    larger one of two. *)
Definition nearest_tenths (m : positive) (e : Z) : Z :=
  if 0 <=? e then 10 * Z.pos m * 2 ^ e
  else (20 * Z.pos m + 2 ^ (- e)) / 2 ^ (1 - e).

(** The fixed notation of [n / 10]: the digits of [n], padded to two, with
    a point before the last one. *)
Definition fixed1 (n : Z) : jsstring :=
  let m := zero_padded n 2 in
  let k := List.length m in
  firstn (k - 1) m ++ [46%N] ++ skipn (k - 1) m.

(** [x.toFixed(1)] *)
Definition toFixed1 (x : spec_float) : jsstring :=
  match x with
  | S754_nan => lit "NaN"
  | S754_infinity false => lit "Infinity"
  | S754_infinity true => lit "-Infinity"
  | S754_zero _ => fixed1 0
  | S754_finite s m e =>
      (if s then lit "-" else []) ++
      (if at_least_1e21 m e then exponent_notation m e
       else fixed1 (nearest_tenths m e))
  end.

(** [((now - createdAt) / 1000)] on the Numbers of two time values. *)
Definition age_seconds (now createdAt : Z) : spec_float :=
  SFdiv prec emax
    (SFsub prec emax (Number_of_Z now) (Number_of_Z createdAt))
    (Number_of_Z 1000).

(** Number::toString on an integer that is a Number (a handle is one): the
    plain numeral below [10^21], and from there on the exponent notation,
    which [toFixed] shares. *)
Definition Number_toString (z : Z) : jsstring :=
  if Z.abs z <? 10 ^ 21 then
    (if z <? 0 then lit "-" else []) ++ decimal (Z.abs z)
  else
    toFixed1 (Number_of_Z z).

(** A numeral without its minus sign, if it has one. *)
Definition unsigned (s : jsstring) : jsstring :=
  match s with
  | c :: r => if (c =? 45)%N then r else s
  | [] => []
  end.

(** A numeral with one digit after the point: an optional minus sign,
    at least one digit, a point and a digit. *)
Definition is_decimal1 (s : jsstring) : bool :=
  match rev (unsigned s) with
  | fraction :: point :: integer =>
      (point =? 46)%N && is_digit fraction && nonempty integer &&
      forallb is_digit integer
  | _ => false
  end.

(** The double [x] is zero, or finite and below [2^B] in magnitude. *)
Definition below (B : Z) (x : spec_float) : Prop :=
  match x with
  | S754_zero _ => True
  | S754_finite _ m e => Z.pos (digits2_pos m) + e <= B
  | _ => False
  end.

(** ** Dates (ECMAScript 21.4.1) *)

Definition msPerDay : Z := 86400000.
Definition msPerHour : Z := 3600000.
Definition msPerMinute : Z := 60000.
Definition msPerSecond : Z := 1000.

(** A time value: an integral number of milliseconds within 100,000,000
    days of the epoch.  [Date.now()] returns one. *)
Definition max_time_value : Z := 8640000000000000.

Definition is_time_value (t : Z) : bool := Z.abs t <=? max_time_value.

Definition Day (t : Z) : Z := t / msPerDay.

Definition DaysInYear (y : Z) : Z :=
  if negb (y mod 4 =? 0) then 365
  else if negb (y mod 100 =? 0) then 366
  else if negb (y mod 400 =? 0) then 365
  else 366.

Definition DayFromYear (y : Z) : Z :=
  365 * (y - 1970) + (y - 1969) / 4 - (y - 1901) / 100 + (y - 1601) / 400.

(** The largest [y] with [DayFromYear y <= Day t]: the estimate from the
    mean length of a year, corrected by at most one. *)
Definition YearFromTime (t : Z) : Z :=
  let d := Day t in
  let y := 1970 + d * 400 / 146097 in
  if d <? DayFromYear y then y - 1
  else if DayFromYear (y + 1) <=? d then y + 1
  else y.

Definition InLeapYear (t : Z) : Z :=
  if DaysInYear (YearFromTime t) =? 366 then 1 else 0.

Definition DayWithinYear (t : Z) : Z := Day t - DayFromYear (YearFromTime t).

Definition MonthFromTime (t : Z) : Z :=
  let d := DayWithinYear t in
  let leap := InLeapYear t in
  if d <? 31 then 0
  else if d <? 59 + leap then 1
  else if d <? 90 + leap then 2
  else if d <? 120 + leap then 3
  else if d <? 151 + leap then 4
  else if d <? 181 + leap then 5
  else if d <? 212 + leap then 6
  else if d <? 243 + leap then 7
  else if d <? 273 + leap then 8
  else if d <? 304 + leap then 9
  else if d <? 334 + leap then 10
  else 11.

Definition DateFromTime (t : Z) : Z :=
  let d := DayWithinYear t in
  let leap := InLeapYear t in
  match MonthFromTime t with
  | 0 => d + 1
  | 1 => d - 30
  | 2 => d - 58 - leap
  | 3 => d - 89 - leap
  | 4 => d - 119 - leap
  | 5 => d - 150 - leap
  | 6 => d - 180 - leap
  | 7 => d - 211 - leap
  | 8 => d - 242 - leap
  | 9 => d - 272 - leap
  | 10 => d - 303 - leap
  | _ => d - 333 - leap
  end.

Definition HourFromTime (t : Z) : Z := (t / msPerHour) mod 24.
Definition MinFromTime (t : Z) : Z := (t / msPerMinute) mod 60.
Definition SecFromTime (t : Z) : Z := (t / msPerSecond) mod 60.
Definition msFromTime (t : Z) : Z := t mod msPerSecond.

(** The year of an ISO string: four digits from 0 to 9999, otherwise a sign
    and six digits. *)
Definition iso_year (y : Z) : jsstring :=
  if (0 <=? y) && (y <=? 9999) then zero_padded y 4
  else (if 0 <? y then lit "+" else lit "-") ++ zero_padded (Z.abs y) 6.

(** The ISO string of a time value, in UTC. *)
Definition iso_string (t : Z) : jsstring :=
  iso_year (YearFromTime t) ++ lit "-" ++
  zero_padded (MonthFromTime t + 1) 2 ++ lit "-" ++
  zero_padded (DateFromTime t) 2 ++ lit "T" ++
  zero_padded (HourFromTime t) 2 ++ lit ":" ++
  zero_padded (MinFromTime t) 2 ++ lit ":" ++
  zero_padded (SecFromTime t) 2 ++ lit "." ++
  zero_padded (msFromTime t) 3 ++ lit "Z".

(** [new Date(t).toISOString()]: a [RangeError] on a date that is not valid. *)
Definition toISOString (t : Z) : Completion jsstring :=
  if is_time_value t then Normal (iso_string t)
  else Throw (RangeError (lit "Invalid time value")).

(** [-MM-DDTHH:mm:ss.sssZ] *)
Definition is_iso_time (s : jsstring) : bool :=
  match s with
  | [c1; M1; M2; c2; D1; D2; c3; h1; h2; c4; m1; m2; c5; s1; s2; c6; f1; f2; f3; c7] =>
      jsstring_eqb [c1; c2; c3; c4; c5; c6; c7] (lit "--T::.Z") &&
      in_range [M1; M2] 1 12 && in_range [D1; D2] 1 31 &&
      in_range [h1; h2] 0 23 && in_range [m1; m2] 0 59 && in_range [s1; s2] 0 59 &&
      in_range [f1; f2; f3] 0 999
  | _ => false
  end.

(** A date and time of ISO 8601 in UTC, in the extended format with
    milliseconds: the year of four digits, or of six with its sign. *)
Definition is_iso8601 (s : jsstring) : bool :=
  match s with
  | [] => false
  | c :: r =>
      if is_digit c then forallb is_digit (firstn 4 s) && is_iso_time (skipn 4 s)
      else
        ((c =? 43) || (c =? 45))%N && forallb is_digit (firstn 6 r) &&
        is_iso_time (skipn 6 r)
  end.

(** ** [type TimerInfo] *)

Record TimerInfo : Type := mkTimerInfo {
  createdAt : Z;
  delay : number;
  stack : jsstring
}.

(** ** [Map<number, TimerInfo>]

    A JavaScript [Map] iterates in insertion order; [set] on a key that is
    present replaces the value where the key stands, [set] on a new key
    appends, [delete] removes the key. *)
Module JsMap.

Definition t (V : Type) := list (Z * V).

Definition empty {V} : t V := [].

Fixpoint get {V} (k : Z) (m : t V) : option V :=
  match m with
  | [] => None
  | (k', v) :: r => if k =? k' then Some v else get k r
  end.

Definition has {V} (k : Z) (m : t V) : bool :=
  match get k m with Some _ => true | None => false end.

Fixpoint set {V} (k : Z) (v : V) (m : t V) : t V :=
  match m with
  | [] => [(k, v)]
  | (k', v') :: r => if k =? k' then (k, v) :: r else (k', v') :: set k v r
  end.

Fixpoint delete {V} (k : Z) (m : t V) : t V :=
  match m with
  | [] => []
  | (k', v') :: r => if k =? k' then r else (k', v') :: delete k r
  end.

Definition entries {V} (m : t V) : list (Z * V) := m.

Definition keys {V} (m : t V) : list Z := map fst m.

Definition size {V} (m : t V) : nat := List.length m.

End JsMap.

(** ** The plain object [originMap] of [report]

    [const originMap: Record<string, { count; ids }> = {}] is an ordinary
    object: a read of a key it does not own continues on [Object.prototype]. *)

Record OriginInfo : Type := mkOriginInfo {
  count : nat;
  ids : list Z
}.

Definition OriginMap := list (jsstring * OriginInfo).

(** The properties of [Object.prototype]; the value of each is a function
    or, for [__proto__], an object. *)
Definition Object_prototype_keys : list jsstring :=
  map lit
    ["constructor"; "__defineGetter__"; "__defineSetter__"; "hasOwnProperty";
     "__lookupGetter__"; "__lookupSetter__"; "isPrototypeOf";
     "propertyIsEnumerable"; "toString"; "valueOf"; "__proto__";
     "toLocaleString"].

(** What [originMap[key]] evaluates to. *)
Inductive Property : Type :=
| Own (info : OriginInfo)
| Inherited
| Undefined.

Fixpoint own (key : jsstring) (m : OriginMap) : option OriginInfo :=
  match m with
  | [] => None
  | (k, v) :: r => if jsstring_eqb key k then Some v else own key r
  end.

Definition originMap_get (m : OriginMap) (key : jsstring) : Property :=
  match own key m with
  | Some info => Own info
  | None =>
      if existsb (jsstring_eqb key) Object_prototype_keys then Inherited
      else Undefined
  end.

(** [originMap[key] = info] on a key the object does not own. *)
Definition own_create (key : jsstring) (info : OriginInfo) (m : OriginMap) : OriginMap :=
  m ++ [(key, info)].

(** The update of the record an own key holds. *)
Fixpoint own_update (key : jsstring) (f : OriginInfo -> OriginInfo) (m : OriginMap)
  : OriginMap :=
  match m with
  | [] => []
  | (k, v) :: r =>
      if jsstring_eqb key k then (k, f v) :: r else (k, v) :: own_update key f r
  end.

(** The body of the [forEach] callback.  On an inherited key the object read
    is truthy, so nothing is created; [count += 1] lands on the inherited
    value, and [ids] of it is undefined. *)
Definition count_origin (m : OriginMap) (entry : Z * TimerInfo) : Completion OriginMap :=
  let '(id, info) := entry in
  let origin := stack info in
  let m1 :=
    match originMap_get m origin with
    | Undefined => own_create origin (mkOriginInfo 0 []) m
    | _ => m
    end in
  match originMap_get m1 origin with
  | Inherited =>
      Throw (TypeError (lit "Cannot read properties of undefined (reading 'push')"))
  | _ =>
      Normal (own_update origin
                (fun o => mkOriginInfo (count o + 1) (ids o ++ [id])) m1)
  end.

(** [entries.forEach(callback)] from a given object on. *)
Fixpoint count_origins (m : OriginMap) (entries : list (Z * TimerInfo))
  : Completion OriginMap :=
  match entries with
  | [] => Normal m
  | entry :: rest =>
      match count_origin m entry with
      | Normal m' => count_origins m' rest
      | Throw e => Throw e
      end
  end.

(** An array index: the canonical numeral of an integer below [2^32 - 1]. *)
Definition array_index (key : jsstring) : option Z :=
  match key with
  | [] => None
  | c :: r =>
      if forallb is_digit key && (negb (c =? 48)%N || Nat.eqb (List.length r) 0) then
        if digits_value key <=? 4294967294 then Some (digits_value key) else None
      else None
  end.

Fixpoint insert_by_index {A} (x : Z * A) (l : list (Z * A)) : list (Z * A) :=
  match l with
  | [] => [x]
  | y :: r => if fst x <? fst y then x :: l else y :: insert_by_index x r
  end.

Definition indexed {A} (e : jsstring * A) : list (Z * (jsstring * A)) :=
  match array_index (fst e) with
  | Some i => [(i, e)]
  | None => []
  end.

Definition named {A} (e : jsstring * A) : bool :=
  match array_index (fst e) with
  | Some _ => false
  | None => true
  end.

(** [Object.entries(o)]: the array indices in ascending order, then the
    other keys in the order of their creation. *)
Definition Object_entries {A} (o : list (jsstring * A)) : list (jsstring * A) :=
  map snd (fold_right insert_by_index [] (flat_map indexed o)) ++ filter named o.

(** ** Rows of the console tables and the JSON snapshot *)

Record TimerRow : Type := mkTimerRow {
  r_id : Z;
  r_delay : number;
  r_created : jsstring;
  r_age : jsstring;
  r_origin : jsstring
}.

Record DuplicateRow : Type := mkDuplicateRow {
  d_origin : jsstring;
  d_count : nat;
  d_ids : jsstring
}.

(** The values [JSON.stringify] is given. *)
#[warnings="-register-all"]
Inductive JsValue : Type :=
| JNumber (n : number)
| JString (s : jsstring)
| JArray (items : list JsValue)
| JObject (properties : list (jsstring * JsValue)).

Fixpoint property (key : jsstring) (properties : list (jsstring * JsValue))
  : option JsValue :=
  match properties with
  | [] => None
  | (k, v) :: r => if jsstring_eqb key k then Some v else property key r
  end.

(** [.filter(([, info]) => info.count > 1).map(([origin, info]) => ...)] *)
Definition duplicates_of (m : OriginMap) : list DuplicateRow :=
  map (fun e : jsstring * OriginInfo =>
         mkDuplicateRow (fst e) (count (snd e))
           (join (lit ", ") (map Number_toString (ids (snd e)))))
      (filter (fun e : jsstring * OriginInfo => Nat.ltb 1 (count (snd e)))
              (Object_entries m)).

(** The handles of the entries that bear an origin, in their order. *)
Definition bearing (origin : jsstring) (entries : list (Z * TimerInfo)) : list Z :=
  map fst (filter (fun e => jsstring_eqb (stack (snd e)) origin) entries).

(** The row of the table of duplicates for an origin. *)
Definition duplicate_row (origin : jsstring) (entries : list (Z * TimerInfo))
  : DuplicateRow :=
  mkDuplicateRow origin (List.length (bearing origin entries))
    (join (lit ", ") (map Number_toString (bearing origin entries))).

(** The object counts the entries seen so far: one key per origin seen,
    holding the number and the handles of the entries that bear it. *)
Definition tally (seen : list (Z * TimerInfo)) (m : OriginMap) : Prop :=
  NoDup (map fst m) /\
  forall origin,
    own origin m =
    match bearing origin seen with
    | [] => None
    | ids => Some (mkOriginInfo (List.length ids) ids)
    end.

(** ** The host *)

(** How the promise of [navigator.clipboard.writeText] settles. *)
Inductive PromiseOutcome : Type :=
| Fulfilled
| Rejected (reason : JsError).

(** What the browser provides.  [HostS] is the browser's own state; the
    native functions read and change it. *)
Record Host : Type := mkHost {
  HostS : Type;
  TimerHandler : Type;
  Any : Type;
  (** [window.setTimeout] and [window.setInterval] as found at load time *)
  native_setTimeout :
    TimerHandler -> option number -> list Any -> HostS -> Completion Z * HostS;
  native_setInterval :
    TimerHandler -> option number -> list Any -> HostS -> Completion Z * HostS;
  (** [window.clearTimeout] and [window.clearInterval]: they never throw *)
  native_clearTimeout : Z -> HostS -> HostS;
  native_clearInterval : Z -> HostS -> HostS;
  (** the clock behind [Date.now()] and [new Date()]: a time value *)
  native_now : HostS -> Z * HostS;
  native_now_time_value : forall s, is_time_value (fst (native_now s)) = true;
  (** [new Error().stack] inside [getStackTag]; [None] where the engine has
      no such property *)
  native_stack : HostS -> option jsstring * HostS;
  (** [new Date(t).toLocaleTimeString()], which depends on locale and zone *)
  toLocaleTimeString : Z -> jsstring;
  (** [JSON.stringify(value, null, 2)] *)
  JSON_stringify : JsValue -> jsstring;
  (** whether [navigator.clipboard] is defined (it is not outside a secure
      context) *)
  navigator_clipboard : HostS -> bool
}.

(** ** The module's state and its monad *)

Section Tracker.

Context {H : Host}.

(** What the module does to the host, in the order it does it. *)
Inductive Effect : Type :=
| CallSetTimeout (fn : TimerHandler H) (delay : option number) (args : list (Any H))
| CallClearTimeout (id : Z)
| CallSetInterval (fn : TimerHandler H) (delay : option number) (args : list (Any H))
| CallClearInterval (id : Z)
| ConsoleGroupCollapsed (label : jsstring)
| ConsoleGroup (label : jsstring)
| ConsoleGroupEnd
| ConsoleInfo (message : jsstring)
| ConsoleWarn (message : jsstring) (detail : option JsError)
| ConsoleTable (rows : list TimerRow)
| ConsoleTableDuplicates (rows : list DuplicateRow)
| ClipboardWriteText (text : jsstring).

(** [const tracker = { timeouts: new Map(), intervals: new Map() }], the
    host state, the effects so far and the number of clipboard promises
    that have not settled. *)
Record World : Type := mkWorld {
  timeouts : JsMap.t TimerInfo;
  intervals : JsMap.t TimerInfo;
  host : HostS H;
  effects : list Effect;
  pending : nat
}.

Definition M (A : Type) : Type := World -> Completion A * World.

Definition ret {A} (a : A) : M A := fun w => (Normal a, w).

Definition bind {A B} (m : M A) (k : A -> M B) : M B :=
  fun w =>
    match m w with
    | (Normal a, w') => k a w'
    | (Throw e, w') => (Throw e, w')
    end.

Definition throw {A} (e : JsError) : M A := fun w => (Throw e, w).

Definition lift {A} (c : Completion A) : M A := fun w => (c, w).

Notation "x <- m ;; k" := (bind m (fun x => k))
  (at level 61, m at next level, right associativity).
Notation "m ;;; k" := (bind m (fun _ => k))
  (at level 61, right associativity).

Definition when (b : bool) (m : M unit) : M unit := if b then m else ret tt.

Definition effect (e : Effect) : M unit :=
  fun w =>
    (Normal tt,
     mkWorld (timeouts w) (intervals w) (host w) (effects w ++ [e]) (pending w)).

(** A host function on the host state. *)
Definition on_host {A} (f : HostS H -> A * HostS H) : M A :=
  fun w =>
    let (a, s) := f (host w) in
    (Normal a, mkWorld (timeouts w) (intervals w) s (effects w) (pending w)).

(** A host function that may throw. *)
Definition on_host_try {A} (f : HostS H -> Completion A * HostS H) : M A :=
  fun w =>
    let (c, s) := f (host w) in
    (c, mkWorld (timeouts w) (intervals w) s (effects w) (pending w)).

Definition read_host {A} (f : HostS H -> A) : M A := fun w => (Normal (f (host w)), w).

Definition timeouts_set (id : Z) (info : TimerInfo) : M unit :=
  fun w =>
    (Normal tt,
     mkWorld (JsMap.set id info (timeouts w)) (intervals w) (host w) (effects w)
       (pending w)).

Definition timeouts_delete (id : Z) : M unit :=
  fun w =>
    (Normal tt,
     mkWorld (JsMap.delete id (timeouts w)) (intervals w) (host w) (effects w)
       (pending w)).

Definition intervals_set (id : Z) (info : TimerInfo) : M unit :=
  fun w =>
    (Normal tt,
     mkWorld (timeouts w) (JsMap.set id info (intervals w)) (host w) (effects w)
       (pending w)).

Definition intervals_delete (id : Z) : M unit :=
  fun w =>
    (Normal tt,
     mkWorld (timeouts w) (JsMap.delete id (intervals w)) (host w) (effects w)
       (pending w)).

Definition timeouts_entries : M (list (Z * TimerInfo)) :=
  fun w => (Normal (JsMap.entries (timeouts w)), w).

Definition intervals_entries : M (list (Z * TimerInfo)) :=
  fun w => (Normal (JsMap.entries (intervals w)), w).

(** [const original = { setTimeout: window.setTimeout.bind(window), ... }] *)
Definition original_setTimeout fn delay args : M Z :=
  effect (CallSetTimeout fn delay args) ;;;
  on_host_try (native_setTimeout H fn delay args).

Definition original_clearTimeout (id : Z) : M unit :=
  effect (CallClearTimeout id) ;;;
  on_host (fun s => (tt, native_clearTimeout H id s)).

Definition original_setInterval fn delay args : M Z :=
  effect (CallSetInterval fn delay args) ;;;
  on_host_try (native_setInterval H fn delay args).

Definition original_clearInterval (id : Z) : M unit :=
  effect (CallClearInterval id) ;;;
  on_host (fun s => (tt, native_clearInterval H id s)).

(** [Date.now()], and the time value of [new Date()] *)
Definition Date_now : M Z := on_host (native_now H).

(** ** The origin tagger *)

(** [x || 'unknown'] for [x : string | undefined]: the empty string is
    falsy. *)
Definition or_unknown (x : option jsstring) : jsstring :=
  match x with
  | Some (c :: s) => c :: s
  | Some [] => lit "unknown"
  | None => lit "unknown"
  end.

(** [stack[3]?.trim() || 'unknown'] on [err.stack?.split('\n') || []] *)
Definition stack_tag (err_stack : option jsstring) : jsstring :=
  let stack :=
    match err_stack with
    | Some text => split 10 text
    | None => []
    end in
  or_unknown (option_map trim (nth_error stack 3)).

Definition getStackTag : M jsstring :=
  err_stack <- on_host (native_stack H) ;;
  ret (stack_tag err_stack).

(** ** The interception layer *)

(** [window.setTimeout = function (fn, delay, ...args) { ... }] *)
Definition window_setTimeout (fn : TimerHandler H) (delay : option number)
  (args : list (Any H)) : M Z :=
  id <- original_setTimeout fn delay args ;;
  now <- Date_now ;;
  tag <- getStackTag ;;
  timeouts_set id (mkTimerInfo now (or_zero delay) tag) ;;;
  ret id.

(** [window.clearTimeout = function (id) { ... }] *)
Definition window_clearTimeout (id : option Z) : M unit :=
  match id with
  | Some id => timeouts_delete id ;;; original_clearTimeout id
  | None => ret tt
  end.

(** [window.setInterval = function (fn, delay, ...args) { ... }] *)
Definition window_setInterval (fn : TimerHandler H) (delay : option number)
  (args : list (Any H)) : M Z :=
  id <- original_setInterval fn delay args ;;
  now <- Date_now ;;
  tag <- getStackTag ;;
  intervals_set id (mkTimerInfo now (or_zero delay) tag) ;;;
  ret id.

(** [window.clearInterval = function (id) { ... }] *)
Definition window_clearInterval (id : option Z) : M unit :=
  match id with
  | Some id => intervals_delete id ;;; original_clearInterval id
  | None => ret tt
  end.

(** ** [window.TIMER_TRACKER] *)

Definition getActiveTimeouts : M (list (Z * TimerInfo)) := timeouts_entries.

Definition getActiveIntervals : M (list (Z * TimerInfo)) := intervals_entries.

(** A row of the tables of [report]. *)
Definition report_row (now : Z) (entry : Z * TimerInfo) : TimerRow :=
  let '(id, info) := entry in
  mkTimerRow id (delay info)
    (toLocaleTimeString H (createdAt info))
    (toFixed1 (age_seconds now (createdAt info)) ++ lit "s")
    (stack info).

Definition report_header (time : jsstring) : jsstring :=
  [55357; 56693; 65039]%N ++ lit " Active Timers Report (" ++ time ++ lit ")".

Definition no_timers_notice : jsstring :=
  [9989%N] ++ lit " No active timeouts or intervals.".

Definition duplicates_label : jsstring :=
  [55357; 56524]%N ++ lit " Duplicate Timer Origins".

Definition report : M unit :=
  now <- Date_now ;;
  timeouts <- timeouts_entries ;;
  intervals <- intervals_entries ;;
  time <- Date_now ;;
  effect (ConsoleGroupCollapsed (report_header (toLocaleTimeString H time))) ;;;
  if negb (nonempty timeouts) && negb (nonempty intervals) then
    effect (ConsoleInfo no_timers_notice) ;;;
    effect ConsoleGroupEnd
  else
    when (nonempty timeouts)
      (effect (ConsoleGroup (lit "Timeouts")) ;;;
       effect (ConsoleTable (map (report_row now) timeouts)) ;;;
       effect ConsoleGroupEnd) ;;;
    when (nonempty intervals)
      (effect (ConsoleGroup (lit "Intervals")) ;;;
       effect (ConsoleTable (map (report_row now) intervals)) ;;;
       effect ConsoleGroupEnd) ;;;
    originMap <- lift (count_origins [] (timeouts ++ intervals)) ;;
    let duplicates := duplicates_of originMap in
    when (nonempty duplicates)
      (effect (ConsoleGroup duplicates_label) ;;;
       effect (ConsoleTableDuplicates duplicates) ;;;
       effect ConsoleGroupEnd) ;;;
    effect ConsoleGroupEnd.

(** An entry of the arrays of the clipboard snapshot. *)
Definition snapshot_entry (now : Z) (entry : Z * TimerInfo) : Completion JsValue :=
  let '(id, info) := entry in
  match toISOString (createdAt info) with
  | Normal created =>
      Normal (JObject
                [(lit "id", JNumber (Int id));
                 (lit "delay", JNumber (delay info));
                 (lit "created", JString created);
                 (lit "ageSeconds", JString (toFixed1 (age_seconds now (createdAt info))));
                 (lit "origin", JString (stack info))])
  | Throw e => Throw e
  end.

(** [entries.map(f)] for an [f] that may throw. *)
Fixpoint map_try {A B} (f : A -> Completion B) (l : list A) : Completion (list B) :=
  match l with
  | [] => Normal []
  | a :: r =>
      match f a with
      | Normal b =>
          match map_try f r with
          | Normal bs => Normal (b :: bs)
          | Throw e => Throw e
          end
      | Throw e => Throw e
      end
  end.

(** [navigator.clipboard.writeText(text)]: the member access throws where
    [navigator.clipboard] is undefined, before [text] is evaluated. *)
Definition clipboard_writeText (text : M jsstring) : M unit :=
  available <- read_host (navigator_clipboard H) ;;
  if available then
    t <- text ;;
    effect (ClipboardWriteText t) ;;;
    (fun w =>
       (Normal tt,
        mkWorld (timeouts w) (intervals w) (host w) (effects w) (S (pending w))))
  else
    throw (TypeError (lit "Cannot read properties of undefined (reading 'writeText')")).

Definition copied_notice : jsstring :=
  [55357; 56523]%N ++ lit " Timer report copied to clipboard!".

Definition denied_warning : jsstring :=
  [55357; 56523]%N ++ lit " Copy failed: Clipboard access denied. " ++
  lit "Use the " ++ [34; 55357; 56523]%N ++ lit " Copy Timer Report" ++ [34%N] ++
  lit " button or call this from a user click.".

Definition failed_warning : jsstring :=
  [10060%N] ++ lit " Failed to copy timer report:".

Definition copyReportToClipboard : M unit :=
  now <- Date_now ;;
  time <- Date_now ;;
  timeouts <- timeouts_entries ;;
  timeout_items <- lift (map_try (snapshot_entry now) timeouts) ;;
  intervals <- intervals_entries ;;
  interval_items <- lift (map_try (snapshot_entry now) intervals) ;;
  let data :=
    JObject
      [(lit "time", JString (toLocaleTimeString H time));
       (lit "timeouts", JArray timeout_items);
       (lit "intervals", JArray interval_items)] in
  clipboard_writeText (ret (JSON_stringify H data)).

(** The reactions [.then(...)] and [.catch(err => ...)] attached to the
    promise of [writeText], run when it settles. *)
Definition clipboard_settled (outcome : PromiseOutcome) : M unit :=
  match outcome with
  | Fulfilled => effect (ConsoleInfo copied_notice)
  | Rejected err =>
      match err with
      | DOMException name =>
          if jsstring_eqb name (lit "NotAllowedError") then
            effect (ConsoleWarn denied_warning None)
          else effect (ConsoleWarn failed_warning (Some err))
      | _ => effect (ConsoleWarn failed_warning (Some err))
      end
  end.

(** ** Sessions

    What happens to the module after it is loaded: the page calls the four
    wrapped entry points and the four operations of [TIMER_TRACKER],
    clipboard promises settle, and timers fire.  The wrappers hand the
    callback to the native function as it is, so when a timer fires the host
    runs the callback and no code of the module. *)

Inductive Call : Type :=
| SetTimeout (fn : TimerHandler H) (delay : option number) (args : list (Any H))
| ClearTimeout (id : option Z)
| SetInterval (fn : TimerHandler H) (delay : option number) (args : list (Any H))
| ClearInterval (id : option Z)
| GetActiveTimeouts
| GetActiveIntervals
| Report
| CopyReportToClipboard
| ClipboardSettles (outcome : PromiseOutcome)
| TimerFires (id : Z).

Inductive Result : Type :=
| Handle (c : Completion Z)
| Entries (c : Completion (list (Z * TimerInfo)))
| Done (c : Completion unit).

Definition step (c : Call) (w : World) : Result * World :=
  match c with
  | SetTimeout fn delay args =>
      let (r, w') := window_setTimeout fn delay args w in (Handle r, w')
  | ClearTimeout id =>
      let (r, w') := window_clearTimeout id w in (Done r, w')
  | SetInterval fn delay args =>
      let (r, w') := window_setInterval fn delay args w in (Handle r, w')
  | ClearInterval id =>
      let (r, w') := window_clearInterval id w in (Done r, w')
  | GetActiveTimeouts =>
      let (r, w') := getActiveTimeouts w in (Entries r, w')
  | GetActiveIntervals =>
      let (r, w') := getActiveIntervals w in (Entries r, w')
  | Report =>
      let (r, w') := report w in (Done r, w')
  | CopyReportToClipboard =>
      let (r, w') := copyReportToClipboard w in (Done r, w')
  | ClipboardSettles outcome =>
      match pending w with
      | O => (Done (Normal tt), w)
      | S n =>
          let (r, w') :=
            clipboard_settled outcome
              (mkWorld (timeouts w) (intervals w) (host w) (effects w) n) in
          (Done r, w')
      end
  | TimerFires id => (Done (Normal tt), w)
  end.

(** One call of a session: the world it was made in, the call, its result
    and the world it left. *)
Record Event : Type := mkEvent {
  before : World;
  call : Call;
  result : Result;
  after : World
}.

Fixpoint run (cs : list Call) (w : World) : list Event * World :=
  match cs with
  | [] => ([], w)
  | c :: rest =>
      let (r, w1) := step c w in
      let (history, w2) := run rest w1 in
      (mkEvent w c r w1 :: history, w2)
  end.

(** The module as loaded: both maps empty. *)
Definition initial (s : HostS H) : World := mkWorld JsMap.empty JsMap.empty s [] 0.

(** ** What the claims speak of *)

(** The record a registration writes once the native call has left the
    host in state [s]: the clock is read first, the stack second. *)
Definition new_record (delay : option number) (s : HostS H) : TimerInfo :=
  let (now, s1) := native_now H s in
  mkTimerInfo now (or_zero delay) (stack_tag (fst (native_stack H s1))).

(** The event is a registration of a timeout that returned [h] and wrote
    [info]. *)
Definition registers_timeout (h : Z) (info : TimerInfo) (e : Event) : Prop :=
  exists fn delay args,
    call e = SetTimeout fn delay args /\
    result e = Handle (Normal h) /\
    info = new_record delay (snd (native_setTimeout H fn delay args (host (before e)))).

Definition registers_interval (h : Z) (info : TimerInfo) (e : Event) : Prop :=
  exists fn delay args,
    call e = SetInterval fn delay args /\
    result e = Handle (Normal h) /\
    info = new_record delay (snd (native_setInterval H fn delay args (host (before e)))).

(** The event is a cancellation of the timeout [h]. *)
Definition cancels_timeout (h : Z) (e : Event) : Prop :=
  call e = ClearTimeout (Some h).

Definition cancels_interval (h : Z) (e : Event) : Prop :=
  call e = ClearInterval (Some h).

(** [h] was registered with the record [info] by an event of the history,
    and no later event cancels [h] or registers it again. *)
Definition live (registers : Z -> TimerInfo -> Event -> Prop)
  (cancels : Z -> Event -> Prop)
  (history : list Event) (h : Z) (info : TimerInfo) : Prop :=
  exists earlier e later,
    history = earlier ++ e :: later /\
    registers h info e /\
    forall e', In e' later ->
      ~ cancels h e' /\ forall info', ~ registers h info' e'.

Definition live_timeout := live registers_timeout cancels_timeout.
Definition live_interval := live registers_interval cancels_interval.

(** The event a call makes in a world. *)
Definition event_of (c : Call) (w : World) : Event :=
  mkEvent w c (fst (step c w)) (snd (step c w)).

(** The registry tells the history: both maps have one entry per key, and
    their entries are the live registrations. *)
Definition consistent (history : list Event) (w : World) : Prop :=
  NoDup (JsMap.keys (timeouts w)) /\
  NoDup (JsMap.keys (intervals w)) /\
  (forall h info, In (h, info) (timeouts w) <-> live_timeout history h info) /\
  (forall h info, In (h, info) (intervals w) <-> live_interval history h info).

(** A computation that leaves both maps as they were. *)
Definition reads_only {A} (m : M A) : Prop :=
  forall w, timeouts (snd (m w)) = timeouts w /\ intervals (snd (m w)) = intervals w.

(** Every record of the map was created at a time value. *)
Definition timely (m : JsMap.t TimerInfo) : Prop :=
  Forall (fun entry => is_time_value (createdAt (snd entry)) = true) m.

(** The entry of the snapshot for an entry of the registry: an object with
    the five fields, the creation time as an ISO 8601 string and the age as
    a numeral with one digit after the point. *)
Definition snapshot_of (now : Z) (entry : Z * TimerInfo) (item : JsValue) : Prop :=
  item =
    JObject
      [(lit "id", JNumber (Int (fst entry)));
       (lit "delay", JNumber (delay (snd entry)));
       (lit "created", JString (iso_string (createdAt (snd entry))));
       (lit "ageSeconds",
        JString (toFixed1 (age_seconds now (createdAt (snd entry)))));
       (lit "origin", JString (stack (snd entry)))] /\
  is_iso8601 (iso_string (createdAt (snd entry))) = true /\
  is_decimal1 (toFixed1 (age_seconds now (createdAt (snd entry)))) = true.

(** The section of one kind of timer: nothing for an empty map. *)
Definition table_section (label : jsstring) (now : Z) (entries : list (Z * TimerInfo))
  : list Effect :=
  if nonempty entries then
    [ConsoleGroup label; ConsoleTable (map (report_row now) entries);
     ConsoleGroupEnd]
  else [].

(** The section of the duplicates: nothing for an empty table. *)
Definition duplicates_section (m : OriginMap) : list Effect :=
  if nonempty (duplicates_of m) then
    [ConsoleGroup duplicates_label; ConsoleTableDuplicates (duplicates_of m);
     ConsoleGroupEnd]
  else [].

End Tracker.

(** ** A scripted host

    A host that hands out the handles of a script, for running the module
    on concrete sessions. *)

Record Script : Type := mkScript {
  handles : list (Completion Z);
  clock : Z;
  stack_text : option jsstring;
  secure_context : bool
}.

Definition next_handle (s : Script) : Completion Z * Script :=
  match handles s with
  | [] => (Throw (TypeError (lit "no handle left")), s)
  | c :: rest => (c, mkScript rest (clock s) (stack_text s) (secure_context s))
  end.

Definition clamp (t : Z) : Z := Z.max (- max_time_value) (Z.min max_time_value t).

Definition tick (s : Script) : Z * Script :=
  (clamp (clock s),
   mkScript (handles s) (clock s + 250) (stack_text s) (secure_context s)).

Lemma tick_time_value (s : Script) : is_time_value (fst (tick s)) = true.
Proof.
  unfold is_time_value, tick, clamp, max_time_value. simpl. apply Z.leb_le. lia.
Qed.

Definition scripted : Host :=
  mkHost Script unit unit
    (fun _ _ _ => next_handle) (fun _ _ _ => next_handle)
    (fun _ s => s) (fun _ s => s)
    tick tick_time_value
    (fun s => (stack_text s, s))
    (fun _ => lit "10:13:20 PM")
    (fun _ => lit "{}")
    secure_context.

(** A stack as V8 prints it: a header line, then the frames; the caller of
    the wrapped function is the fourth line. *)
Definition stack_from (frame : string) : jsstring :=
  join [10%N]
    [lit "Error";
     lit "    at getStackTag (index.ts:32:21)";
     lit "    at window.setTimeout (index.ts:46:20)";
     lit frame;
     lit "    at main (app.ts:1:1)"].

Definition script (hs : list (Completion Z)) (frame : string) : Script :=
  mkScript hs 1700000000000 (Some (stack_from frame)) true.

(** The module loaded in a page whose every registration comes from one
    call site. *)
Definition page_at (frame : string) (hs : list (Completion Z)) : World (H:=scripted) :=
  initial (H:=scripted) (script hs frame).

Definition page := page_at "    at poll (app.ts:9:9)".

(** The same page outside a secure context: [navigator.clipboard] is
    undefined. *)
Definition insecure_page (hs : list (Completion Z)) : World (H:=scripted) :=
  initial (H:=scripted)
    (mkScript hs 1700000000000 (Some (stack_from "    at poll (app.ts:9:9)")) false).

Definition set_timeout (delay : option number) : Call (H:=scripted) :=
  SetTimeout (H:=scripted) tt delay [].

Definition set_interval (delay : option number) : Call (H:=scripted) :=
  SetInterval (H:=scripted) tt delay [].

(** The handles of the snapshot an event returned, if it returned one. *)
Definition listed (e : Event (H:=scripted)) : option (list Z) :=
  match result e with
  | Entries (Normal snapshot) => Some (map fst snapshot)
  | _ => None
  end.

(** ** What the further properties speak of *)

Section Observations.

Context {H : Host}.

(** A record as the wrappers write it: created at a time value, with a
    delay that is a number other than NaN, and tagged with a text that is
    not empty, has no white space at its ends and is one line. *)
Definition well_formed (info : TimerInfo) : Prop :=
  is_time_value (createdAt info) = true /\
  delay info <> NaN /\
  stack info <> [] /\
  trim (stack info) = stack info /\
  ~ In 10%N (stack info).

(** The calls of the native timer functions among the effects. *)
Definition is_native_call (e : Effect (H:=H)) : bool :=
  match e with
  | CallSetTimeout _ _ _ | CallClearTimeout _
  | CallSetInterval _ _ _ | CallClearInterval _ => true
  | _ => false
  end.

(** The native call a call of the page asks for: the one of the same name
    with the same arguments, and none for a cancellation of [undefined] and
    for the operations of [TIMER_TRACKER]. *)
Definition forwarded (c : Call (H:=H)) : list (Effect (H:=H)) :=
  match c with
  | SetTimeout fn delay args => [CallSetTimeout fn delay args]
  | ClearTimeout (Some id) => [CallClearTimeout id]
  | SetInterval fn delay args => [CallSetInterval fn delay args]
  | ClearInterval (Some id) => [CallClearInterval id]
  | _ => []
  end.

(** The calls that are no operation on the reports: the four wrappers, the
    two listings, and a timer firing. *)
Definition is_silent (c : Call (H:=H)) : bool :=
  match c with
  | Report | CopyReportToClipboard | ClipboardSettles _ => false
  | _ => true
  end.

(** The depth of the console groups after the effects, from a given depth;
    [None] when a group is closed that was not opened. *)
Fixpoint nesting (es : list (Effect (H:=H))) (depth : nat) : option nat :=
  match es with
  | [] => Some depth
  | ConsoleGroupCollapsed _ :: rest | ConsoleGroup _ :: rest => nesting rest (S depth)
  | ConsoleGroupEnd :: rest =>
      match depth with
      | O => None
      | S d => nesting rest d
      end
  | _ :: rest => nesting rest depth
  end.

(** The tables of timers among the effects. *)
Definition tables (es : list (Effect (H:=H))) : list (list TimerRow) :=
  flat_map (fun e => match e with ConsoleTable rows => [rows] | _ => [] end) es.

(** The tables of duplicates among the effects. *)
Definition duplicate_tables (es : list (Effect (H:=H))) : list (list DuplicateRow) :=
  flat_map (fun e => match e with ConsoleTableDuplicates rows => [rows] | _ => [] end) es.

(** The row of a table of [report] for an entry of the registry: the
    handle, the delay and the origin of the entry, the creation time in the
    locale's notation, and the age as a numeral with one digit after the
    point followed by the letter s. *)
Definition row_of (now : Z) (entry : Z * TimerInfo) (row : TimerRow) : Prop :=
  r_id row = fst entry /\
  r_delay row = delay (snd entry) /\
  r_created row = toLocaleTimeString H (createdAt (snd entry)) /\
  r_origin row = stack (snd entry) /\
  r_age row = toFixed1 (age_seconds now (createdAt (snd entry))) ++ lit "s" /\
  is_decimal1 (toFixed1 (age_seconds now (createdAt (snd entry)))) = true.

End Observations.

(** ** The order of the table of duplicates *)

(** The distinct strings of a list, in the order in which they first
    occur. *)
Definition first_seen (l : list jsstring) : list jsstring :=
  fold_left
    (fun seen x => if existsb (jsstring_eqb x) seen then seen else seen ++ [x])
    l [].

(** The order in which [Object.entries] lists the keys an object got in a
    given order. *)
Definition property_order (keys : list jsstring) : list jsstring :=
  map fst (Object_entries (map (fun key => (key, tt)) keys)).

(** Two or more of the entries bear the origin. *)
Definition shared (entries : list (Z * TimerInfo)) (origin : jsstring) : bool :=
  Nat.ltb 1 (List.length (bearing origin entries)).

(** The rows of the table of duplicates for the entries of the registry:
    one for every shared origin, in the order of the properties of the
    object that counts them. *)
Definition duplicate_rows (entries : list (Z * TimerInfo)) : list DuplicateRow :=
  map (fun origin => duplicate_row origin entries)
      (filter (shared entries)
              (property_order (first_seen (map (fun e => stack (snd e)) entries)))).

(** ** Doubles and numerals, for the age *)

(** The record [r] of a right shift tells where the rational [N / D] lies:
    between its mantissa [m] and [m + 1], with the round bit set from the
    midpoint on and the sticky bit set off the end and the midpoint. *)
Definition located (N D : Z) (r : shr_record) : Prop :=
  0 < D /\
  shr_m r * D <= N < (shr_m r + 1) * D /\
  shr_r r = ((2 * shr_m r + 1) * D <=? 2 * N) /\
  shr_s r = negb (N =? shr_m r * D) && negb (2 * N =? (2 * shr_m r + 1) * D).

(** The number of tenths a numeral in fixed notation spells: the number its
    digits spell, the point and the sign left out. *)
Definition tenths (s : jsstring) : Z := digits_value (filter is_digit s).

(** ** The document and the floating button

    What [createClipboardButton] sees of the page: the elements of the
    document in tree order, and whether the document has a body yet.  The
    body is the last child of the root, so a child appended to it comes
    last in tree order. *)

(** The listeners the module adds: [() => (button.style.opacity = value)]. *)
Inductive Listener : Type :=
| SetOpacity (value : jsstring).

(** The click handler the module sets:
    [() => { window.TIMER_TRACKER?.copyReportToClipboard(); }]. *)
Inductive ClickHandler : Type :=
| CopyTimerReport.

Record Element : Type := mkElement {
  localName : jsstring;
  element_id : jsstring;
  innerText : jsstring;
  style : list (jsstring * jsstring);
  listeners : list (jsstring * Listener);
  onclick : option ClickHandler
}.

Record Document : Type := mkDocument {
  elements : list Element;
  has_body : bool
}.

(** [document.getElementById(id)]: the first element in tree order with
    the id, or [null]. *)
Definition getElementById (id : jsstring) (d : Document) : option Element :=
  find (fun e => jsstring_eqb (element_id e) id) (elements d).

(** [document.body.appendChild(child)]: the member access throws while the
    body is [null]. *)
Definition body_appendChild (child : Element) (d : Document)
  : Completion unit * Document :=
  if has_body d then (Normal tt, mkDocument (elements d ++ [child]) true)
  else (Throw (TypeError (lit "Cannot read properties of null (reading 'appendChild')")),
        d).

Definition button_id : jsstring := lit "__timerTrackerCopyButton".

Definition button_label : jsstring := [55357; 56523]%N ++ lit " Copy Timer Report".

(** The properties [Object.assign] copies to [button.style], in order. *)
Definition button_style : list (jsstring * jsstring) :=
  map (fun p => (lit (fst p), lit (snd p)))
    [("position", "fixed"); ("bottom", "1rem"); ("right", "1rem");
     ("zIndex", "9999"); ("padding", "0.5rem 1rem"); ("background", "#333");
     ("color", "#fff"); ("border", "none"); ("borderRadius", "4px");
     ("cursor", "pointer"); ("fontSize", "14px");
     ("boxShadow", "0 2px 6px rgba(0,0,0,0.2)"); ("opacity", "0.8")].

(** The button as it is when it is appended. *)
Definition copy_button : Element :=
  mkElement (lit "button") button_id button_label button_style
    [(lit "mouseenter", SetOpacity (lit "1"));
     (lit "mouseleave", SetOpacity (lit "0.8"))]
    (Some CopyTimerReport).

(** [function createClipboardButton() { ... }] *)
Definition createClipboardButton (d : Document) : Completion unit * Document :=
  match getElementById button_id d with
  | Some _ => (Normal tt, d)
  | None => body_appendChild copy_button d
  end.

(** [style[name] = value]: the declaration is replaced where it stands, or
    added after the others. *)
Fixpoint style_set (name value : jsstring) (s : list (jsstring * jsstring))
  : list (jsstring * jsstring) :=
  match s with
  | [] => [(name, value)]
  | (n, v) :: rest =>
      if jsstring_eqb n name then (n, value) :: rest
      else (n, v) :: style_set name value rest
  end.

(** A listener of the button, run on the button. *)
Definition run_listener (l : Listener) (e : Element) : Element :=
  match l with
  | SetOpacity value =>
      mkElement (localName e) (element_id e) (innerText e)
        (style_set (lit "opacity") value (style e)) (listeners e) (onclick e)
  end.

(** The button with another opacity. *)
Definition button_with (opacity : jsstring) : Element :=
  mkElement (localName copy_button) (element_id copy_button) (innerText copy_button)
    (style_set (lit "opacity") opacity (style copy_button))
    (listeners copy_button) (onclick copy_button).

(** An event of a type at the element: its listeners for the type run, in
    the order in which they were added. *)
Definition dispatchEvent (type : jsstring) (e : Element) : Element :=
  fold_left
    (fun e' l => if jsstring_eqb (fst l) type then run_listener (snd l) e' else e')
    (listeners e) e.

(** Whether the pointer is over the button after the events, given whether
    it was before. *)
Definition hovered (over : bool) (events : list jsstring) : bool :=
  fold_left
    (fun over type =>
       if jsstring_eqb type (lit "mouseenter") then true
       else if jsstring_eqb type (lit "mouseleave") then false
       else over)
    events over.

(** The number of elements of the document that have the id. *)
Definition count_id (id : jsstring) (d : Document) : nat :=
  List.length (filter (fun e => jsstring_eqb (element_id e) id) (elements d)).

(** * Properties *)

(** ** Strings *)

Lemma split_nonempty (sep : N) (s : jsstring) : split sep s <> [].
Proof.
  destruct s as [|c r]; simpl; [discriminate|].
  destruct (c =? sep)%N; [discriminate|]. now destruct (split sep r).
Qed.

(** Joining the pieces of a split with the separator gives the string
    back. *)
Lemma join_split (sep : N) (s : jsstring) : join [sep] (split sep s) = s.
Proof.
  induction s as [|c r IH]; [reflexivity|]. simpl.
  pose proof (split_nonempty sep r) as Hne.
  destruct (c =? sep)%N eqn:E.
  - apply N.eqb_eq in E. subst c.
    destruct (split sep r) as [|p ps]; [congruence|].
    change (join [sep] ([] :: p :: ps)) with ([sep] ++ join [sep] (p :: ps)).
    now rewrite IH.
  - destruct (split sep r) as [|p ps]; [congruence|].
    destruct ps as [|q qs]; simpl in *; now rewrite <- IH.
Qed.

(** No piece of a split contains the separator. *)
Lemma split_pieces (sep : N) (s piece : jsstring) :
  In piece (split sep s) -> ~ In sep piece.
Proof.
  revert piece. induction s as [|c r IH]; simpl; intros piece Hin.
  - destruct Hin as [<-|[]]. tauto.
  - destruct (c =? sep)%N eqn:E.
    + destruct Hin as [<-|Hin]; [tauto | now apply IH].
    + apply N.eqb_neq in E. pose proof (split_nonempty sep r) as Hne.
      destruct (split sep r) as [|p ps]; [congruence|].
      destruct Hin as [<-|Hin].
      * intros [->|Hin]; [congruence|]. apply (IH p); [now left | assumption].
      * apply IH. now right.
Qed.

Lemma trimStart_spec (s : jsstring) :
  exists blank,
    s = blank ++ trimStart s /\ forallb is_whitespace blank = true /\
    match trimStart s with
    | c :: _ => is_whitespace c = false
    | [] => True
    end.
Proof.
  induction s as [|c r (blank & E & Hb & Hh)]; simpl.
  - exists []. now repeat split.
  - destruct (is_whitespace c) eqn:Ec.
    + exists (c :: blank). simpl. rewrite Ec, Hb. repeat split; [congruence | assumption].
    + exists []. simpl. now repeat split.
Qed.

(** A trimmed string is the string without the white space at its two
    ends. *)
Lemma trim_spec (s : jsstring) :
  exists before after,
    s = before ++ trim s ++ after /\
    forallb is_whitespace before = true /\ forallb is_whitespace after = true /\
    match trim s with
    | c :: _ => is_whitespace c = false
    | [] => True
    end /\
    match rev (trim s) with
    | c :: _ => is_whitespace c = false
    | [] => True
    end.
Proof.
  destruct (trimStart_spec s) as (before & E1 & H1 & Hhead).
  destruct (trimStart_spec (rev (trimStart s))) as (after & E2 & H2 & Hlast).
  unfold trim, trimEnd. set (t := trimStart (rev (trimStart s))) in *.
  assert (E3 : trimStart s = rev t ++ rev after).
  { rewrite <- rev_app_distr, <- E2. now rewrite rev_involutive. }
  exists before, (rev after). rewrite <- E3. split; [exact E1|].
  split; [exact H1|]. split.
  - apply forallb_forall. intros x Hx. apply in_rev in Hx.
    revert x Hx. now apply forallb_forall.
  - rewrite rev_involutive. split; [|exact Hlast].
    destruct (rev t) as [|c l] eqn:Et; [exact I|].
    rewrite E3 in Hhead. exact Hhead.
Qed.

(** ** Doubles *)

Lemma digits2_log2 (p : positive) : Z.pos (digits2_pos p) = Z.log2 (Z.pos p) + 1.
Proof.
  assert (E : forall q, digits2_pos q = Pos.size q)
    by (induction q; simpl; congruence).
  rewrite E. destruct p; simpl; lia.
Qed.

Lemma Zdigits2_nonneg (m : Z) : 0 <= Zdigits2 m.
Proof. destruct m; simpl; lia. Qed.

Lemma Zdigits2_log2 (m : Z) : 0 < m -> Zdigits2 m = Z.log2 m + 1.
Proof. destruct m; try lia. intros _. apply digits2_log2. Qed.

Lemma Zdigits2_lt_pow2 (m b : Z) : 0 <= m -> 0 <= b -> m < 2 ^ b -> Zdigits2 m <= b.
Proof.
  intros Hm Hb Hlt. destruct (Z.eq_dec m 0) as [->|Hne]; [simpl; lia|].
  rewrite Zdigits2_log2 by lia. apply Z.log2_lt_pow2 in Hlt; lia.
Qed.

Lemma lt_pow2_Zdigits2 (m : Z) : 0 <= m -> m < 2 ^ Zdigits2 m.
Proof.
  intros Hm. destruct (Z.eq_dec m 0) as [->|Hne]; [simpl; lia|].
  rewrite Zdigits2_log2 by lia.
  apply (Z.log2_spec m). lia.
Qed.

Lemma Zdigits2_le_pow2 (m : Z) : 0 < m -> 2 ^ (Zdigits2 m - 1) <= m.
Proof.
  intros Hm. rewrite Zdigits2_log2 by lia.
  replace (Z.log2 m + 1 - 1) with (Z.log2 m) by lia.
  apply (Z.log2_spec m Hm).
Qed.

Lemma Zdigits2_succ (m : Z) : 0 <= m -> Zdigits2 (m + 1) <= Zdigits2 m + 1.
Proof.
  intros Hm. destruct (Z.eq_dec m 0) as [->|Hne]; [simpl; lia|].
  rewrite !Zdigits2_log2 by lia.
  pose proof (Z.log2_succ_le m). unfold Z.succ in *. lia.
Qed.

Lemma Zdigits2_shiftr (m n : Z) :
  0 <= m -> Zdigits2 (Z.shiftr m n) <= Z.max 0 (Zdigits2 m - n).
Proof.
  intros Hm. destruct (Z.eq_dec m 0) as [->|Hne].
  - rewrite Z.shiftr_0_l. simpl. lia.
  - destruct (Z.eq_dec (Z.shiftr m n) 0) as [->|Hne']; [simpl; lia|].
    assert (0 <= Z.shiftr m n) by (apply Z.shiftr_nonneg; lia).
    destruct (Z_lt_le_dec (Z.log2 m) n) as [Hlt|Hge];
      [exfalso; apply Hne'; apply Z.shiftr_eq_0; lia|].
    rewrite !Zdigits2_log2 by lia. rewrite Z.log2_shiftr by lia. lia.
Qed.

(** *** Shifting right *)

Lemma shr_1_m (r : shr_record) : 0 <= shr_m r -> shr_m (shr_1 r) = Z.div2 (shr_m r).
Proof. destruct r as [[|[p|p|]|p] b s]; simpl; intros; try reflexivity; lia. Qed.

Lemma shr_1_nonneg (r : shr_record) : 0 <= shr_m r -> 0 <= shr_m (shr_1 r).
Proof.
  intros Hr. rewrite shr_1_m by assumption. rewrite Z.div2_div.
  apply Z.div_pos; lia.
Qed.

Lemma iter_shr_1_m (p : positive) (r : shr_record) :
  0 <= shr_m r -> shr_m (iter_pos shr_1 p r) = Z.shiftr (shr_m r) (Z.pos p).
Proof.
  revert r. induction p as [p IH|p IH|]; intros r Hr; simpl.
  - pose proof (shr_1_nonneg r Hr) as H1.
    pose proof (IH (shr_1 r) H1) as E1.
    assert (H2 : 0 <= shr_m (iter_pos shr_1 p (shr_1 r)))
      by (rewrite E1; now apply Z.shiftr_nonneg).
    rewrite (IH _ H2), E1, shr_1_m by assumption.
    rewrite Z.div2_spec, !Z.shiftr_shiftr by lia. f_equal. lia.
  - pose proof (IH r Hr) as E1.
    assert (H2 : 0 <= shr_m (iter_pos shr_1 p r))
      by (rewrite E1; now apply Z.shiftr_nonneg).
    rewrite (IH _ H2), E1. rewrite Z.shiftr_shiftr by lia. f_equal. lia.
  - rewrite shr_1_m by assumption. now rewrite Z.div2_spec.
Qed.

Lemma shr_bound (r : shr_record) (e n B : Z) :
  0 <= shr_m r -> Zdigits2 (shr_m r) + e <= B -> e + n <= B ->
  0 <= shr_m (fst (shr r e n)) /\
  Zdigits2 (shr_m (fst (shr r e n))) + snd (shr r e n) <= B.
Proof.
  intros Hm Hd Hn. destruct n as [|p|p]; simpl; try (split; assumption).
  rewrite iter_shr_1_m by assumption. split; [now apply Z.shiftr_nonneg|].
  pose proof (Zdigits2_shiftr (shr_m r) (Z.pos p) Hm). lia.
Qed.

Lemma shr_record_of_loc_m (m : Z) (l : location) : shr_m (shr_record_of_loc m l) = m.
Proof. now destruct l as [|[]]. Qed.

Lemma shr_fexp_bound (m e B : Z) (l : location) :
  0 <= m -> Zdigits2 m + e <= B -> emin prec emax <= B ->
  0 <= shr_m (fst (shr_fexp prec emax m e l)) /\
  Zdigits2 (shr_m (fst (shr_fexp prec emax m e l))) + snd (shr_fexp prec emax m e l) <= B.
Proof.
  intros Hm Hd Hmin. unfold shr_fexp. apply shr_bound.
  - now rewrite shr_record_of_loc_m.
  - now rewrite shr_record_of_loc_m.
  - unfold fexp, emin, prec, emax in *. lia.
Qed.

Lemma round_nearest_even_bound (m : Z) (l : location) :
  0 <= m ->
  0 <= round_nearest_even m l /\ Zdigits2 (round_nearest_even m l) <= Zdigits2 m + 1.
Proof.
  intros Hm. pose proof (Zdigits2_succ m Hm).
  destruct l as [|[]]; simpl; try (split; lia).
  destruct (Z.even m); split; lia.
Qed.

Lemma binary_round_aux_below (s : bool) (m e B : Z) (l : location) :
  0 <= m -> Zdigits2 m + e <= B -> emin prec emax <= B -> B < emax - prec ->
  below (B + 1) (binary_round_aux prec emax s m e l).
Proof.
  intros Hm Hd Hmin Hmax. unfold binary_round_aux.
  pose proof (shr_fexp_bound m e B l Hm Hd Hmin) as [H1 H2].
  destruct (shr_fexp prec emax m e l) as [r1 e1]. simpl in H1, H2.
  pose proof (round_nearest_even_bound (shr_m r1) (loc_of_shr_record r1) H1) as [H3 H4].
  set (m2 := round_nearest_even (shr_m r1) (loc_of_shr_record r1)) in *.
  assert (Hd2 : Zdigits2 m2 + e1 <= B + 1) by lia.
  assert (Hmin2 : emin prec emax <= B + 1) by lia.
  pose proof (shr_fexp_bound m2 e1 (B + 1) loc_Exact H3 Hd2 Hmin2) as [H5 H6].
  destruct (shr_fexp prec emax m2 e1 loc_Exact) as [r3 e3]. simpl in H5, H6.
  destruct (shr_m r3) as [|m3|m3] eqn:E3; try exact I; try lia.
  change (Zdigits2 (Z.pos m3)) with (Z.pos (digits2_pos m3)) in H6.
  assert (Hle : (e3 <=? emax - prec) = true)
    by (apply Z.leb_le; unfold emax, prec in *; lia).
  rewrite Hle. exact H6.
Qed.

(** *** Rounding an integer mantissa *)

Lemma digits2_iter_xO (m d : positive) :
  Z.pos (digits2_pos (Pos.iter xO m d)) = Z.pos (digits2_pos m) + Z.pos d.
Proof.
  induction d as [|d IH] using Pos.peano_ind.
  - simpl. lia.
  - rewrite Pos.iter_succ. simpl digits2_pos. lia.
Qed.

Lemma shl_align_digits (m : positive) (e e' : Z) :
  Z.pos (digits2_pos (fst (shl_align m e e'))) + snd (shl_align m e e')
  = Z.pos (digits2_pos m) + e.
Proof.
  unfold shl_align. destruct (e' - e) as [|d|d] eqn:E; cbn [fst snd];
    try reflexivity.
  rewrite digits2_iter_xO. lia.
Qed.

Lemma binary_round_below (s : bool) (m : positive) (e B : Z) :
  Z.pos (digits2_pos m) + e <= B -> emin prec emax <= B -> B < emax - prec ->
  below (B + 1) (binary_round prec emax s m e).
Proof.
  intros Hd Hmin Hmax. unfold binary_round.
  pose proof (shl_align_digits m e (fexp prec emax (Z.pos (digits2_pos m) + e))) as E.
  destruct (shl_align m e (fexp prec emax (Z.pos (digits2_pos m) + e))) as [mz ez].
  cbn [fst snd] in E. apply binary_round_aux_below; try assumption; try lia.
  change (Zdigits2 (Z.pos mz)) with (Z.pos (digits2_pos mz)). lia.
Qed.

Lemma binary_normalize_below (m e B : Z) :
  Zdigits2 m + e <= B -> emin prec emax <= B -> B < emax - prec ->
  below (B + 1) (binary_normalize prec emax m e false).
Proof.
  intros Hd Hmin Hmax. destruct m as [|p|p]; simpl; try exact I;
    now apply binary_round_below.
Qed.

(** A time value as a Number is below [2^54]. *)
Lemma Number_of_Z_below (z : Z) :
  Z.abs z <= 8640000000000000 -> below 54 (Number_of_Z z).
Proof.
  intros Hz. unfold Number_of_Z.
  apply (binary_normalize_below z 0 53); [|vm_compute; discriminate|reflexivity].
  assert (Zdigits2 z = Zdigits2 (Z.abs z)) as -> by now destruct z.
  pose proof (Zdigits2_lt_pow2 (Z.abs z) 53). lia.
Qed.

(** *** Subtraction *)

Lemma shl_align_snd (m : positive) (e e' : Z) : e' <= e -> snd (shl_align m e e') = e'.
Proof.
  intros Hle. unfold shl_align. destruct (e' - e) as [|d|d] eqn:E; cbn [snd]; lia.
Qed.

Lemma Zdigits2_abs (z : Z) : Zdigits2 (Z.abs z) = Zdigits2 z.
Proof. now destruct z. Qed.

Lemma Zdigits2_sum (a b D d : Z) :
  0 < a -> 0 < b -> Zdigits2 a <= d -> Zdigits2 b <= d -> Z.abs D <= a + b ->
  Zdigits2 D <= d + 1.
Proof.
  intros Ha Hb Hda Hdb HD. rewrite <- Zdigits2_abs.
  pose proof (Zdigits2_nonneg a).
  apply Zdigits2_lt_pow2; try lia.
  pose proof (lt_pow2_Zdigits2 a ltac:(lia)).
  pose proof (lt_pow2_Zdigits2 b ltac:(lia)).
  pose proof (Z.pow_le_mono_r 2 (Zdigits2 a) d ltac:(lia) Hda).
  pose proof (Z.pow_le_mono_r 2 (Zdigits2 b) d ltac:(lia) Hdb).
  rewrite Z.pow_add_r by lia. change (2 ^ 1) with 2. lia.
Qed.

Lemma SFsub_below (x y : spec_float) (B : Z) :
  below B x -> below B y -> emin prec emax <= B -> B + 1 < emax - prec ->
  below (B + 2) (SFsub prec emax x y).
Proof.
  intros Hx Hy Hmin Hmax.
  destruct x as [sx|sx| |sx mx ex], y as [sy|sy| |sy my ey];
    cbn [below] in Hx, Hy; try contradiction; cbn [SFsub].
  - now destruct sx, sy.
  - cbn [below]. lia.
  - cbn [below]. lia.
  - set (ez := Z.min ex ey).
    pose proof (shl_align_digits mx ex ez) as Ex.
    pose proof (shl_align_digits my ey ez) as Ey.
    rewrite shl_align_snd in Ex, Ey by (unfold ez; lia).
    set (mx' := fst (shl_align mx ex ez)) in *.
    set (my' := fst (shl_align my ey ez)) in *.
    replace (B + 2) with ((B + 1) + 1) by lia.
    apply binary_normalize_below; try lia.
    assert (Zdigits2 (cond_Zopp sx (Z.pos mx') - cond_Zopp sy (Z.pos my'))
            <= (B - ez) + 1); [|lia].
    apply (Zdigits2_sum (Z.pos mx') (Z.pos my')); try lia.
    + change (Zdigits2 (Z.pos mx')) with (Z.pos (digits2_pos mx')). lia.
    + change (Zdigits2 (Z.pos my')) with (Z.pos (digits2_pos my')). lia.
    + destruct sx, sy; unfold cond_Zopp; lia.
Qed.

(** *** Division *)

Lemma SFdiv_core_binary_bound (m1 m2 : positive) (e1 e2 : Z) :
  let '(q, e', _) := SFdiv_core_binary prec emax (Z.pos m1) e1 (Z.pos m2) e2 in
  0 <= q /\
  Zdigits2 q + e' <=
    Z.max (Z.pos (digits2_pos m1) + e1 - (Z.pos (digits2_pos m2) + e2) + 1)
          (emin prec emax).
Proof.
  unfold SFdiv_core_binary.
  change (Zdigits2 (Z.pos m1)) with (Z.pos (digits2_pos m1)).
  change (Zdigits2 (Z.pos m2)) with (Z.pos (digits2_pos m2)).
  set (d1 := Z.pos (digits2_pos m1)). set (d2 := Z.pos (digits2_pos m2)).
  set (e' := Z.min (fexp prec emax (d1 + e1 - (d2 + e2))) (e1 - e2)).
  set (s := e1 - e2 - e').
  assert (Hs : 0 <= s) by (unfold s, e'; lia).
  set (m' := match s with
             | 0 => Z.pos m1
             | Z.pos _ => Z.shiftl (Z.pos m1) s
             | Z.neg _ => 0
             end).
  assert (Em : m' = Z.pos m1 * 2 ^ s).
  { unfold m'. destruct s as [|p|p] eqn:E; try lia.
    now rewrite Z.shiftl_mul_pow2 by lia. }
  pose proof (Z_div_mod m' (Z.pos m2) ltac:(lia)) as Hdiv.
  destruct (Z.div_eucl m' (Z.pos m2)) as [q r]. destruct Hdiv as [Eq Hr].
  assert (Hp : 0 < 2 ^ s) by (apply Z.pow_pos_nonneg; lia).
  assert (Hq : 0 <= q) by nia.
  split; [assumption|].
  pose proof (lt_pow2_Zdigits2 (Z.pos m1) ltac:(lia)) as H1.
  pose proof (Zdigits2_le_pow2 (Z.pos m2) ltac:(lia)) as H2.
  change (Zdigits2 (Z.pos m1)) with d1 in H1.
  change (Zdigits2 (Z.pos m2)) with d2 in H2.
  assert (Hd1 : 0 < d1) by (unfold d1; lia).
  assert (Hd2 : 0 < d2) by (unfold d2; lia).
  destruct (Z_lt_le_dec (d1 + s - d2 + 1) 0) as [Hneg|Hc].
  - (* the quotient is zero *)
    assert (q = 0).
    { assert (m' < Z.pos m2); [|nia].
      rewrite Em.
      assert (2 ^ d1 * 2 ^ s <= 2 ^ (d2 - 1)).
      { rewrite <- Z.pow_add_r by lia. apply Z.pow_le_mono_r; lia. }
      nia. }
    subst q. change (Zdigits2 0) with 0. unfold e', fexp, emin, prec, emax. lia.
  - assert (Zdigits2 q <= d1 + s - d2 + 1); [|unfold s in *; lia].
    apply Zdigits2_lt_pow2; try lia.
    assert (E2 : 2 ^ d1 * 2 ^ s = 2 ^ (d1 + s - d2 + 1) * 2 ^ (d2 - 1)).
    { rewrite <- !Z.pow_add_r by lia. f_equal. lia. }
    assert (0 < 2 ^ (d1 + s - d2 + 1)) by (apply Z.pow_pos_nonneg; lia).
    assert (0 < 2 ^ (d2 - 1)) by (apply Z.pow_pos_nonneg; lia).
    nia.
Qed.

Lemma SFdiv_below (x y : spec_float) (B M : Z) :
  below B x ->
  match y with
  | S754_finite _ my ey => Z.pos (digits2_pos my) + ey = M
  | _ => False
  end ->
  emin prec emax <= B - M + 1 -> B - M + 1 < emax - prec ->
  below (B - M + 2) (SFdiv prec emax x y).
Proof.
  intros Hx Hy Hmin Hmax.
  destruct y as [sy|sy| |sy my ey]; try contradiction.
  destruct x as [sx|sx| |sx mx ex]; cbn [below] in Hx; try contradiction;
    cbn [SFdiv].
  - exact I.
  - pose proof (SFdiv_core_binary_bound mx my ex ey) as Hc.
    destruct (SFdiv_core_binary prec emax (Z.pos mx) ex (Z.pos my) ey)
      as [[q e'] l]. destruct Hc as [Hq Hd].
    replace (B - M + 2) with ((B - M + 1) + 1) by lia.
    apply binary_round_aux_below; try assumption. lia.
Qed.

(** The age of a record, in seconds, is below [2^48]. *)
Lemma age_seconds_below (now createdAt : Z) :
  Z.abs now <= 8640000000000000 -> Z.abs createdAt <= 8640000000000000 ->
  below 48 (age_seconds now createdAt).
Proof.
  intros Hn Hc. unfold age_seconds.
  apply (SFdiv_below _ _ 56 10).
  - apply (SFsub_below _ _ 54); try (now apply Number_of_Z_below);
      vm_compute; congruence.
  - reflexivity.
  - vm_compute. discriminate.
  - reflexivity.
Qed.

Lemma below_not_1e21 (s : bool) (m : positive) (e : Z) :
  below 48 (S754_finite s m e) -> at_least_1e21 m e = false.
Proof.
  cbn [below]. intros Hb. unfold at_least_1e21.
  pose proof (lt_pow2_Zdigits2 (Z.pos m) ltac:(lia)) as Hm.
  change (Zdigits2 (Z.pos m)) with (Z.pos (digits2_pos m)) in Hm.
  set (d := Z.pos (digits2_pos m)) in *.
  assert (Hd : 0 < d) by (unfold d; lia).
  assert (H48 : 2 ^ 48 < 10 ^ 21) by (vm_compute; reflexivity).
  destruct (0 <=? e) eqn:He.
  - apply Z.leb_le in He. apply Z.leb_gt.
    assert (Z.pos m * 2 ^ e < 2 ^ 48); [|lia].
    assert (0 < 2 ^ e) by (apply Z.pow_pos_nonneg; lia).
    assert (2 ^ d * 2 ^ e <= 2 ^ 48).
    { rewrite <- Z.pow_add_r by lia. apply Z.pow_le_mono_r; lia. }
    nia.
  - apply Z.leb_gt in He. apply Z.leb_gt.
    assert (0 < 2 ^ (- e)) by (apply Z.pow_pos_nonneg; lia).
    assert (2 ^ d <= 2 ^ 48 * 2 ^ (- e)).
    { rewrite <- Z.pow_add_r by lia. apply Z.pow_le_mono_r; lia. }
    nia.
Qed.

(** ** Numerals *)

Lemma is_digit_digit (d : Z) : is_digit (digit d) = true.
Proof.
  unfold is_digit, digit. pose proof (Z.mod_pos_bound d 10 ltac:(lia)).
  apply andb_true_intro. split; apply N.leb_le; lia.
Qed.

Lemma decimal_fuel_digits (fuel : nat) (n : Z) (acc : jsstring) :
  forallb is_digit acc = true -> forallb is_digit (decimal_fuel fuel n acc) = true.
Proof.
  revert n acc. induction fuel as [|fuel IH]; intros n acc Hacc; simpl; [assumption|].
  destruct (n <? 10).
  - simpl. now rewrite is_digit_digit.
  - apply IH. simpl. now rewrite is_digit_digit.
Qed.

Lemma decimal_fuel_length (fuel : nat) (n : Z) (acc : jsstring) :
  (List.length acc <= List.length (decimal_fuel fuel n acc))%nat.
Proof.
  revert n acc. induction fuel as [|fuel IH]; intros n acc; simpl; [lia|].
  destruct (n <? 10); simpl; [lia|].
  specialize (IH (n / 10) (digit n :: acc)). simpl in IH. lia.
Qed.

Lemma decimal_fuel_length_le (fuel : nat) (n : Z) (acc : jsstring) (k : nat) :
  0 <= n < 10 ^ Z.of_nat (S k) ->
  (List.length (decimal_fuel fuel n acc) <= List.length acc + S k)%nat.
Proof.
  revert n acc k. induction fuel as [|fuel IH]; intros n acc k Hn; simpl; [lia|].
  destruct (n <? 10) eqn:E; simpl; [lia|].
  apply Z.ltb_ge in E. destruct k as [|k]; [simpl in Hn; lia|].
  assert (Hdiv : 0 <= n / 10 < 10 ^ Z.of_nat (S k)).
  { split; [apply Z.div_pos; lia|].
    apply Z.div_lt_upper_bound; [lia|].
    rewrite <- Z.pow_succ_r by lia. rewrite <- Nat2Z.inj_succ. lia. }
  specialize (IH (n / 10) (digit n :: acc) k Hdiv). simpl in IH. lia.
Qed.

Lemma decimal_digits (n : Z) : forallb is_digit (decimal n) = true.
Proof. now apply decimal_fuel_digits. Qed.

Lemma decimal_nonempty (n : Z) : (1 <= List.length (decimal n))%nat.
Proof.
  unfold decimal. simpl. destruct (n <? 10); simpl; [lia|].
  pose proof (decimal_fuel_length (Z.to_nat (Z.log2 n)) (n / 10) [digit n]).
  simpl in *. lia.
Qed.

Lemma zero_padded_digits (n : Z) (k : nat) : forallb is_digit (zero_padded n k) = true.
Proof.
  unfold zero_padded. rewrite forallb_app, decimal_digits, andb_true_r.
  induction (k - List.length (decimal n))%nat; simpl; auto.
Qed.

Lemma zero_padded_length (n : Z) (k : nat) : (k <= List.length (zero_padded n k))%nat.
Proof. unfold zero_padded. rewrite length_app, repeat_length. lia. Qed.

Lemma zero_padded_width (n : Z) (k : nat) :
  0 <= n < 10 ^ Z.of_nat (S k) -> List.length (zero_padded n (S k)) = S k.
Proof.
  intros Hn. unfold zero_padded. rewrite length_app, repeat_length.
  pose proof (decimal_fuel_length_le (S (Z.to_nat (Z.log2 n))) n [] k Hn) as Hle.
  fold (decimal n) in Hle. simpl in Hle. lia.
Qed.

(** Checking every integer of a range. *)
Lemma forall_range (P : Z -> bool) (k : nat) :
  forallb P (map Z.of_nat (seq 0 k)) = true ->
  forall n, 0 <= n < Z.of_nat k -> P n = true.
Proof.
  intros Hall n Hn. rewrite forallb_forall in Hall. apply Hall.
  apply in_map_iff. exists (Z.to_nat n). split; [lia|].
  apply in_seq. lia.
Qed.

Lemma zero_padded_2 (n : Z) :
  0 <= n < 100 -> zero_padded n 2 = [digit (n / 10); digit n].
Proof.
  intros Hn.
  apply (forall_range
           (fun n => if jsstring_eq_dec (zero_padded n 2) [digit (n / 10); digit n]
                     then true else false) 100) in Hn.
  - now destruct (jsstring_eq_dec _ _).
  - vm_compute. reflexivity.
Qed.

Lemma zero_padded_3 (n : Z) :
  0 <= n < 1000 -> zero_padded n 3 = [digit (n / 100); digit (n / 10); digit n].
Proof.
  intros Hn.
  apply (forall_range
           (fun n => if jsstring_eq_dec (zero_padded n 3)
                          [digit (n / 100); digit (n / 10); digit n]
                     then true else false) 1000) in Hn.
  - now destruct (jsstring_eq_dec _ _).
  - vm_compute. reflexivity.
Qed.

Lemma fixed1_shape (n : Z) :
  exists integer fraction,
    fixed1 n = integer ++ [46%N; fraction] /\
    integer <> [] /\ forallb is_digit integer = true /\ is_digit fraction = true.
Proof.
  unfold fixed1.
  pose proof (zero_padded_length n 2) as Hlen.
  pose proof (zero_padded_digits n 2) as Hdig.
  set (m := zero_padded n 2) in *.
  destruct (exists_last (l:=m)) as (integer & fraction & E).
  { intros ->. simpl in Hlen. lia. }
  rewrite E in *. rewrite length_app in *. simpl in Hlen |- *.
  replace (List.length integer + 1 - 1)%nat with (List.length integer) by lia.
  rewrite firstn_app, firstn_all, Nat.sub_diag, skipn_app, skipn_all, Nat.sub_diag.
  simpl. rewrite app_nil_r. exists integer, fraction.
  rewrite forallb_app in Hdig. apply andb_prop in Hdig. destruct Hdig as [H1 H2].
  simpl in H2. rewrite andb_true_r in H2.
  repeat split; try assumption. intros ->. simpl in Hlen. lia.
Qed.

Lemma is_decimal1_unsigned (integer : jsstring) (fraction : N) :
  integer <> [] -> forallb is_digit integer = true -> is_digit fraction = true ->
  is_decimal1 (integer ++ [46%N; fraction]) = true /\
  is_decimal1 (45%N :: integer ++ [46%N; fraction]) = true.
Proof.
  intros Hne Hint Hfr.
  assert (Hrev : rev (integer ++ [46%N; fraction]) = fraction :: 46%N :: rev integer)
    by (now rewrite rev_app_distr).
  assert (Hall : forallb is_digit (rev integer) = true).
  { apply forallb_forall. intros x Hx. apply in_rev in Hx.
    revert x Hx. now apply forallb_forall. }
  assert (Hnon : nonempty (rev integer) = true).
  { destruct (rev integer) eqn:E; [|reflexivity].
    apply (f_equal (@rev N)) in E. rewrite rev_involutive in E. now subst. }
  split.
  - unfold is_decimal1. destruct integer as [|c r]; [congruence|].
    assert (Hc : (c =? 45)%N = false).
    { simpl in Hint. apply andb_prop in Hint. destruct Hint as [Hc _].
      unfold is_digit in Hc. apply andb_prop in Hc. destruct Hc as [Hc _].
      apply N.leb_le in Hc. apply N.eqb_neq. lia. }
    unfold unsigned. rewrite <- app_comm_cons, Hc, app_comm_cons, Hrev.
    now rewrite N.eqb_refl, Hfr, Hnon, Hall.
  - unfold is_decimal1, unsigned. rewrite N.eqb_refl, Hrev.
    now rewrite N.eqb_refl, Hfr, Hnon, Hall.
Qed.

(** The age of a record prints with one digit after the point. *)
Lemma toFixed1_age (now createdAt : Z) :
  is_time_value now = true -> is_time_value createdAt = true ->
  is_decimal1 (toFixed1 (age_seconds now createdAt)) = true.
Proof.
  unfold is_time_value, max_time_value. intros Hn Hc.
  apply Z.leb_le in Hn, Hc.
  pose proof (age_seconds_below now createdAt Hn Hc) as Hb.
  destruct (age_seconds now createdAt) as [s|s| |s m e]; cbn [below] in Hb;
    try contradiction; cbn [toFixed1].
  - destruct (fixed1_shape 0) as (i & f & -> & H1 & H2 & H3).
    now apply is_decimal1_unsigned.
  - rewrite (below_not_1e21 s m e Hb).
    destruct (fixed1_shape (nearest_tenths m e)) as (i & f & -> & H1 & H2 & H3).
    destruct s; simpl; now apply is_decimal1_unsigned.
Qed.

(** ** The calendar *)

Lemma DaysInYear_step (y : Z) : DayFromYear (y + 1) = DayFromYear y + DaysInYear y.
Proof.
  unfold DayFromYear, DaysInYear.
  assert (E1 : (y mod 100) mod 4 = y mod 4)
    by (apply Z.mod_mod_divide; now exists 25).
  assert (E2 : (y mod 400) mod 100 = y mod 100)
    by (apply Z.mod_mod_divide; now exists 4).
  destruct (y mod 4 =? 0) eqn:E4; cbn [negb];
    [destruct (y mod 100 =? 0) eqn:E100; cbn [negb];
       [destruct (y mod 400 =? 0) eqn:E400; cbn [negb]|]|];
    repeat match goal with
           | H : (_ =? _) = true |- _ => apply Z.eqb_eq in H
           | H : (_ =? _) = false |- _ => apply Z.eqb_neq in H
           end; Z.div_mod_to_equations; lia.
Qed.

Lemma YearFromTime_spec (t : Z) :
  DayFromYear (YearFromTime t) <= Day t < DayFromYear (YearFromTime t + 1).
Proof.
  unfold YearFromTime. set (d := Day t).
  set (y := 1970 + d * 400 / 146097).
  assert (Hy : DayFromYear (y - 1) <= d < DayFromYear (y + 2)).
  { unfold DayFromYear, y. Z.div_mod_to_equations. lia. }
  destruct (d <? DayFromYear y) eqn:E1.
  - apply Z.ltb_lt in E1. replace (y - 1 + 1) with y by lia. lia.
  - apply Z.ltb_ge in E1. destruct (DayFromYear (y + 1) <=? d) eqn:E2.
    + apply Z.leb_le in E2. replace (y + 1 + 1) with (y + 2) by lia. lia.
    + apply Z.leb_gt in E2. lia.
Qed.

Lemma DayWithinYear_bound (t : Z) :
  0 <= DayWithinYear t < DaysInYear (YearFromTime t).
Proof.
  unfold DayWithinYear. pose proof (YearFromTime_spec t) as Hy.
  rewrite DaysInYear_step in Hy. lia.
Qed.

Lemma DaysInYear_cases (y : Z) : DaysInYear y = 365 \/ DaysInYear y = 366.
Proof.
  unfold DaysInYear.
  destruct (y mod 4 =? 0), (y mod 100 =? 0), (y mod 400 =? 0); simpl; auto.
Qed.

Lemma MonthFromTime_bound (t : Z) : 0 <= MonthFromTime t <= 11.
Proof.
  unfold MonthFromTime.
  repeat match goal with
         | |- context [if ?b then _ else _] => destruct b
         end; lia.
Qed.

Lemma DateFromTime_bound (t : Z) : 1 <= DateFromTime t <= 31.
Proof.
  pose proof (DayWithinYear_bound t) as Hd.
  unfold DateFromTime, MonthFromTime, InLeapYear.
  destruct (DaysInYear_cases (YearFromTime t)) as [E|E]; rewrite E in *;
    simpl (_ =? _);
    repeat match goal with
           | |- context [if ?a <? ?b then _ else _] =>
               let E := fresh in destruct (Z.ltb_spec a b) as [E|E]
           end; simpl; lia.
Qed.

Lemma YearFromTime_bound (t : Z) :
  is_time_value t = true -> - 999999 <= YearFromTime t <= 999999.
Proof.
  unfold is_time_value, max_time_value. intros Ht. apply Z.leb_le in Ht.
  pose proof (YearFromTime_spec t) as Hy. rewrite DaysInYear_step in Hy.
  pose proof (DaysInYear_cases (YearFromTime t)).
  unfold DayFromYear, Day, msPerDay in Hy.
  Z.div_mod_to_equations. lia.
Qed.

(** ** ISO 8601 *)

Lemma digit_value (d : Z) : Z.of_N (digit d) - 48 = d mod 10.
Proof.
  unfold digit. pose proof (Z.mod_pos_bound d 10 ltac:(lia)). lia.
Qed.

Lemma in_range_2 (n lo hi : Z) :
  0 <= n < 100 -> lo <= n <= hi -> in_range [digit (n / 10); digit n] lo hi = true.
Proof.
  intros Hn Hr.
  assert (E : digits_value [digit (n / 10); digit n] = n).
  { unfold digits_value. cbn [fold_left]. rewrite !digit_value.
    Z.div_mod_to_equations. lia. }
  unfold in_range. rewrite E. cbn [forallb]. rewrite !is_digit_digit.
  apply andb_true_intro. split; apply Z.leb_le; lia.
Qed.

Lemma in_range_3 (n : Z) :
  0 <= n < 1000 -> in_range [digit (n / 100); digit (n / 10); digit n] 0 999 = true.
Proof.
  intros Hn.
  assert (E : digits_value [digit (n / 100); digit (n / 10); digit n] = n).
  { unfold digits_value. cbn [fold_left]. rewrite !digit_value.
    Z.div_mod_to_equations. lia. }
  unfold in_range. rewrite E. cbn [forallb]. rewrite !is_digit_digit.
  apply andb_true_intro. split; apply Z.leb_le; lia.
Qed.

Lemma is_iso_time_fields (M D h m s f : Z) :
  1 <= M <= 12 -> 1 <= D <= 31 -> 0 <= h <= 23 -> 0 <= m <= 59 -> 0 <= s <= 59 ->
  0 <= f <= 999 ->
  is_iso_time
    (lit "-" ++ zero_padded M 2 ++ lit "-" ++ zero_padded D 2 ++ lit "T" ++
     zero_padded h 2 ++ lit ":" ++ zero_padded m 2 ++ lit ":" ++
     zero_padded s 2 ++ lit "." ++ zero_padded f 3 ++ lit "Z") = true.
Proof.
  intros HM HD Hh Hm Hs Hf.
  rewrite !zero_padded_2, zero_padded_3 by lia.
  change (lit "-") with [45%N]. change (lit "T") with [84%N].
  change (lit ":") with [58%N]. change (lit ".") with [46%N].
  change (lit "Z") with [90%N].
  cbn [app is_iso_time].
  rewrite !in_range_2, in_range_3 by lia. reflexivity.
Qed.

Lemma is_iso8601_year (y : Z) (time : jsstring) :
  - 999999 <= y <= 999999 -> is_iso_time time = true ->
  is_iso8601 (iso_year y ++ time) = true.
Proof.
  intros Hy Ht. unfold iso_year.
  destruct ((0 <=? y) && (y <=? 9999)) eqn:E.
  - apply andb_prop in E. destruct E as [E1 E2].
    apply Z.leb_le in E1, E2.
    pose proof (zero_padded_width y 3 ltac:(simpl; lia)) as Hw.
    pose proof (zero_padded_digits y 4) as Hd.
    destruct (zero_padded y 4) as [|a [|b [|c [|d [|x l]]]]]; try discriminate Hw.
    simpl in Hd. unfold is_iso8601. cbn [app firstn skipn forallb].
    destruct (is_digit a); [|discriminate Hd]. now rewrite Hd, Ht.
  - pose proof (zero_padded_width (Z.abs y) 5 ltac:(simpl; lia)) as Hw.
    pose proof (zero_padded_digits (Z.abs y) 6) as Hd.
    destruct (zero_padded (Z.abs y) 6) as [|a [|b [|c [|d [|x [|z [|u l]]]]]]];
      try discriminate Hw.
    destruct (0 <? y); cbn; cbn in Hd; now rewrite Hd, Ht.
Qed.

(** The ISO string of a time value is a date and time of ISO 8601. *)
Lemma iso_string_is_iso8601 (t : Z) :
  is_time_value t = true -> is_iso8601 (iso_string t) = true.
Proof.
  intros Ht. unfold iso_string. apply is_iso8601_year.
  - now apply YearFromTime_bound.
  - pose proof (MonthFromTime_bound t). pose proof (DateFromTime_bound t).
    apply is_iso_time_fields; try lia.
    + unfold HourFromTime. pose proof (Z.mod_pos_bound (t / msPerHour) 24). lia.
    + unfold MinFromTime. pose proof (Z.mod_pos_bound (t / msPerMinute) 60). lia.
    + unfold SecFromTime. pose proof (Z.mod_pos_bound (t / msPerSecond) 60). lia.
    + unfold msFromTime, msPerSecond. pose proof (Z.mod_pos_bound t 1000). lia.
Qed.

(** ** The insertion-ordered map *)

Module JsMapFacts.
Import JsMap.

Section Facts.
Context {V : Type}.
Implicit Types (m : t V) (k : Z) (v : V).

Lemma get_set_same k v m : get k (set k v m) = Some v.
Proof.
  induction m as [|[k' v'] r IH]; simpl.
  - now rewrite Z.eqb_refl.
  - destruct (k =? k') eqn:E; simpl.
    + now rewrite Z.eqb_refl.
    + now rewrite E.
Qed.

Lemma get_set_other k k' v m : k <> k' -> get k' (set k v m) = get k' m.
Proof.
  intros Hne. induction m as [|[k0 v0] r IH]; simpl.
  - destruct (k' =? k) eqn:E; [apply Z.eqb_eq in E; congruence | reflexivity].
  - destruct (k =? k0) eqn:E; simpl.
    + apply Z.eqb_eq in E. subst k0.
      destruct (k' =? k) eqn:E'; [apply Z.eqb_eq in E'; congruence | reflexivity].
    + now rewrite IH.
Qed.

Lemma get_none_keys k m : get k m = None <-> ~ In k (keys m).
Proof.
  induction m as [|[k0 v0] r IH]; simpl.
  - tauto.
  - destruct (k =? k0) eqn:E.
    + apply Z.eqb_eq in E. subst. split; [discriminate | tauto].
    + apply Z.eqb_neq in E. rewrite IH. intuition congruence.
Qed.

Lemma has_keys k m : has k m = true <-> In k (keys m).
Proof.
  unfold has. destruct (get k m) eqn:E.
  - split; [intros _ | reflexivity].
    destruct (in_dec Z.eq_dec k (keys m)) as [Hin|Hn]; [assumption|].
    apply get_none_keys in Hn. congruence.
  - apply get_none_keys in E. split; [discriminate | tauto].
Qed.

Lemma keys_set_present k v m : In k (keys m) -> keys (set k v m) = keys m.
Proof.
  induction m as [|[k0 v0] r IH]; simpl; [tauto|].
  intros Hin. destruct (k =? k0) eqn:E; simpl.
  - apply Z.eqb_eq in E. now subst.
  - apply Z.eqb_neq in E. f_equal. apply IH. destruct Hin; congruence.
Qed.

Lemma keys_set_absent k v m : ~ In k (keys m) -> keys (set k v m) = keys m ++ [k].
Proof.
  induction m as [|[k0 v0] r IH]; simpl; [reflexivity|].
  intros Hn. destruct (k =? k0) eqn:E; simpl.
  - apply Z.eqb_eq in E. subst. tauto.
  - f_equal. apply IH. tauto.
Qed.

Lemma NoDup_set k v m : NoDup (keys m) -> NoDup (keys (set k v m)).
Proof.
  intros Hnd. destruct (in_dec Z.eq_dec k (keys m)) as [Hin|Hn].
  - now rewrite keys_set_present.
  - rewrite keys_set_absent by assumption.
    rewrite <- (rev_involutive (keys m ++ [k])). apply NoDup_rev.
    rewrite rev_app_distr. simpl. constructor; [now rewrite <- in_rev|].
    now apply NoDup_rev.
Qed.

Lemma In_keys k v m : In (k, v) m -> In k (keys m).
Proof. intros Hin. apply (in_map fst) in Hin. exact Hin. Qed.

Lemma In_set k v k' v' m :
  NoDup (keys m) ->
  In (k', v') (set k v m) <-> (k' = k /\ v' = v) \/ (k' <> k /\ In (k', v') m).
Proof.
  induction m as [|[k0 v0] r IH]; simpl; intros Hnd.
  - split.
    + intros [E|[]]. injection E as -> ->. now left.
    + intros [[-> ->]|[_ []]]. now left.
  - inversion Hnd as [|? ? Hn0 Hnd']; subst.
    destruct (k =? k0) eqn:E; simpl.
    + apply Z.eqb_eq in E. subst k0. split.
      * intros [E|Hin]; [injection E as -> ->; now left|].
        right. split; [|now right].
        intros ->. apply Hn0. eapply In_keys; eassumption.
      * intros [[-> ->]|[Hne [E|Hin]]]; [now left| |now right].
        injection E as -> ->. congruence.
    + apply Z.eqb_neq in E. rewrite (IH Hnd'). split.
      * intros [E0|[[-> ->]|[Hne Hin]]]; [|now left|right; split; [assumption|now right]].
        injection E0 as -> ->. right. split; [congruence | now left].
      * intros [[-> ->]|[Hne [E0|Hin]]]; [right; now left|now left|right; right; tauto].
Qed.

Lemma keys_delete k m : NoDup (keys m) -> forall k', In k' (keys (delete k m)) <-> k' <> k /\ In k' (keys m).
Proof.
  induction m as [|[k0 v0] r IH]; simpl; intros Hnd k'.
  - tauto.
  - inversion Hnd as [|? ? Hn0 Hnd']; subst.
    destruct (k =? k0) eqn:E; simpl.
    + apply Z.eqb_eq in E. subst k0. split.
      * intros Hin. split; [intros ->; tauto | now right].
      * intros [Hne [E|Hin]]; [congruence | assumption].
    + apply Z.eqb_neq in E. rewrite (IH Hnd' k'). split.
      * intros [->|[Hne Hin]]; [split; [congruence | now left] | split; [assumption | now right]].
      * intros [Hne [->|Hin]]; [now left | right; tauto].
Qed.

Lemma In_delete k k' v' m :
  NoDup (keys m) ->
  In (k', v') (delete k m) <-> k' <> k /\ In (k', v') m.
Proof.
  induction m as [|[k0 v0] r IH]; simpl; intros Hnd.
  - tauto.
  - inversion Hnd as [|? ? Hn0 Hnd']; subst.
    destruct (k =? k0) eqn:E; simpl.
    + apply Z.eqb_eq in E. subst k0. split.
      * intros Hin. split; [|now right].
        intros ->. apply Hn0. eapply In_keys; eassumption.
      * intros [Hne [E|Hin]]; [injection E as -> ->; congruence | assumption].
    + apply Z.eqb_neq in E. rewrite (IH Hnd'). split.
      * intros [E0|[Hne Hin]]; [injection E0 as -> ->; split; [congruence | now left]|].
        split; [assumption | now right].
      * intros [Hne [E0|Hin]]; [now left | right; tauto].
Qed.

Lemma NoDup_delete k m : NoDup (keys m) -> NoDup (keys (delete k m)).
Proof.
  induction m as [|[k0 v0] r IH]; simpl; intros Hnd; [constructor|].
  inversion Hnd as [|? ? Hn0 Hnd']; subst.
  destruct (k =? k0); simpl; [assumption|].
  constructor; [|now apply IH].
  intros Hin. apply (keys_delete k r Hnd') in Hin. tauto.
Qed.

Lemma delete_absent k m : ~ In k (keys m) -> delete k m = m.
Proof.
  induction m as [|[k0 v0] r IH]; simpl; intros Hn; [reflexivity|].
  destruct (k =? k0) eqn:E.
  - apply Z.eqb_eq in E. subst. tauto.
  - f_equal. apply IH. tauto.
Qed.

Lemma In_get k v m : NoDup (keys m) -> In (k, v) m <-> get k m = Some v.
Proof.
  induction m as [|[k0 v0] r IH]; simpl; intros Hnd.
  - split; [tauto | discriminate].
  - inversion Hnd as [|? ? Hn0 Hnd']; subst.
    destruct (k =? k0) eqn:E.
    + apply Z.eqb_eq in E. subst k0. split.
      * intros [E|Hin]; [congruence|]. exfalso. apply Hn0. eapply In_keys; eassumption.
      * intros E. left. congruence.
    + apply Z.eqb_neq in E. rewrite <- (IH Hnd'). split.
      * intros [E0|Hin]; [congruence | assumption].
      * tauto.
Qed.

Lemma size_set_present k v m : In k (keys m) -> size (set k v m) = size m.
Proof.
  intros Hin. unfold size.
  rewrite <- (length_map fst (set k v m)), <- (length_map fst m).
  change (List.length (keys (set k v m)) = List.length (keys m)).
  now rewrite keys_set_present.
Qed.

End Facts.
End JsMapFacts.

(** ** The interception layer, call by call *)

Section Interception.

Context {H : Host}.

Lemma window_setTimeout_eq fn delay args (w : World (H:=H)) :
  window_setTimeout fn delay args w =
  match native_setTimeout H fn delay args (host w) with
  | (Normal id, s) =>
      (Normal id,
       mkWorld (JsMap.set id (new_record delay s) (timeouts w)) (intervals w)
         (snd (native_stack H (snd (native_now H s))))
         (effects w ++ [CallSetTimeout fn delay args]) (pending w))
  | (Throw e, s) =>
      (Throw e,
       mkWorld (timeouts w) (intervals w) s
         (effects w ++ [CallSetTimeout fn delay args]) (pending w))
  end.
Proof.
  unfold window_setTimeout, original_setTimeout, Date_now, getStackTag, new_record,
    bind, effect, on_host_try, on_host, timeouts_set, ret; simpl.
  destruct (native_setTimeout H fn delay args (host w)) as [[id|e] s]; simpl;
    [|reflexivity].
  destruct (native_now H s) as [now s1]; simpl.
  destruct (native_stack H s1) as [st s2]; reflexivity.
Qed.

Lemma window_setInterval_eq fn delay args (w : World (H:=H)) :
  window_setInterval fn delay args w =
  match native_setInterval H fn delay args (host w) with
  | (Normal id, s) =>
      (Normal id,
       mkWorld (timeouts w) (JsMap.set id (new_record delay s) (intervals w))
         (snd (native_stack H (snd (native_now H s))))
         (effects w ++ [CallSetInterval fn delay args]) (pending w))
  | (Throw e, s) =>
      (Throw e,
       mkWorld (timeouts w) (intervals w) s
         (effects w ++ [CallSetInterval fn delay args]) (pending w))
  end.
Proof.
  unfold window_setInterval, original_setInterval, Date_now, getStackTag, new_record,
    bind, effect, on_host_try, on_host, intervals_set, ret; simpl.
  destruct (native_setInterval H fn delay args (host w)) as [[id|e] s]; simpl;
    [|reflexivity].
  destruct (native_now H s) as [now s1]; simpl.
  destruct (native_stack H s1) as [st s2]; reflexivity.
Qed.

Lemma window_clearTimeout_eq id (w : World (H:=H)) :
  window_clearTimeout id w =
  match id with
  | Some id =>
      (Normal tt,
       mkWorld (JsMap.delete id (timeouts w)) (intervals w)
         (native_clearTimeout H id (host w))
         (effects w ++ [CallClearTimeout id]) (pending w))
  | None => (Normal tt, w)
  end.
Proof. destruct id; reflexivity. Qed.

Lemma window_clearInterval_eq id (w : World (H:=H)) :
  window_clearInterval id w =
  match id with
  | Some id =>
      (Normal tt,
       mkWorld (timeouts w) (JsMap.delete id (intervals w))
         (native_clearInterval H id (host w))
         (effects w ++ [CallClearInterval id]) (pending w))
  | None => (Normal tt, w)
  end.
Proof. destruct id; reflexivity. Qed.

(** *** Computations that leave the registry alone *)

Lemma reads_only_ret {A} (a : A) : reads_only (H:=H) (ret a).
Proof. intros w. now split. Qed.

Lemma reads_only_throw {A} e : reads_only (H:=H) (throw (A:=A) e).
Proof. intros w. now split. Qed.

Lemma reads_only_lift {A} (c : Completion A) : reads_only (H:=H) (lift c).
Proof. intros w. now split. Qed.

Lemma reads_only_effect e : reads_only (H:=H) (effect e).
Proof. intros w. now split. Qed.

Lemma reads_only_on_host {A} (f : HostS H -> A * HostS H) : reads_only (H:=H) (on_host f).
Proof. intros w. unfold on_host. destruct (f (host w)). now split. Qed.

Lemma reads_only_read_host {A} (f : HostS H -> A) : reads_only (H:=H) (read_host f).
Proof. intros w. now split. Qed.

Lemma reads_only_timeouts_entries : reads_only (H:=H) timeouts_entries.
Proof. intros w. now split. Qed.

Lemma reads_only_intervals_entries : reads_only (H:=H) intervals_entries.
Proof. intros w. now split. Qed.

Lemma reads_only_bind {A B} (m : M A) (k : A -> M B) :
  reads_only (H:=H) m -> (forall a, reads_only (H:=H) (k a)) -> reads_only (H:=H) (bind m k).
Proof.
  intros Hm Hk w. unfold bind. specialize (Hm w).
  destruct (m w) as [[a|e] w1]; simpl in *.
  - destruct (Hk a w1) as [E1 E2]. destruct Hm as [E3 E4]. split; congruence.
  - exact Hm.
Qed.

Lemma reads_only_when b (m : M unit) : reads_only (H:=H) m -> reads_only (H:=H) (when b m).
Proof. intros Hm. destruct b; [exact Hm | apply reads_only_ret]. Qed.

Lemma reads_only_if {A} (b : bool) (m1 m2 : M A) :
  reads_only (H:=H) m1 -> reads_only (H:=H) m2 -> reads_only (H:=H) (if b then m1 else m2).
Proof. now destruct b. Qed.

Create HintDb registry.
#[local] Hint Resolve reads_only_ret reads_only_throw reads_only_lift reads_only_effect
  reads_only_on_host reads_only_read_host reads_only_timeouts_entries
  reads_only_intervals_entries reads_only_bind reads_only_when reads_only_if : registry.

Lemma reads_only_Date_now : reads_only (H:=H) Date_now.
Proof. apply reads_only_on_host. Qed.

Lemma reads_only_getStackTag : reads_only (H:=H) getStackTag.
Proof. unfold getStackTag. auto with registry. Qed.

Lemma reads_only_getActiveTimeouts : reads_only (H:=H) getActiveTimeouts.
Proof. apply reads_only_timeouts_entries. Qed.

Lemma reads_only_getActiveIntervals : reads_only (H:=H) getActiveIntervals.
Proof. apply reads_only_intervals_entries. Qed.

Lemma reads_only_report : reads_only (H:=H) report.
Proof.
  unfold report.
  repeat first
    [ apply reads_only_Date_now
    | apply reads_only_bind; [|intros ?]
    | apply reads_only_if
    | apply reads_only_when
    | solve [auto with registry] ].
Qed.

Lemma reads_only_clipboard_writeText text :
  reads_only (H:=H) text -> reads_only (H:=H) (clipboard_writeText text).
Proof.
  intros Ht. unfold clipboard_writeText.
  apply reads_only_bind; [auto with registry|]. intros [|]; [|auto with registry].
  apply reads_only_bind; [assumption|]. intros t.
  apply reads_only_bind; [auto with registry|]. intros _ w. now split.
Qed.

Lemma reads_only_copyReportToClipboard : reads_only (H:=H) copyReportToClipboard.
Proof.
  unfold copyReportToClipboard.
  repeat first
    [ apply reads_only_Date_now
    | apply reads_only_clipboard_writeText
    | apply reads_only_bind; [|intros ?]
    | solve [auto with registry] ].
Qed.

Lemma reads_only_clipboard_settled outcome : reads_only (H:=H) (clipboard_settled outcome).
Proof.
  destruct outcome as [|[]]; simpl; auto with registry.
Qed.

End Interception.

(** Two ways to split one list around an element. *)
Lemma app_cons_cases {A} (l0 l1 earlier later : list A) (x e : A) :
  (l0 ++ [x]) ++ l1 = earlier ++ e :: later ->
  (In e l0 /\ In x later) \/ e = x \/ In e l1.
Proof.
  rewrite <- app_assoc. simpl.
  revert l0. induction earlier as [|a earlier IH]; intros l0 E.
  - destruct l0 as [|b l0]; simpl in E.
    + injection E as <- _. right. now left.
    + injection E as <- <-. left. split; [now left|].
      apply in_or_app. right. now left.
  - destruct l0 as [|b l0]; simpl in E.
    + injection E as _ ->. right. right. apply in_or_app. right. now left.
    + injection E as _ E. destruct (IH l0 E) as [[H1 H2]|[H1|H1]].
      * left. split; [now right | assumption].
      * right. now left.
      * right. now right.
Qed.

(** ** Sessions and the registry *)

Section Sessions.

Context {H : Host}.
Implicit Types (w : World (H:=H)) (e : Event (H:=H)) (c : Call (H:=H)).
Implicit Types (history : list (Event (H:=H))) (cs : list (Call (H:=H))).

Lemma run_cons c cs w :
  run (c :: cs) w =
  (event_of c w :: fst (run cs (snd (step c w))), snd (run cs (snd (step c w)))).
Proof.
  simpl. unfold event_of. destruct (step c w) as [r w1]; simpl.
  destruct (run cs w1); reflexivity.
Qed.

Lemma run_app cs1 cs2 w :
  run (cs1 ++ cs2) w =
  (fst (run cs1 w) ++ fst (run cs2 (snd (run cs1 w))),
   snd (run cs2 (snd (run cs1 w)))).
Proof.
  revert w. induction cs1 as [|c cs1 IH]; intros w.
  - simpl. now destruct (run cs2 w).
  - rewrite <- app_comm_cons, !run_cons, IH. reflexivity.
Qed.

Section Live.

Variable registers : Z -> TimerInfo -> Event (H:=H) -> Prop.
Variable cancels : Z -> Event (H:=H) -> Prop.

Lemma live_nil h info : ~ live registers cancels [] h info.
Proof.
  intros (earlier & e & later & E & _). now destruct earlier.
Qed.

Lemma live_snoc history e h info :
  live registers cancels (history ++ [e]) h info <->
  registers h info e \/
  (live registers cancels history h info /\
   ~ cancels h e /\ forall info', ~ registers h info' e).
Proof.
  split.
  - intros (earlier & e0 & later & E & Hreg & Hlater).
    destruct later as [|x later0] using rev_ind.
    + apply (app_inj_tail history earlier e e0) in E. destruct E as [-> ->].
      now left.
    + clear IHlater0. right.
      change (earlier ++ e0 :: later0 ++ [x])
        with (earlier ++ (e0 :: later0) ++ [x]) in E.
      rewrite app_assoc in E. apply app_inj_tail in E. destruct E as [-> ->].
      split.
      * exists earlier, e0, later0. split; [reflexivity|]. split; [assumption|].
        intros e' Hin. apply Hlater. apply in_or_app. now left.
      * apply Hlater. apply in_or_app. right. now left.
  - intros [Hreg|((earlier & e0 & later & -> & Hreg & Hlater) & Hc & Hr)].
    + exists history, e, []. split; [reflexivity|]. split; [assumption|].
      intros e' [].
    + exists earlier, e0, (later ++ [e]). split.
      * now rewrite <- app_assoc.
      * split; [assumption|]. intros e' Hin. apply in_app_or in Hin.
        destruct Hin as [Hin|[<-|[]]]; [now apply Hlater | now split].
Qed.

End Live.

Lemma consistent_initial s : consistent (H:=H) [] (initial s).
Proof.
  repeat split; try constructor; simpl; try tauto;
    intros Hl; now apply live_nil in Hl.
Qed.

Ltac no_registration :=
  let fn := fresh in let d := fresh in let a := fresh in let E := fresh in
  intros (fn & d & a & E & _); simpl in E; discriminate E.

Lemma consistent_unchanged history w c :
  consistent (H:=H) history w ->
  timeouts (snd (step c w)) = timeouts w ->
  intervals (snd (step c w)) = intervals w ->
  (forall h, ~ cancels_timeout h (event_of c w)) ->
  (forall h, ~ cancels_interval h (event_of c w)) ->
  (forall h info, ~ registers_timeout h info (event_of c w)) ->
  (forall h info, ~ registers_interval h info (event_of c w)) ->
  consistent (H:=H) (history ++ [event_of c w]) (snd (step c w)).
Proof.
  intros (N1 & N2 & L1 & L2) E1 E2 C1 C2 R1 R2.
  unfold consistent. rewrite E1, E2. repeat split; try assumption.
  - intros Hin. apply live_snoc. right. apply L1 in Hin. split; [assumption|].
    split; [apply C1 | intros info'; apply R1].
  - intros Hl. apply live_snoc in Hl. destruct Hl as [Hr|[Hl _]];
      [now apply R1 in Hr | now apply L1].
  - intros Hin. apply live_snoc. right. apply L2 in Hin. split; [assumption|].
    split; [apply C2 | intros info'; apply R2].
  - intros Hl. apply live_snoc in Hl. destruct Hl as [Hr|[Hl _]];
      [now apply R2 in Hr | now apply L2].
Qed.

Lemma step_reads_only {A} (m : M A) (wrap : Completion A -> Result) w :
  reads_only (H:=H) m ->
  timeouts (snd (let (r, w') := m w in (wrap r, w'))) = timeouts w /\
  intervals (snd (let (r, w') := m w in (wrap r, w'))) = intervals w.
Proof. intros Hm. specialize (Hm w). now destruct (m w). Qed.

Lemma consistent_step history w c :
  consistent (H:=H) history w ->
  consistent (H:=H) (history ++ [event_of c w]) (snd (step c w)).
Proof.
  intros Hc. destruct c as [fn d args|id|fn d args|id| | | | |outcome|id].
  - (* setTimeout *)
    destruct Hc as (N1 & N2 & L1 & L2).
    assert (Es : step (SetTimeout fn d args) w =
                 (Handle (fst (window_setTimeout fn d args w)),
                  snd (window_setTimeout fn d args w)))
      by (simpl; now destruct (window_setTimeout fn d args w)).
    unfold consistent, event_of. rewrite Es. simpl.
    rewrite window_setTimeout_eq.
    destruct (native_setTimeout H fn d args (host w)) as [[id|err] s] eqn:En; simpl.
    + split; [now apply JsMapFacts.NoDup_set|]. split; [assumption|]. split.
      * intros h info. rewrite JsMapFacts.In_set by assumption.
        unfold live_timeout. rewrite live_snoc. rewrite <- (L1 h info).
        split.
        -- intros [[-> ->]|[Hne Hin]].
           ++ left. exists fn, d, args. simpl. rewrite En. tauto.
           ++ right. split; [assumption|]. split; [discriminate|].
              intros info' (fn' & d' & a' & _ & E & _). simpl in E. congruence.
        -- intros [(fn' & d' & a' & E1 & E2 & E3)|(Hin & _ & Hr)].
           ++ simpl in *. injection E1 as <- <- <-. injection E2 as <-.
              rewrite En in E3. now left.
           ++ right. split; [|assumption]. intros ->.
              apply (Hr (new_record d s)). exists fn, d, args. simpl.
              rewrite En. tauto.
      * intros h info. unfold live_interval. rewrite live_snoc, <- (L2 h info).
        split; [intros Hin; right; split; [assumption|]; split;
                [discriminate | intros info'; no_registration]|].
        intros [Hr|[Hin _]]; [revert Hr; no_registration | assumption].
    + split; [assumption|]. split; [assumption|]. split.
      * intros h info. unfold live_timeout. rewrite live_snoc, <- (L1 h info).
        split.
        -- intros Hin. right. split; [assumption|]. split; [discriminate|].
           intros info' (fn' & d' & a' & _ & E & _). simpl in E. discriminate E.
        -- intros [(fn' & d' & a' & _ & E & _)|[Hin _]];
             [simpl in E; discriminate E | assumption].
      * intros h info. unfold live_interval. rewrite live_snoc, <- (L2 h info).
        split; [intros Hin; right; split; [assumption|]; split;
                [discriminate | intros info'; no_registration]|].
        intros [Hr|[Hin _]]; [revert Hr; no_registration | assumption].
  - (* clearTimeout *)
    destruct id as [id|].
    + destruct Hc as (N1 & N2 & L1 & L2).
      unfold consistent, event_of. simpl. split; [now apply JsMapFacts.NoDup_delete|].
      split; [assumption|]. split.
      * intros h info. rewrite JsMapFacts.In_delete by assumption.
        unfold live_timeout. rewrite live_snoc, <- (L1 h info). split.
        -- intros [Hne Hin]. right. split; [assumption|]. split.
           ++ unfold cancels_timeout. simpl. congruence.
           ++ intros info'. no_registration.
        -- intros [Hr|(Hin & Hcn & _)]; [revert Hr; no_registration|].
           split; [|assumption]. intros ->. now apply Hcn.
      * intros h info. unfold live_interval. rewrite live_snoc, <- (L2 h info).
        split; [intros Hin; right; split; [assumption|]; split;
                [discriminate | intros info'; no_registration]|].
        intros [Hr|[Hin _]]; [revert Hr; no_registration | assumption].
    + apply consistent_unchanged; try assumption; try reflexivity;
        try (intros; discriminate); intros; no_registration.
  - (* setInterval *)
    destruct Hc as (N1 & N2 & L1 & L2).
    assert (Es : step (SetInterval fn d args) w =
                 (Handle (fst (window_setInterval fn d args w)),
                  snd (window_setInterval fn d args w)))
      by (simpl; now destruct (window_setInterval fn d args w)).
    unfold consistent, event_of. rewrite Es. simpl.
    rewrite window_setInterval_eq.
    destruct (native_setInterval H fn d args (host w)) as [[id|err] s] eqn:En; simpl.
    + split; [assumption|]. split; [now apply JsMapFacts.NoDup_set|]. split.
      * intros h info. unfold live_timeout. rewrite live_snoc, <- (L1 h info).
        split; [intros Hin; right; split; [assumption|]; split;
                [discriminate | intros info'; no_registration]|].
        intros [Hr|[Hin _]]; [revert Hr; no_registration | assumption].
      * intros h info. rewrite JsMapFacts.In_set by assumption.
        unfold live_interval. rewrite live_snoc. rewrite <- (L2 h info).
        split.
        -- intros [[-> ->]|[Hne Hin]].
           ++ left. exists fn, d, args. simpl. rewrite En. tauto.
           ++ right. split; [assumption|]. split; [discriminate|].
              intros info' (fn' & d' & a' & _ & E & _). simpl in E. congruence.
        -- intros [(fn' & d' & a' & E1 & E2 & E3)|(Hin & _ & Hr)].
           ++ simpl in *. injection E1 as <- <- <-. injection E2 as <-.
              rewrite En in E3. now left.
           ++ right. split; [|assumption]. intros ->.
              apply (Hr (new_record d s)). exists fn, d, args. simpl.
              rewrite En. tauto.
    + split; [assumption|]. split; [assumption|]. split.
      * intros h info. unfold live_timeout. rewrite live_snoc, <- (L1 h info).
        split; [intros Hin; right; split; [assumption|]; split;
                [discriminate | intros info'; no_registration]|].
        intros [Hr|[Hin _]]; [revert Hr; no_registration | assumption].
      * intros h info. unfold live_interval. rewrite live_snoc, <- (L2 h info).
        split.
        -- intros Hin. right. split; [assumption|]. split; [discriminate|].
           intros info' (fn' & d' & a' & _ & E & _). simpl in E. discriminate E.
        -- intros [(fn' & d' & a' & _ & E & _)|[Hin _]];
             [simpl in E; discriminate E | assumption].
  - (* clearInterval *)
    destruct id as [id|].
    + destruct Hc as (N1 & N2 & L1 & L2).
      unfold consistent, event_of. simpl. split; [assumption|].
      split; [now apply JsMapFacts.NoDup_delete|]. split.
      * intros h info. unfold live_timeout. rewrite live_snoc, <- (L1 h info).
        split; [intros Hin; right; split; [assumption|]; split;
                [discriminate | intros info'; no_registration]|].
        intros [Hr|[Hin _]]; [revert Hr; no_registration | assumption].
      * intros h info. rewrite JsMapFacts.In_delete by assumption.
        unfold live_interval. rewrite live_snoc, <- (L2 h info). split.
        -- intros [Hne Hin]. right. split; [assumption|]. split.
           ++ unfold cancels_interval. simpl. congruence.
           ++ intros info'. no_registration.
        -- intros [Hr|(Hin & Hcn & _)]; [revert Hr; no_registration|].
           split; [|assumption]. intros ->. now apply Hcn.
    + apply consistent_unchanged; try assumption; try reflexivity;
        try (intros; discriminate); intros; no_registration.
  - apply consistent_unchanged; try assumption; try reflexivity;
      try (intros; discriminate); intros; no_registration.
  - apply consistent_unchanged; try assumption; try reflexivity;
      try (intros; discriminate); intros; no_registration.
  - apply consistent_unchanged; try assumption;
      try (intros; discriminate); try (intros; no_registration);
      apply (step_reads_only report Done w reads_only_report).
  - apply consistent_unchanged; try assumption;
      try (intros; discriminate); try (intros; no_registration);
      apply (step_reads_only copyReportToClipboard Done w
               reads_only_copyReportToClipboard).
  - apply consistent_unchanged; try assumption;
      try (intros; discriminate); try (intros; no_registration);
      simpl; destruct (pending w); try reflexivity;
      apply (step_reads_only (clipboard_settled outcome) Done
               (mkWorld (timeouts w) (intervals w) (host w) (effects w) n)
               (reads_only_clipboard_settled outcome)).
  - apply consistent_unchanged; try assumption; try reflexivity;
      try (intros; discriminate); intros; no_registration.
Qed.

Lemma consistent_run cs history w :
  consistent (H:=H) history w ->
  consistent (H:=H) (history ++ fst (run cs w)) (snd (run cs w)).
Proof.
  revert history w. induction cs as [|c cs IH]; intros history w Hc.
  - simpl. now rewrite app_nil_r.
  - rewrite run_cons. simpl.
    change (event_of c w :: fst (run cs (snd (step c w))))
      with ([event_of c w] ++ fst (run cs (snd (step c w)))).
    rewrite app_assoc. apply IH. now apply consistent_step.
Qed.

Lemma consistent_session cs s :
  consistent (H:=H) (fst (run cs (initial s))) (snd (run cs (initial s))).
Proof. apply (consistent_run cs [] (initial s)), consistent_initial. Qed.

End Sessions.

(** ** The registry over a session *)

Section Registry.

Context {H : Host}.

(** C1.  After every session of calls, [getActiveTimeouts()] returns, one
    entry per handle, exactly the timeout handles that a call of the wrapped
    [setTimeout] returned and that no later call of the wrapped
    [clearTimeout] was given, each with the record its (latest)
    registration wrote; [getActiveIntervals()] does the same for intervals.
    Nothing else, a timer firing included, takes an entry out. *)
Theorem active_timers_are_the_live_registrations (s : HostS H) (cs : list Call) :
  let (history, w) := run cs (initial s) in
  (exists snapshot,
     getActiveTimeouts w = (Normal snapshot, w) /\
     NoDup (map fst snapshot) /\
     forall h info, In (h, info) snapshot <-> live_timeout history h info) /\
  (exists snapshot,
     getActiveIntervals w = (Normal snapshot, w) /\
     NoDup (map fst snapshot) /\
     forall h info, In (h, info) snapshot <-> live_interval history h info).
Proof.
  pose proof (consistent_session cs s) as (N1 & N2 & L1 & L2).
  destruct (run cs (initial s)) as [history w]. simpl in *.
  split; [exists (timeouts w) | exists (intervals w)]; repeat split;
    try assumption; try apply L1; try apply L2.
Qed.

(** C2, as amended.  A call of the wrapped [clearTimeout] with [h] returns
    normally, and through every continuation of the session in which no
    registration returns [h] again, the snapshots of [getActiveTimeouts()]
    do not contain [h]; with a handle that is not in the registry it leaves
    both maps as they were, and with [undefined] it leaves the whole world
    as it was.  The same holds of [clearInterval] and the intervals. *)
Theorem cancel_removes_until_registered_again :
  (forall (s : HostS H) cs0 h cs1,
     let w0 := snd (run cs0 (initial s)) in
     fst (window_clearTimeout (Some h) w0) = Normal tt /\
     let w1 := snd (window_clearTimeout (Some h) w0) in
     ((forall e info, In e (fst (run cs1 w1)) -> ~ registers_timeout h info e) ->
      forall snapshot,
        fst (getActiveTimeouts (snd (run cs1 w1))) = Normal snapshot ->
        ~ In h (map fst snapshot))) /\
  (forall (s : HostS H) cs0 h cs1,
     let w0 := snd (run cs0 (initial s)) in
     fst (window_clearInterval (Some h) w0) = Normal tt /\
     let w1 := snd (window_clearInterval (Some h) w0) in
     ((forall e info, In e (fst (run cs1 w1)) -> ~ registers_interval h info e) ->
      forall snapshot,
        fst (getActiveIntervals (snd (run cs1 w1))) = Normal snapshot ->
        ~ In h (map fst snapshot))) /\
  (forall (w : World (H:=H)) h,
     ~ In h (JsMap.keys (timeouts w)) ->
     fst (window_clearTimeout (Some h) w) = Normal tt /\
     timeouts (snd (window_clearTimeout (Some h) w)) = timeouts w /\
     intervals (snd (window_clearTimeout (Some h) w)) = intervals w) /\
  (forall (w : World (H:=H)) h,
     ~ In h (JsMap.keys (intervals w)) ->
     fst (window_clearInterval (Some h) w) = Normal tt /\
     timeouts (snd (window_clearInterval (Some h) w)) = timeouts w /\
     intervals (snd (window_clearInterval (Some h) w)) = intervals w) /\
  (forall w : World (H:=H),
     window_clearTimeout None w = (Normal tt, w) /\
     window_clearInterval None w = (Normal tt, w)).
Proof.
  split; [|split; [|split; [|split; [|split; reflexivity]]]].
  - intros s cs0 h cs1 w0. split; [reflexivity|]. intros w1 Hnone snapshot E.
    injection E as <-. intros Hin.
    apply in_map_iff in Hin. destruct Hin as ([h' info] & Eh & Hin).
    simpl in Eh. subst h'.
    pose proof (consistent_session cs0 s) as Hc0. fold w0 in Hc0.
    apply (consistent_step _ _ (ClearTimeout (Some h))) in Hc0.
    apply (consistent_run cs1) in Hc0.
    change (snd (step (ClearTimeout (Some h)) w0)) with w1 in Hc0.
    destruct Hc0 as (_ & _ & L1 & _). apply L1 in Hin.
    destruct Hin as (earlier & e & later & E & Hreg & Hlater).
    apply app_cons_cases in E.
    destruct E as [[_ Hl]|[->|Hl]].
    + apply Hlater in Hl. destruct Hl as [Hl _]. now apply Hl.
    + destruct Hreg as (fn & d & a & Ec & _). discriminate Ec.
    + now apply (Hnone e info).
  - intros s cs0 h cs1 w0. split; [reflexivity|]. intros w1 Hnone snapshot E.
    injection E as <-. intros Hin.
    apply in_map_iff in Hin. destruct Hin as ([h' info] & Eh & Hin).
    simpl in Eh. subst h'.
    pose proof (consistent_session cs0 s) as Hc0. fold w0 in Hc0.
    apply (consistent_step _ _ (ClearInterval (Some h))) in Hc0.
    apply (consistent_run cs1) in Hc0.
    change (snd (step (ClearInterval (Some h)) w0)) with w1 in Hc0.
    destruct Hc0 as (_ & _ & _ & L2). apply L2 in Hin.
    destruct Hin as (earlier & e & later & E & Hreg & Hlater).
    apply app_cons_cases in E.
    destruct E as [[_ Hl]|[->|Hl]].
    + apply Hlater in Hl. destruct Hl as [Hl _]. now apply Hl.
    + destruct Hreg as (fn & d & a & Ec & _). discriminate Ec.
    + now apply (Hnone e info).
  - intros w h Hn. rewrite window_clearTimeout_eq. simpl.
    now rewrite JsMapFacts.delete_absent.
  - intros w h Hn. rewrite window_clearInterval_eq. simpl.
    now rewrite JsMapFacts.delete_absent.
Qed.

End Registry.

(** ** One registration *)

Section Registration.

Context {H : Host}.

(** C3.  When the native registration throws, the wrapper throws the same
    exception and both maps are as they were; and a wrapper that throws has
    been thrown at by the native function, so a record is only written once
    a handle has been obtained. *)
Theorem registration_failure_writes_nothing :
  (forall fn delay args (w : World (H:=H)) e s,
     native_setTimeout H fn delay args (host w) = (Throw e, s) ->
     fst (window_setTimeout fn delay args w) = Throw e /\
     timeouts (snd (window_setTimeout fn delay args w)) = timeouts w /\
     intervals (snd (window_setTimeout fn delay args w)) = intervals w) /\
  (forall fn delay args (w : World (H:=H)) e s,
     native_setInterval H fn delay args (host w) = (Throw e, s) ->
     fst (window_setInterval fn delay args w) = Throw e /\
     timeouts (snd (window_setInterval fn delay args w)) = timeouts w /\
     intervals (snd (window_setInterval fn delay args w)) = intervals w) /\
  (forall fn delay args (w : World (H:=H)) e,
     fst (window_setTimeout fn delay args w) = Throw e ->
     fst (native_setTimeout H fn delay args (host w)) = Throw e) /\
  (forall fn delay args (w : World (H:=H)) e,
     fst (window_setInterval fn delay args w) = Throw e ->
     fst (native_setInterval H fn delay args (host w)) = Throw e).
Proof.
  split; [|split; [|split]].
  - intros fn delay args w e s En. rewrite window_setTimeout_eq, En. now repeat split.
  - intros fn delay args w e s En. rewrite window_setInterval_eq, En. now repeat split.
  - intros fn delay args w e. rewrite window_setTimeout_eq.
    now destruct (native_setTimeout H fn delay args (host w)) as [[id|e'] s].
  - intros fn delay args w e. rewrite window_setInterval_eq.
    now destruct (native_setInterval H fn delay args (host w)) as [[id|e'] s].
Qed.

(** C4, as amended.  The wrapped [setTimeout] calls the original once, with
    the callback, the delay and the trailing arguments it was given, and
    when that returns the handle [id] it returns [id] and has written, under
    [id] in the timeouts, the record of the time the clock shows next, of
    the delay given if that is truthy and of 0 if it is undefined, 0 or NaN,
    and of the tag of the stack captured after that; no other key of the
    map changes and the intervals are untouched.  The wrapped [setInterval]
    does the same on the intervals. *)
Theorem registration_writes_the_record :
  (forall fn delay args (w : World (H:=H)) id s,
     native_setTimeout H fn delay args (host w) = (Normal id, s) ->
     let (r, w') := window_setTimeout fn delay args w in
     r = Normal id /\
     effects w' = effects w ++ [CallSetTimeout fn delay args] /\
     JsMap.get id (timeouts w') =
       Some (mkTimerInfo
               (fst (native_now H s))
               (match delay with
                | Some n => if truthy n then n else Int 0
                | None => Int 0
                end)
               (stack_tag (fst (native_stack H (snd (native_now H s)))))) /\
     (forall k, k <> id -> JsMap.get k (timeouts w') = JsMap.get k (timeouts w)) /\
     intervals w' = intervals w) /\
  (forall fn delay args (w : World (H:=H)) id s,
     native_setInterval H fn delay args (host w) = (Normal id, s) ->
     let (r, w') := window_setInterval fn delay args w in
     r = Normal id /\
     effects w' = effects w ++ [CallSetInterval fn delay args] /\
     JsMap.get id (intervals w') =
       Some (mkTimerInfo
               (fst (native_now H s))
               (match delay with
                | Some n => if truthy n then n else Int 0
                | None => Int 0
                end)
               (stack_tag (fst (native_stack H (snd (native_now H s)))))) /\
     (forall k, k <> id -> JsMap.get k (intervals w') = JsMap.get k (intervals w)) /\
     timeouts w' = timeouts w).
Proof.
  split; intros fn delay args w id s En.
  - rewrite window_setTimeout_eq, En. simpl.
    rewrite JsMapFacts.get_set_same. unfold new_record.
    destruct (native_now H s) as [now s1]. simpl. repeat split.
    intros k Hk. now apply JsMapFacts.get_set_other.
  - rewrite window_setInterval_eq, En. simpl.
    rewrite JsMapFacts.get_set_same. unfold new_record.
    destruct (native_now H s) as [now s1]. simpl. repeat split.
    intros k Hk. now apply JsMapFacts.get_set_other.
Qed.

(** C10.  In every world a session reaches, each map holds a handle at most
    once.  In every world whatever, a registration that returns a handle the
    map already holds replaces the record under it by the new one, where it
    stands: the handle then maps to the record of this registration, the
    keys of the map, their order and its size are as before, and a map that
    held each handle once still does.  This holds of the wrapped
    [setTimeout] and the timeouts and of the wrapped [setInterval] and the
    intervals. *)
Theorem reused_handle_overwrites :
  (forall (s0 : HostS H) (cs : list Call),
     let w := snd (run cs (initial s0)) in
     NoDup (JsMap.keys (timeouts w)) /\ NoDup (JsMap.keys (intervals w))) /\
  (forall (w : World (H:=H)) fn delay args id s,
     native_setTimeout H fn delay args (host w) = (Normal id, s) ->
     JsMap.has id (timeouts w) = true ->
     let w' := snd (window_setTimeout fn delay args w) in
     JsMap.get id (timeouts w') = Some (new_record delay s) /\
     JsMap.keys (timeouts w') = JsMap.keys (timeouts w) /\
     JsMap.size (timeouts w') = JsMap.size (timeouts w) /\
     (NoDup (JsMap.keys (timeouts w)) -> NoDup (JsMap.keys (timeouts w')))) /\
  (forall (w : World (H:=H)) fn delay args id s,
     native_setInterval H fn delay args (host w) = (Normal id, s) ->
     JsMap.has id (intervals w) = true ->
     let w' := snd (window_setInterval fn delay args w) in
     JsMap.get id (intervals w') = Some (new_record delay s) /\
     JsMap.keys (intervals w') = JsMap.keys (intervals w) /\
     JsMap.size (intervals w') = JsMap.size (intervals w) /\
     (NoDup (JsMap.keys (intervals w)) -> NoDup (JsMap.keys (intervals w')))).
Proof.
  split; [|split].
  - intros s0 cs w. destruct (consistent_session cs s0) as (N1 & N2 & _ & _).
    now split.
  - intros w fn delay args id s En Hhas w'. subst w'.
    apply JsMapFacts.has_keys in Hhas.
    rewrite window_setTimeout_eq, En. simpl.
    rewrite JsMapFacts.get_set_same, JsMapFacts.keys_set_present,
      JsMapFacts.size_set_present by assumption.
    now repeat split.
  - intros w fn delay args id s En Hhas w'. subst w'.
    apply JsMapFacts.has_keys in Hhas.
    rewrite window_setInterval_eq, En. simpl.
    rewrite JsMapFacts.get_set_same, JsMapFacts.keys_set_present,
      JsMapFacts.size_set_present by assumption.
    now repeat split.
Qed.

(** C9.  The four operations of [TIMER_TRACKER] leave both maps as they
    were, entry for entry and in order; the two listings return the entries
    of the maps. *)
Theorem facade_leaves_the_registry (w : World (H:=H)) :
  getActiveTimeouts w = (Normal (JsMap.entries (timeouts w)), w) /\
  getActiveIntervals w = (Normal (JsMap.entries (intervals w)), w) /\
  (timeouts (snd (report w)) = timeouts w /\
   intervals (snd (report w)) = intervals w) /\
  (timeouts (snd (copyReportToClipboard w)) = timeouts w /\
   intervals (snd (copyReportToClipboard w)) = intervals w).
Proof.
  split; [reflexivity|]. split; [reflexivity|].
  split; [apply reads_only_report | apply reads_only_copyReportToClipboard].
Qed.

End Registration.

(** ** The origin tagger *)

Section Tagger.

Context {H : Host}.

(** C8, as amended.  The tag is a function of the stack captured at the
    call: the trimmed text of the fourth line of it (index 3 from the top)
    when that line is there and is not blank, and the string "unknown" when
    the stack is unavailable, has no fourth line, or has a blank one.
    Taking the tag changes nothing but the host's state. *)
Theorem origin_tag_is_the_fourth_line :
  (forall w : World (H:=H),
     getStackTag w =
     (Normal (stack_tag (fst (native_stack H (host w)))),
      mkWorld (timeouts w) (intervals w) (snd (native_stack H (host w)))
        (effects w) (pending w))) /\
  stack_tag None = lit "unknown" /\
  (forall text,
     nth_error (split 10 text) 3 = None -> stack_tag (Some text) = lit "unknown") /\
  (forall text frame,
     nth_error (split 10 text) 3 = Some frame ->
     trim frame <> [] -> stack_tag (Some text) = trim frame) /\
  (forall text frame,
     nth_error (split 10 text) 3 = Some frame ->
     trim frame = [] -> stack_tag (Some text) = lit "unknown").
Proof.
  split; [|split; [reflexivity|split; [|split]]].
  - intros w. unfold getStackTag, bind, on_host, ret.
    now destruct (native_stack H (host w)).
  - intros text E. unfold stack_tag. now rewrite E.
  - intros text frame E Hne. unfold stack_tag. rewrite E. simpl.
    now destruct (trim frame).
  - intros text frame E Hblank. unfold stack_tag. rewrite E. simpl.
    now rewrite Hblank.
Qed.

End Tagger.

(** ** The clipboard snapshot *)

Section Clipboard.

Context {H : Host}.

Lemma new_record_timely delay (s : HostS H) :
  is_time_value (createdAt (new_record delay s)) = true.
Proof.
  unfold new_record. pose proof (native_now_time_value H s) as Ht.
  now destruct (native_now H s).
Qed.

(** Every record of a session was created at a time value. *)
Lemma session_timely (s : HostS H) (cs : list Call) :
  timely (timeouts (snd (run cs (initial s)))) /\
  timely (intervals (snd (run cs (initial s)))).
Proof.
  destruct (consistent_session cs s) as (_ & _ & L1 & L2).
  split; apply Forall_forall; intros [h info] Hin; simpl.
  - apply L1 in Hin. destruct Hin as (_ & e & _ & _ & (fn & d & a & _ & _ & ->) & _).
    apply new_record_timely.
  - apply L2 in Hin. destruct Hin as (_ & e & _ & _ & (fn & d & a & _ & _ & ->) & _).
    apply new_record_timely.
Qed.

Lemma map_try_snapshot (now : Z) (m : JsMap.t TimerInfo) :
  is_time_value now = true -> timely m ->
  exists items,
    map_try (snapshot_entry now) m = Normal items /\
    Forall2 (snapshot_of now) m items.
Proof.
  intros Hnow Hm. induction Hm as [|[id info] m Ht _ IH].
  - exists []. now split.
  - destruct IH as (items & E & Hall). simpl in Ht.
    eexists. simpl. unfold toISOString. rewrite Ht, E. split; [reflexivity|].
    constructor; [|assumption]. split; [reflexivity|]. simpl. split.
    + now apply iso_string_is_iso8601.
    + now apply toFixed1_age.
Qed.

Lemma copyReportToClipboard_eq (w : World (H:=H)) :
  copyReportToClipboard w =
  let (now, s1) := native_now H (host w) in
  let (time, s2) := native_now H s1 in
  match map_try (snapshot_entry now) (timeouts w) with
  | Throw e => (Throw e, mkWorld (timeouts w) (intervals w) s2 (effects w) (pending w))
  | Normal timeout_items =>
      match map_try (snapshot_entry now) (intervals w) with
      | Throw e =>
          (Throw e, mkWorld (timeouts w) (intervals w) s2 (effects w) (pending w))
      | Normal interval_items =>
          if navigator_clipboard H s2 then
            (Normal tt,
             mkWorld (timeouts w) (intervals w) s2
               (effects w ++
                [ClipboardWriteText
                   (JSON_stringify H
                      (JObject
                         [(lit "time", JString (toLocaleTimeString H time));
                          (lit "timeouts", JArray timeout_items);
                          (lit "intervals", JArray interval_items)]))])
               (S (pending w)))
          else
            (Throw (TypeError
                      (lit "Cannot read properties of undefined (reading 'writeText')")),
             mkWorld (timeouts w) (intervals w) s2 (effects w) (pending w))
      end
  end.
Proof.
  unfold copyReportToClipboard, clipboard_writeText, Date_now, bind, on_host,
    timeouts_entries, intervals_entries, JsMap.entries, lift, read_host, effect,
    ret, throw.
  destruct (native_now H (host w)) as [now s1]. simpl.
  destruct (native_now H s1) as [time s2]. simpl.
  destruct (map_try (snapshot_entry now) (timeouts w)); [|reflexivity]. simpl.
  destruct (map_try (snapshot_entry now) (intervals w)); [|reflexivity]. simpl.
  destruct (navigator_clipboard H s2); reflexivity.
Qed.

(** C6.  In every world a session reaches, where [navigator.clipboard] is
    defined [copyReportToClipboard()] returns, and it has written to the
    clipboard, once, the JSON text of an object with the time and two
    arrays, [timeouts] and [intervals], that have as many entries as the two
    maps at the call, one per entry and in their order, each an object with
    the fields [id], [delay], [created] (the ISO 8601 string of the creation
    time), [ageSeconds] (the age in seconds as a numeral with one digit
    after the point) and [origin].  Where [navigator.clipboard] is not
    defined it throws and has written nothing. *)
Theorem clipboard_snapshot_lists_the_registry (s : HostS H) (cs : list Call) :
  let w := snd (run cs (initial s)) in
  let now := fst (native_now H (host w)) in
  let time := fst (native_now H (snd (native_now H (host w)))) in
  let s2 := snd (native_now H (snd (native_now H (host w)))) in
  (navigator_clipboard H s2 = true ->
   fst (copyReportToClipboard w) = Normal tt /\
   exists timeout_items interval_items,
     effects (snd (copyReportToClipboard w)) =
       effects w ++
       [ClipboardWriteText
          (JSON_stringify H
             (JObject
                [(lit "time", JString (toLocaleTimeString H time));
                 (lit "timeouts", JArray timeout_items);
                 (lit "intervals", JArray interval_items)]))] /\
     List.length timeout_items = JsMap.size (timeouts w) /\
     List.length interval_items = JsMap.size (intervals w) /\
     Forall2 (snapshot_of now) (JsMap.entries (timeouts w)) timeout_items /\
     Forall2 (snapshot_of now) (JsMap.entries (intervals w)) interval_items) /\
  (navigator_clipboard H s2 = false ->
   fst (copyReportToClipboard w) =
     Throw (TypeError (lit "Cannot read properties of undefined (reading 'writeText')")) /\
   effects (snd (copyReportToClipboard w)) = effects w).
Proof.
  intros w now time s2. destruct (session_timely s cs) as [T1 T2]. fold w in T1, T2.
  assert (Hnow : is_time_value now = true) by apply native_now_time_value.
  destruct (map_try_snapshot now (timeouts w) Hnow T1) as (ti & E1 & F1).
  destruct (map_try_snapshot now (intervals w) Hnow T2) as (ii & E2 & F2).
  rewrite copyReportToClipboard_eq. subst now time s2.
  destruct (native_now H (host w)) as [now s1]. cbn [fst snd] in *.
  destruct (native_now H s1) as [time s2]. cbn [fst snd]. rewrite E1, E2.
  split; intros Hclip; rewrite Hclip; cbn [fst snd effects].
  - split; [reflexivity|]. exists ti, ii. split; [reflexivity|].
    split; [symmetry; apply (Forall2_length F1)|].
    split; [symmetry; apply (Forall2_length F2)|]. now split.
  - now split.
Qed.

(** Where [navigator.clipboard] is defined, [copyReportToClipboard()]
    returns; where it is not, it throws. *)
Lemma copyReportToClipboard_returns_with_clipboard (s : HostS H) (cs : list Call) :
  let w := snd (run cs (initial s)) in
  let s2 := snd (native_now H (snd (native_now H (host w)))) in
  fst (copyReportToClipboard w) =
  if navigator_clipboard H s2 then Normal tt
  else Throw (TypeError (lit "Cannot read properties of undefined (reading 'writeText')")).
Proof.
  intros w s2. destruct (session_timely s cs) as [T1 T2]. fold w in T1, T2.
  assert (Hnow : is_time_value (fst (native_now H (host w))) = true)
    by apply native_now_time_value.
  destruct (map_try_snapshot _ (timeouts w) Hnow T1) as (ti & E1 & F1).
  destruct (map_try_snapshot _ (intervals w) Hnow T2) as (ii & E2 & F2).
  rewrite copyReportToClipboard_eq. subst s2.
  destruct (native_now H (host w)) as [now s1]. simpl in *.
  destruct (native_now H s1) as [time s2]. rewrite E1, E2. simpl.
  now destruct (navigator_clipboard H s2).
Qed.

(** The reactions to the promise of [writeText]: a notice when it is
    fulfilled, the warning about permission when it is rejected with a
    [NotAllowedError], the general warning with the error otherwise; none
    of them throws. *)
Lemma clipboard_settled_reports (w : World (H:=H)) :
  clipboard_settled Fulfilled w =
    (Normal tt,
     mkWorld (timeouts w) (intervals w) (host w)
       (effects w ++ [ConsoleInfo copied_notice]) (pending w)) /\
  clipboard_settled (Rejected (DOMException (lit "NotAllowedError"))) w =
    (Normal tt,
     mkWorld (timeouts w) (intervals w) (host w)
       (effects w ++ [ConsoleWarn denied_warning None]) (pending w)) /\
  forall err,
    err <> DOMException (lit "NotAllowedError") ->
    clipboard_settled (Rejected err) w =
      (Normal tt,
       mkWorld (timeouts w) (intervals w) (host w)
         (effects w ++ [ConsoleWarn failed_warning (Some err)]) (pending w)).
Proof.
  split; [reflexivity|]. split; [reflexivity|].
  intros err Hne. destruct err as [m|m|name|m]; try reflexivity.
  unfold clipboard_settled, jsstring_eqb.
  destruct (jsstring_eq_dec name (lit "NotAllowedError")) as [->|_];
    [congruence | reflexivity].
Qed.

End Clipboard.

(** ** The table of duplicate origins *)

Lemma jsstring_eqb_eq (a b : jsstring) : jsstring_eqb a b = true <-> a = b.
Proof.
  unfold jsstring_eqb. destruct (jsstring_eq_dec a b); split; congruence.
Qed.

Lemma jsstring_eqb_refl (a : jsstring) : jsstring_eqb a a = true.
Proof. now apply jsstring_eqb_eq. Qed.

Lemma jsstring_eqb_neq (a b : jsstring) : jsstring_eqb a b = false <-> a <> b.
Proof.
  unfold jsstring_eqb. destruct (jsstring_eq_dec a b); split; congruence.
Qed.

Lemma own_none (key : jsstring) (m : OriginMap) :
  own key m = None <-> ~ In key (map fst m).
Proof.
  induction m as [|[k v] r IH]; simpl; [tauto|].
  destruct (jsstring_eqb key k) eqn:E.
  - apply jsstring_eqb_eq in E. subst. split; [discriminate | tauto].
  - apply jsstring_eqb_neq in E. rewrite IH. intuition congruence.
Qed.

Lemma own_In (key : jsstring) (info : OriginInfo) (m : OriginMap) :
  NoDup (map fst m) -> In (key, info) m <-> own key m = Some info.
Proof.
  induction m as [|[k v] r IH]; simpl; intros Hnd.
  - split; [tauto | discriminate].
  - inversion Hnd as [|? ? Hn Hnd']; subst.
    destruct (jsstring_eqb key k) eqn:E.
    + apply jsstring_eqb_eq in E. subst k. split.
      * intros [E|Hin]; [congruence|]. exfalso. apply Hn.
        apply (in_map fst) in Hin. exact Hin.
      * intros E. left. congruence.
    + apply jsstring_eqb_neq in E. rewrite <- (IH Hnd'). split.
      * intros [E0|Hin]; [congruence | assumption].
      * tauto.
Qed.

Lemma own_create_spec (key origin : jsstring) (info : OriginInfo) (m : OriginMap) :
  own key (own_create origin info m) =
  match own key m with
  | Some x => Some x
  | None => if jsstring_eqb key origin then Some info else None
  end.
Proof.
  unfold own_create. induction m as [|[k v] r IH]; simpl; [reflexivity|].
  now destruct (jsstring_eqb key k).
Qed.

Lemma own_update_spec (key origin : jsstring) f (m : OriginMap) :
  own key (own_update origin f m) =
  if jsstring_eqb key origin then option_map f (own origin m) else own key m.
Proof.
  induction m as [|[k v] r IH]; simpl.
  - now destruct (jsstring_eqb key origin).
  - destruct (jsstring_eqb origin k) eqn:E; simpl.
    + apply jsstring_eqb_eq in E. subst k.
      destruct (jsstring_eqb key origin) eqn:E'; [reflexivity|reflexivity].
    + rewrite IH. destruct (jsstring_eqb key origin) eqn:E'; [|reflexivity].
      apply jsstring_eqb_eq in E'. subst key. now rewrite E.
Qed.

Lemma own_update_keys (origin : jsstring) f (m : OriginMap) :
  map fst (own_update origin f m) = map fst m.
Proof.
  induction m as [|[k v] r IH]; simpl; [reflexivity|].
  destruct (jsstring_eqb origin k); simpl; congruence.
Qed.

Lemma bearing_app origin l1 l2 :
  bearing origin (l1 ++ l2) = bearing origin l1 ++ bearing origin l2.
Proof. unfold bearing. now rewrite filter_app, map_app. Qed.

Lemma count_origin_tally seen m id info :
  tally seen m ->
  ~ In (stack info) Object_prototype_keys ->
  exists m', count_origin m (id, info) = Normal m' /\ tally (seen ++ [(id, info)]) m'.
Proof.
  intros [Hnd Hown] Hplain. unfold count_origin, originMap_get.
  assert (Hproto : existsb (jsstring_eqb (stack info)) Object_prototype_keys = false).
  { destruct (existsb _ _) eqn:E; [|reflexivity].
    apply existsb_exists in E. destruct E as (k & Hk & E).
    apply jsstring_eqb_eq in E. now subst. }
  set (origin := stack info) in *.
  set (f := fun o => mkOriginInfo (count o + 1) (ids o ++ [id])).
  assert (Hb : forall key,
             bearing key (seen ++ [(id, info)]) =
             bearing key seen ++ (if jsstring_eqb key origin then [id] else [])).
  { intros key. rewrite bearing_app. unfold bearing at 2. simpl.
    fold origin. unfold jsstring_eqb.
    destruct (jsstring_eq_dec origin key), (jsstring_eq_dec key origin);
      try reflexivity; congruence. }
  destruct (own origin m) as [o|] eqn:Eo.
  - rewrite Eo. eexists. split; [reflexivity|]. split.
    + now rewrite own_update_keys.
    + intros key. rewrite own_update_spec, Hb, Eo.
      destruct (jsstring_eqb key origin) eqn:E.
      * apply jsstring_eqb_eq in E. subst key. rewrite Hown in Eo.
        destruct (bearing origin seen) as [|i l] eqn:Eb; [discriminate|].
        injection Eo as <-. simpl. rewrite length_app. simpl.
        first [reflexivity | do 2 f_equal; lia].
      * rewrite app_nil_r. apply Hown.
  - rewrite Hproto. rewrite own_create_spec, Eo, jsstring_eqb_refl.
    eexists. split; [reflexivity|]. split.
    + rewrite own_update_keys. unfold own_create. rewrite map_app. simpl.
      apply own_none in Eo.
      rewrite <- (rev_involutive (map fst m ++ [origin])). apply NoDup_rev.
      rewrite rev_app_distr. simpl. constructor; [now rewrite <- in_rev|].
      now apply NoDup_rev.
    + intros key. rewrite own_update_spec, own_create_spec, Hb, Eo.
      rewrite jsstring_eqb_refl.
      destruct (jsstring_eqb key origin) eqn:E.
      * apply jsstring_eqb_eq in E. subst key. rewrite Hown in Eo.
        destruct (bearing origin seen) as [|i l] eqn:Eb; [|discriminate].
        reflexivity.
      * rewrite own_create_spec, E, app_nil_r, Hown.
        now destruct (bearing key seen).
Qed.

Lemma count_origins_tally entries seen m :
  tally seen m ->
  (forall e, In e entries -> ~ In (stack (snd e)) Object_prototype_keys) ->
  exists m', count_origins m entries = Normal m' /\ tally (seen ++ entries) m'.
Proof.
  revert seen m. induction entries as [|[id info] rest IH]; intros seen m Ht Hplain.
  - exists m. rewrite app_nil_r. now split.
  - destruct (count_origin_tally seen m id info Ht) as (m1 & E1 & Ht1).
    { apply (Hplain (id, info)). now left. }
    destruct (IH (seen ++ [(id, info)]) m1 Ht1) as (m2 & E2 & Ht2).
    { intros e He. apply Hplain. now right. }
    exists m2. cbn [count_origins]. rewrite E1. split; [exact E2|].
    now rewrite <- app_assoc in Ht2.
Qed.

(** *** [Object.entries] lists the own properties *)

Lemma insert_by_index_perm {A} (x : Z * A) (l : list (Z * A)) :
  Permutation (insert_by_index x l) (x :: l).
Proof.
  induction l as [|y r IH]; simpl; [reflexivity|].
  destruct (fst x <? fst y); [reflexivity|].
  rewrite IH. apply perm_swap.
Qed.

Lemma sort_by_index_perm {A} (l : list (Z * A)) :
  Permutation (fold_right insert_by_index [] l) l.
Proof.
  induction l as [|x r IH]; simpl; [reflexivity|].
  rewrite insert_by_index_perm. now constructor.
Qed.

Lemma Object_entries_perm {A} (o : list (jsstring * A)) :
  Permutation (Object_entries o) o.
Proof.
  unfold Object_entries. rewrite sort_by_index_perm.
  induction o as [|e r IH]; simpl; [reflexivity|].
  unfold indexed at 1, named at 1.
  destruct (array_index (fst e)); simpl.
  - now constructor.
  - symmetry. apply Permutation_cons_app. symmetry. exact IH.
Qed.

Lemma filter_keeps_keys_distinct {K V} (keep : K * V -> bool) (o : list (K * V)) :
  NoDup (map fst o) -> NoDup (map fst (filter keep o)).
Proof.
  intros Hnd. induction o as [|e r IH]; simpl; [constructor|].
  inversion Hnd as [|? ? Hn Hnd']; subst.
  destruct (keep e); simpl; [|now apply IH].
  constructor; [|now apply IH].
  intros Hin. apply Hn. apply in_map_iff in Hin.
  destruct Hin as (x & E & Hx). apply filter_In in Hx.
  apply in_map_iff. exists x. tauto.
Qed.

(** On entries none of whose origins is the name of a property of
    [Object.prototype], the loop over the entries completes and the table
    of duplicates has, for every origin that two or more entries bear, one
    row with the origin, the number of those entries and their handles
    joined by ", " in the order of the entries; and it has no other row. *)
Lemma duplicates_of_plain_origins (entries : list (Z * TimerInfo)) :
  (forall e, In e entries -> ~ In (stack (snd e)) Object_prototype_keys) ->
  exists m,
    count_origins [] entries = Normal m /\
    NoDup (map d_origin (duplicates_of m)) /\
    forall row,
      In row (duplicates_of m) <->
      exists origin,
        (1 < List.length (bearing origin entries))%nat /\
        row = duplicate_row origin entries.
Proof.
  intros Hplain.
  destruct (count_origins_tally entries [] []) as (m & E & Hnd & Hown);
    [split; [constructor | reflexivity] | assumption |].
  simpl in Hnd, Hown. exists m. split; [exact E|].
  pose proof (Object_entries_perm m) as Hperm.
  assert (Hnd' : NoDup (map fst (Object_entries m))).
  { apply (Permutation_NoDup (l:=map fst m)); [|assumption].
    symmetry. now apply Permutation_map. }
  unfold duplicates_of. split.
  - rewrite map_map. simpl. now apply filter_keeps_keys_distinct.
  - intros row. rewrite in_map_iff. split.
    + intros ([origin info] & <- & Hin). apply filter_In in Hin.
      destruct Hin as [Hin Hbig]. simpl in *.
      apply (Permutation_in _ Hperm) in Hin.
      apply (own_In _ _ _ Hnd) in Hin. rewrite Hown in Hin.
      destruct (bearing origin entries) as [|i l] eqn:Eb; [discriminate|].
      injection Hin as <-. simpl in Hbig. apply Nat.ltb_lt in Hbig.
      exists origin. unfold duplicate_row. rewrite Eb. simpl. split; [lia|reflexivity].
    + intros (origin & Hbig & ->).
      exists (origin, mkOriginInfo (List.length (bearing origin entries))
                        (bearing origin entries)).
      split; [reflexivity|]. apply filter_In. split.
      * apply (Permutation_in _ (Permutation_sym Hperm)).
        apply (own_In _ _ _ Hnd). rewrite Hown.
        destruct (bearing origin entries); [simpl in Hbig; lia | reflexivity].
      * simpl. now apply Nat.ltb_lt.
Qed.

(** *** What [report()] prints *)

Section Report.

Context {H : Host}.

Lemma report_eq (w : World (H:=H)) :
  report w =
  let (now, s1) := native_now H (host w) in
  let (time, s2) := native_now H s1 in
  let opened :=
    effects w ++ [ConsoleGroupCollapsed (report_header (toLocaleTimeString H time))] in
  let tables :=
    table_section (lit "Timeouts") now (timeouts w) ++
    table_section (lit "Intervals") now (intervals w) in
  if negb (nonempty (timeouts w)) && negb (nonempty (intervals w)) then
    (Normal tt,
     mkWorld (timeouts w) (intervals w) s2
       (opened ++ [ConsoleInfo no_timers_notice; ConsoleGroupEnd]) (pending w))
  else
    match count_origins [] (timeouts w ++ intervals w) with
    | Normal m =>
        (Normal tt,
         mkWorld (timeouts w) (intervals w) s2
           (opened ++ tables ++ duplicates_section m ++ [ConsoleGroupEnd])
           (pending w))
    | Throw e =>
        (Throw e,
         mkWorld (timeouts w) (intervals w) s2 (opened ++ tables) (pending w))
    end.
Proof.
  unfold report, Date_now, bind, on_host, timeouts_entries, intervals_entries,
    JsMap.entries, lift, effect, ret, when, table_section, duplicates_section.
  destruct (native_now H (host w)) as [now s1]. simpl.
  destruct (native_now H s1) as [time s2]. simpl.
  destruct (nonempty (timeouts w)) eqn:E1, (nonempty (intervals w)) eqn:E2; simpl;
    destruct (count_origins [] (timeouts w ++ intervals w)) as [m|e]; simpl;
    try destruct (nonempty (duplicates_of m)); simpl;
    repeat rewrite <- app_assoc; reflexivity.
Qed.

(** With timers none of whose origins is the name of a property of
    [Object.prototype], [report()] returns, and after the tables of the
    timeouts and the intervals it prints the section of duplicates: the
    table with one row for every origin that two or more of the timeouts
    and intervals together bear, and no section when there is no such
    origin. *)
Lemma report_prints_the_duplicates (w : World (H:=H)) :
  let entries := timeouts w ++ intervals w in
  let now := fst (native_now H (host w)) in
  let time := fst (native_now H (snd (native_now H (host w)))) in
  entries <> [] ->
  (forall e, In e entries -> ~ In (stack (snd e)) Object_prototype_keys) ->
  exists rows,
    fst (report w) = Normal tt /\
    effects (snd (report w)) =
      effects w ++
      [ConsoleGroupCollapsed (report_header (toLocaleTimeString H time))] ++
      table_section (lit "Timeouts") now (timeouts w) ++
      table_section (lit "Intervals") now (intervals w) ++
      (if nonempty rows then
         [ConsoleGroup duplicates_label; ConsoleTableDuplicates rows; ConsoleGroupEnd]
       else []) ++ [ConsoleGroupEnd] /\
    NoDup (map d_origin rows) /\
    forall row,
      In row rows <->
      exists origin,
        (1 < List.length (bearing origin entries))%nat /\
        row = duplicate_row origin entries.
Proof.
  intros entries now time Hne Hplain.
  destruct (duplicates_of_plain_origins entries Hplain) as (m & E & Hnd & Hrows).
  exists (duplicates_of m). rewrite report_eq. subst now time.
  destruct (native_now H (host w)) as [now s1]. cbn [fst snd].
  destruct (native_now H s1) as [time s2]. cbn [fst snd]. cbv zeta.
  assert (Hsome : negb (nonempty (timeouts w)) && negb (nonempty (intervals w)) = false).
  { subst entries. destruct (timeouts w), (intervals w); try reflexivity.
    now contradiction Hne. }
  rewrite Hsome. fold entries. rewrite E. cbn [fst snd effects].
  split; [reflexivity|]. split; [|now split].
  unfold duplicates_section. now repeat rewrite <- app_assoc.
Qed.

(** With no timer at all, [report()] prints the notice and no table. *)
Lemma report_of_nothing (w : World (H:=H)) :
  timeouts w = [] -> intervals w = [] ->
  fst (report w) = Normal tt /\
  effects (snd (report w)) =
    effects w ++
    [ConsoleGroupCollapsed
       (report_header
          (toLocaleTimeString H (fst (native_now H (snd (native_now H (host w)))))));
     ConsoleInfo no_timers_notice; ConsoleGroupEnd].
Proof.
  intros E1 E2. rewrite report_eq, E1, E2.
  destruct (native_now H (host w)) as [now s1]. cbn [fst snd].
  destruct (native_now H s1) as [time s2]. simpl.
  split; [reflexivity|]. now rewrite <- app_assoc.
Qed.

End Report.

(** * Further properties *)

(** ** Records of a session *)

Lemma trimStart_fixed (s : jsstring) :
  match s with
  | c :: _ => is_whitespace c = false
  | [] => True
  end -> trimStart s = s.
Proof. destruct s as [|c r]; simpl; [reflexivity|]. now intros ->. Qed.

(** Trimming a trimmed string changes nothing. *)
Lemma trim_trim (s : jsstring) : trim (trim s) = trim s.
Proof.
  destruct (trim_spec s) as (before & after & _ & _ & _ & Hhead & Hlast).
  set (t := trim s) in *. unfold trim at 1, trimEnd.
  rewrite (trimStart_fixed t Hhead), (trimStart_fixed (rev t) Hlast).
  apply rev_involutive.
Qed.

(** The tag is never the empty string, has no white space at its ends and
    holds no line feed. *)
Lemma stack_tag_shape (err_stack : option jsstring) :
  stack_tag err_stack <> [] /\
  trim (stack_tag err_stack) = stack_tag err_stack /\
  ~ In 10%N (stack_tag err_stack).
Proof.
  assert (Hunknown : lit "unknown" <> [] /\ trim (lit "unknown") = lit "unknown" /\
                     ~ In 10%N (lit "unknown")).
  { split; [discriminate|]. split; [reflexivity|].
    simpl. intros Hin. repeat (destruct Hin as [Hin|Hin]; [discriminate Hin|]).
    exact Hin. }
  unfold stack_tag.
  destruct err_stack as [text|]; [|exact Hunknown].
  destruct (nth_error (split 10 text) 3) as [frame|] eqn:E; [|exact Hunknown].
  simpl. destruct (trim frame) as [|c t] eqn:Et; [exact Hunknown|].
  rewrite <- Et. split; [rewrite Et; discriminate|]. split; [apply trim_trim|].
  intros Hin. apply nth_error_In in E. apply (split_pieces _ _ _ E).
  destruct (trim_spec frame) as (before & after & Ef & _).
  rewrite Ef. apply in_or_app. right. apply in_or_app. now left.
Qed.

Lemma or_zero_not_NaN (delay : option number) : or_zero delay <> NaN.
Proof.
  destruct delay as [[z|]|]; simpl; try discriminate.
  destruct (negb (z =? 0)); discriminate.
Qed.

Section Records.

Context {H : Host}.

Lemma new_record_well_formed delay (s : HostS H) : well_formed (new_record delay s).
Proof.
  unfold well_formed, new_record.
  pose proof (native_now_time_value H s) as Ht.
  destruct (native_now H s) as [now s1]. simpl in *.
  split; [exact Ht|]. split; [apply or_zero_not_NaN|]. apply stack_tag_shape.
Qed.

(** X1.  In every world a session reaches, every record of the two maps was
    created at a time value (so its date is valid), holds a delay that is
    not NaN, and is tagged with a text that is not empty, has no white space
    at its ends and holds no line feed. *)
Theorem records_are_well_formed (s : HostS H) (cs : list Call) :
  let w := snd (run cs (initial s)) in
  Forall (fun entry => well_formed (snd entry)) (timeouts w ++ intervals w).
Proof.
  intros w. destruct (consistent_session cs s) as (_ & _ & L1 & L2). fold w in L1, L2.
  apply Forall_forall. intros [h info] Hin. simpl.
  apply in_app_or in Hin. destruct Hin as [Hin|Hin].
  - apply L1 in Hin. destruct Hin as (_ & e & _ & _ & (fn & d & a & _ & _ & ->) & _).
    apply new_record_well_formed.
  - apply L2 in Hin. destruct Hin as (_ & e & _ & _ & (fn & d & a & _ & _ & ->) & _).
    apply new_record_well_formed.
Qed.

End Records.

(** ** The order of the listings *)

Lemma set_absent {V} (k : Z) (v : V) (m : JsMap.t V) :
  ~ In k (JsMap.keys m) -> JsMap.set k v m = m ++ [(k, v)].
Proof.
  induction m as [|[k' v'] r IH]; simpl; intros Hn; [reflexivity|].
  destruct (k =? k') eqn:E.
  - apply Z.eqb_eq in E. subst. tauto.
  - rewrite IH; tauto.
Qed.

Lemma delete_filter {V} (k : Z) (m : JsMap.t V) :
  NoDup (JsMap.keys m) ->
  JsMap.delete k m = filter (fun entry => negb (fst entry =? k)) m.
Proof.
  induction m as [|[k' v'] r IH]; simpl; intros Hnd; [reflexivity|].
  inversion Hnd as [|? ? Hn Hnd']; subst.
  rewrite (Z.eqb_sym k' k). destruct (k =? k') eqn:E; simpl.
  - apply Z.eqb_eq in E. subst k'. rewrite <- (IH Hnd').
    symmetry. now apply JsMapFacts.delete_absent.
  - now rewrite IH.
Qed.

Section Order.

Context {H : Host}.

(** X2.  The listings are in the order of registration.  In every world a
    session reaches, a registration that returns a handle the map does not
    hold puts its entry after all the others, and a cancellation takes the
    entry of its handle out and leaves the others in their order. *)
Theorem listing_is_in_registration_order (s0 : HostS H) (cs : list Call) :
  let w := snd (run cs (initial s0)) in
  (forall fn delay args id s,
     native_setTimeout H fn delay args (host w) = (Normal id, s) ->
     JsMap.has id (timeouts w) = false ->
     fst (getActiveTimeouts (snd (window_setTimeout fn delay args w))) =
       Normal (timeouts w ++ [(id, new_record delay s)])) /\
  (forall fn delay args id s,
     native_setInterval H fn delay args (host w) = (Normal id, s) ->
     JsMap.has id (intervals w) = false ->
     fst (getActiveIntervals (snd (window_setInterval fn delay args w))) =
       Normal (intervals w ++ [(id, new_record delay s)])) /\
  (forall h,
     fst (getActiveTimeouts (snd (window_clearTimeout (Some h) w))) =
       Normal (filter (fun entry => negb (fst entry =? h)) (timeouts w))) /\
  (forall h,
     fst (getActiveIntervals (snd (window_clearInterval (Some h) w))) =
       Normal (filter (fun entry => negb (fst entry =? h)) (intervals w))).
Proof.
  intros w. destruct (consistent_session cs s0) as (N1 & N2 & _ & _).
  fold w in N1, N2.
  assert (Habsent : forall id (m : JsMap.t TimerInfo),
             JsMap.has id m = false -> ~ In id (JsMap.keys m)).
  { intros id m E Hin. apply JsMapFacts.has_keys in Hin. congruence. }
  split; [|split; [|split]].
  - intros fn delay args id s En Hhas. rewrite window_setTimeout_eq, En. simpl.
    unfold JsMap.entries. now rewrite set_absent by now apply Habsent.
  - intros fn delay args id s En Hhas. rewrite window_setInterval_eq, En. simpl.
    unfold JsMap.entries. now rewrite set_absent by now apply Habsent.
  - intros h. rewrite window_clearTimeout_eq. simpl. unfold JsMap.entries.
    now rewrite delete_filter.
  - intros h. rewrite window_clearInterval_eq. simpl. unfold JsMap.entries.
    now rewrite delete_filter.
Qed.

End Order.

(** ** The native calls of a session *)

Section Forwarding.

Context {H : Host}.

Lemma native_calls_of_report (w : World (H:=H)) :
  filter is_native_call (effects (snd (report w))) = filter is_native_call (effects w).
Proof.
  rewrite report_eq.
  destruct (native_now H (host w)) as [now s1].
  destruct (native_now H s1) as [time s2]. cbv zeta.
  unfold table_section, duplicates_section.
  destruct (negb (nonempty (timeouts w)) && negb (nonempty (intervals w))).
  - cbn [snd effects]. rewrite !filter_app. simpl. now rewrite !app_nil_r.
  - destruct (count_origins [] (timeouts w ++ intervals w)) as [m|e];
      cbn [snd effects]; rewrite !filter_app;
      destruct (nonempty (timeouts w)), (nonempty (intervals w));
      try destruct (nonempty (duplicates_of m)); simpl; now rewrite !app_nil_r.
Qed.

Lemma native_calls_of_copyReportToClipboard (w : World (H:=H)) :
  filter is_native_call (effects (snd (copyReportToClipboard w))) =
  filter is_native_call (effects w).
Proof.
  rewrite copyReportToClipboard_eq.
  destruct (native_now H (host w)) as [now s1].
  destruct (native_now H s1) as [time s2].
  destruct (map_try (snapshot_entry now) (timeouts w)); [|reflexivity].
  destruct (map_try (snapshot_entry now) (intervals w)); [|reflexivity].
  destruct (navigator_clipboard H s2); [|reflexivity].
  cbn [snd effects]. rewrite filter_app. simpl. now rewrite app_nil_r.
Qed.

Lemma native_calls_of_clipboard_settled outcome (w : World (H:=H)) :
  filter is_native_call (effects (snd (clipboard_settled outcome w))) =
  filter is_native_call (effects w).
Proof.
  unfold clipboard_settled, effect.
  destruct outcome as [|[m|m|name|m]]; try destruct (jsstring_eqb name _);
    cbn [snd effects]; rewrite filter_app; simpl; now rewrite app_nil_r.
Qed.

Lemma native_calls_of_step (c : Call) (w : World (H:=H)) :
  filter is_native_call (effects (snd (step c w))) =
  filter is_native_call (effects w) ++ forwarded c.
Proof.
  destruct c as [fn d a|[id|]|fn d a|[id|]| | | | |outcome|id]; simpl.
  - rewrite window_setTimeout_eq.
    destruct (native_setTimeout H fn d a (host w)) as [[id|e] s];
      cbn [snd effects]; now rewrite filter_app.
  - cbn [snd effects]. now rewrite filter_app.
  - now rewrite app_nil_r.
  - rewrite window_setInterval_eq.
    destruct (native_setInterval H fn d a (host w)) as [[id|e] s];
      cbn [snd effects]; now rewrite filter_app.
  - cbn [snd effects]. now rewrite filter_app.
  - now rewrite app_nil_r.
  - now rewrite app_nil_r.
  - now rewrite app_nil_r.
  - rewrite app_nil_r. pose proof (native_calls_of_report w) as E.
    now destruct (report w).
  - rewrite app_nil_r. pose proof (native_calls_of_copyReportToClipboard w) as E.
    now destruct (copyReportToClipboard w).
  - rewrite app_nil_r. destruct (pending w) as [|n]; [reflexivity|].
    pose proof (native_calls_of_clipboard_settled outcome
                  (mkWorld (timeouts w) (intervals w) (host w) (effects w) n)) as E.
    now destruct (clipboard_settled outcome _).
  - now rewrite app_nil_r.
Qed.

(** X3.  Over a session the module calls the native timer functions once
    for each call of a wrapper, with the arguments the wrapper was given and
    in the order of the calls, a registration that throws and a cancellation
    of a handle that is not in the registry included; it makes no native
    call for a cancellation of [undefined], and the operations of
    [TIMER_TRACKER] make none of their own. *)
Theorem native_calls_are_the_calls_of_the_page (s : HostS H) (cs : list Call) :
  filter is_native_call (effects (snd (run cs (initial s)))) = flat_map forwarded cs.
Proof.
  change (flat_map forwarded cs)
    with (filter is_native_call (effects (initial s)) ++ flat_map forwarded cs).
  generalize (initial s). induction cs as [|c cs IH]; intros w.
  - simpl. now rewrite app_nil_r.
  - rewrite run_cons. cbn [snd flat_map]. rewrite IH, native_calls_of_step.
    now rewrite app_assoc.
Qed.

End Forwarding.

Section Silence.

Context {H : Host}.

Lemma effects_of_silent_step (c : Call) (w : World (H:=H)) :
  is_silent c = true -> effects (snd (step c w)) = effects w ++ forwarded c.
Proof.
  destruct c as [fn d a|[id|]|fn d a|[id|]| | | | |outcome|id]; try discriminate;
    intros _; simpl; try (now rewrite app_nil_r); try reflexivity.
  - rewrite window_setTimeout_eq.
    now destruct (native_setTimeout H fn d a (host w)) as [[id|e] s].
  - rewrite window_setInterval_eq.
    now destruct (native_setInterval H fn d a (host w)) as [[id|e] s].
Qed.

(** X4.  The wrappers and the two listings are silent.  Over a session made
    of registrations, cancellations, listings and timers firing, the module
    writes nothing on the console and nothing to the clipboard: all it does
    to the host is to forward the calls of the page to the native timer
    functions. *)
Theorem wrappers_and_listings_are_silent (s : HostS H) (cs : list Call) :
  forallb is_silent cs = true ->
  effects (snd (run cs (initial s))) = flat_map forwarded cs.
Proof.
  change (flat_map forwarded cs) with (effects (initial s) ++ flat_map forwarded cs).
  generalize (initial s). induction cs as [|c cs IH]; intros w Hs.
  - simpl. now rewrite app_nil_r.
  - cbn [forallb] in Hs. apply andb_prop in Hs. destruct Hs as [Hc Hs].
    rewrite run_cons. cbn [snd flat_map].
    rewrite (IH _ Hs), (effects_of_silent_step c w Hc). now rewrite app_assoc.
Qed.

End Silence.

(** ** The completion and the output of [report()] *)

Lemma inherited_Object_prototype (key : jsstring) :
  existsb (jsstring_eqb key) Object_prototype_keys = true <->
  In key Object_prototype_keys.
Proof.
  rewrite existsb_exists. split.
  - intros (k & Hk & E). apply jsstring_eqb_eq in E. now subst.
  - intros Hin. exists key. split; [assumption | apply jsstring_eqb_refl].
Qed.

(** From an object whose own keys are not names of [Object.prototype], the
    loop over the entries completes when no origin is such a name, and
    throws the [TypeError] of the first entry whose origin is one. *)
Lemma count_origins_completion (entries : list (Z * TimerInfo)) (m : OriginMap) :
  (forall key, In key (map fst m) -> ~ In key Object_prototype_keys) ->
  match count_origins m entries with
  | Normal _ =>
      forall entry, In entry entries -> ~ In (stack (snd entry)) Object_prototype_keys
  | Throw e =>
      e = TypeError (lit "Cannot read properties of undefined (reading 'push')") /\
      exists entry, In entry entries /\ In (stack (snd entry)) Object_prototype_keys
  end.
Proof.
  revert m. induction entries as [|[id info] rest IH]; intros m Hplain.
  - simpl. tauto.
  - cbn [count_origins]. unfold count_origin, originMap_get.
    set (origin := stack info).
    destruct (own origin m) as [o|] eqn:Eo.
    + rewrite Eo.
      assert (Horigin : ~ In origin Object_prototype_keys).
      { apply Hplain. destruct (in_dec jsstring_eq_dec origin (map fst m)) as [Hin|Hn];
          [assumption|]. apply own_none in Hn. congruence. }
      specialize (IH (own_update origin
                        (fun o => mkOriginInfo (count o + 1) (ids o ++ [id])) m)).
      rewrite own_update_keys in IH. specialize (IH Hplain).
      destruct (count_origins _ rest) as [m'|e].
      * intros entry [<-|Hin]; [exact Horigin | now apply IH].
      * destruct IH as (-> & entry & Hin & He). split; [reflexivity|].
        exists entry. split; [now right | assumption].
    + destruct (existsb (jsstring_eqb origin) Object_prototype_keys) eqn:Ep.
      * rewrite Eo. split; [reflexivity|]. exists (id, info).
        split; [now left|]. now apply inherited_Object_prototype.
      * assert (Horigin : ~ In origin Object_prototype_keys).
        { intros Hin. apply inherited_Object_prototype in Hin. congruence. }
        rewrite own_create_spec, Eo, jsstring_eqb_refl.
        specialize (IH (own_update origin
                          (fun o => mkOriginInfo (count o + 1) (ids o ++ [id]))
                          (own_create origin (mkOriginInfo 0 []) m))).
        rewrite own_update_keys in IH. unfold own_create in IH at 1.
        rewrite map_app in IH. simpl in IH.
        assert (Hplain' : forall key, In key (map fst m ++ [origin]) ->
                                      ~ In key Object_prototype_keys).
        { intros key Hin. apply in_app_or in Hin.
          destruct Hin as [Hin|[<-|[]]]; [now apply Hplain | exact Horigin]. }
        specialize (IH Hplain').
        destruct (count_origins _ rest) as [m'|e].
        -- intros entry [<-|Hin]; [exact Horigin | now apply IH].
        -- destruct IH as (-> & entry & Hin & He). split; [reflexivity|].
           exists entry. split; [now right | assumption].
Qed.

Section ReportOutput.

Context {H : Host}.

Ltac no_notice :=
  let Hin := fresh in
  intros Hin; exfalso; cbn [In app] in Hin;
  repeat (destruct Hin as [Hin|Hin]; [discriminate Hin|]); exact Hin.

(** X5.  [report()] returns exactly when no timeout and no interval of the
    registry has the name of a property of [Object.prototype] for its
    origin; with such an origin it throws, and what it throws is the
    [TypeError] of the read of [ids] on the inherited value. *)
Theorem report_returns_iff_no_origin_is_inherited (w : World (H:=H)) :
  (fst (report w) = Normal tt <->
   forall entry, In entry (timeouts w ++ intervals w) ->
                 ~ In (stack (snd entry)) Object_prototype_keys) /\
  (forall e, fst (report w) = Throw e ->
             e = TypeError (lit "Cannot read properties of undefined (reading 'push')")).
Proof.
  rewrite report_eq.
  destruct (native_now H (host w)) as [now s1].
  destruct (native_now H s1) as [time s2]. cbv zeta.
  destruct (negb (nonempty (timeouts w)) && negb (nonempty (intervals w))) eqn:Eempty.
  - cbn [fst]. split; [|discriminate]. split; [|reflexivity]. intros _.
    destruct (timeouts w), (intervals w); try discriminate Eempty. intros entry [].
  - pose proof (count_origins_completion (timeouts w ++ intervals w) []) as Hc.
    destruct (count_origins [] (timeouts w ++ intervals w)) as [m|e]; cbn [fst].
    + split; [|discriminate]. split; [|reflexivity]. intros _. apply Hc. intros key [].
    + destruct Hc as (-> & entry & Hin & He); [intros key []|].
      split; [|now intros e [= <-]]. split; [discriminate|].
      intros Hplain. now apply (Hplain entry) in He.
Qed.

(** X6.  The console groups of [report()] are balanced when it returns:
    every group it opens it closes, and it closes no other.  When it throws
    it leaves one group open, the collapsed group of the report. *)
Theorem report_balances_its_groups (w : World (H:=H)) :
  exists printed,
    effects (snd (report w)) = effects w ++ printed /\
    nesting printed 0 =
      Some (match fst (report w) with
            | Normal _ => 0%nat
            | Throw _ => 1%nat
            end).
Proof.
  rewrite report_eq.
  destruct (native_now H (host w)) as [now s1].
  destruct (native_now H s1) as [time s2]. cbv zeta.
  unfold table_section, duplicates_section.
  destruct (negb (nonempty (timeouts w)) && negb (nonempty (intervals w))).
  - eexists. cbn [fst snd effects]. rewrite <- app_assoc. split; reflexivity.
  - destruct (count_origins [] (timeouts w ++ intervals w)) as [m|e];
      eexists; cbn [fst snd effects]; rewrite <- app_assoc;
      (split; [reflexivity|]);
      destruct (nonempty (timeouts w)), (nonempty (intervals w));
      try destruct (nonempty (duplicates_of m)); reflexivity.
Qed.

(** X7.  [report()] prints the notice that there are no active timers
    exactly when both maps are empty; it then returns, and prints nothing
    but the collapsed group with the time in its label, the notice and the
    end of the group. *)
Theorem report_notice_iff_registry_is_empty (w : World (H:=H)) :
  exists printed,
    effects (snd (report w)) = effects w ++ printed /\
    (In (ConsoleInfo no_timers_notice) printed <->
     timeouts w = [] /\ intervals w = []) /\
    (In (ConsoleInfo no_timers_notice) printed ->
     fst (report w) = Normal tt /\
     exists time,
       printed = [ConsoleGroupCollapsed (report_header time);
                  ConsoleInfo no_timers_notice; ConsoleGroupEnd]).
Proof.
  rewrite report_eq.
  destruct (native_now H (host w)) as [now s1].
  destruct (native_now H s1) as [time s2]. cbv zeta.
  unfold table_section, duplicates_section.
  destruct (timeouts w) as [|t ts] eqn:Et, (intervals w) as [|i ivs] eqn:Ei;
    cbn [nonempty negb andb].
  - eexists. cbn [fst snd effects]. rewrite <- app_assoc. split; [reflexivity|].
    split; [split; [tauto | intros _; simpl; tauto]|].
    intros _. split; [reflexivity|]. now exists (toLocaleTimeString H time).
  - destruct (count_origins [] ([] ++ i :: ivs)) as [m|e];
      eexists; cbn [fst snd effects]; rewrite <- app_assoc;
      (split; [reflexivity|]); try destruct (nonempty (duplicates_of m));
      (split; [split; [no_notice | intros [_ [=]]] | no_notice]).
  - destruct (count_origins [] ((t :: ts) ++ [])) as [m|e];
      eexists; cbn [fst snd effects]; rewrite <- app_assoc;
      (split; [reflexivity|]); try destruct (nonempty (duplicates_of m));
      (split; [split; [no_notice | intros [[=] _]] | no_notice]).
  - destruct (count_origins [] ((t :: ts) ++ i :: ivs)) as [m|e];
      eexists; cbn [fst snd effects]; rewrite <- app_assoc;
      (split; [reflexivity|]); try destruct (nonempty (duplicates_of m));
      (split; [split; [no_notice | intros [[=] _]] | no_notice]).
Qed.

End ReportOutput.

Section ReportTables.

Context {H : Host}.

Lemma report_rows (now : Z) (m : JsMap.t TimerInfo) :
  is_time_value now = true -> timely m ->
  Forall2 (row_of (H:=H) now) m (map (report_row (H:=H) now) m).
Proof.
  intros Hnow Hm. induction Hm as [|[id info] m Ht _ IH]; simpl; constructor;
    [|exact IH].
  simpl in Ht. repeat split. now apply toFixed1_age.
Qed.

(** X8.  In every world a session reaches, [report()] prints one table for
    the timeouts when there is one, then one for the intervals when there is
    one, and no other table of timers, also when it throws afterwards.  The
    rows of a table are the entries of the map, one for one and in their
    order: each has the handle, the delay and the origin of its entry, the
    creation time in the locale's notation, and for its age a numeral with
    one digit after the point followed by the letter s. *)
Theorem report_tables_list_the_registry (s : HostS H) (cs : list Call) :
  let w := snd (run cs (initial s)) in
  let now := fst (native_now H (host w)) in
  exists printed timeout_rows interval_rows,
    effects (snd (report w)) = effects w ++ printed /\
    tables printed =
      (if nonempty (timeouts w) then [timeout_rows] else []) ++
      (if nonempty (intervals w) then [interval_rows] else []) /\
    Forall2 (row_of (H:=H) now) (timeouts w) timeout_rows /\
    Forall2 (row_of (H:=H) now) (intervals w) interval_rows.
Proof.
  intros w now. destruct (session_timely s cs) as [T1 T2]. fold w in T1, T2.
  assert (Hnow : is_time_value now = true) by apply native_now_time_value.
  pose proof (report_rows now _ Hnow T1) as R1.
  pose proof (report_rows now _ Hnow T2) as R2.
  exists (skipn (List.length (effects w)) (effects (snd (report w)))),
    (map (report_row (H:=H) now) (timeouts w)),
    (map (report_row (H:=H) now) (intervals w)).
  split; [|split; [|now split]]; clear R1 R2; rewrite report_eq; subst now;
    destruct (native_now H (host w)) as [now s1]; cbn [fst] in *;
    destruct (native_now H s1) as [time s2]; cbv zeta;
    unfold table_section, duplicates_section;
    destruct (nonempty (timeouts w)) eqn:E1, (nonempty (intervals w)) eqn:E2;
    cbn [negb andb];
    try destruct (count_origins [] (timeouts w ++ intervals w)) as [m|e];
    cbn [snd effects]; rewrite <- ?app_assoc, skipn_app, skipn_all, Nat.sub_diag;
    try destruct (nonempty (duplicates_of m)); reflexivity.
Qed.

End ReportTables.

(** ** The clipboard promise *)

Section Settlement.

Context {H : Host}.

(** X9.  When the promise of [writeText] settles, the module answers with
    one line on the console and does nothing else; the reaction does not
    throw.  The line is the notice of the copy exactly when the promise is
    fulfilled, the warning about the permission exactly when it is rejected
    with a [DOMException] named [NotAllowedError], and for every other
    rejection the general warning, which carries the reason. *)
Theorem settlement_is_answered_with_one_line (outcome : PromiseOutcome)
  (w : World (H:=H)) :
  exists line,
    clipboard_settled outcome w =
      (Normal tt,
       mkWorld (timeouts w) (intervals w) (host w) (effects w ++ [line]) (pending w)) /\
    (line = ConsoleInfo copied_notice <-> outcome = Fulfilled) /\
    (line = ConsoleWarn denied_warning None <->
     outcome = Rejected (DOMException (lit "NotAllowedError"))) /\
    (forall err,
       outcome = Rejected err -> err <> DOMException (lit "NotAllowedError") ->
       line = ConsoleWarn failed_warning (Some err)).
Proof.
  destruct outcome as [|err].
  - eexists. split; [reflexivity|]. split; [tauto|]. split; [|discriminate].
    split; discriminate.
  - unfold clipboard_settled.
    destruct err as [m|m|name|m];
      try (eexists; split; [reflexivity|]; split; [split; discriminate|];
           split; [split; discriminate|]; now intros ? [= <-]).
    destruct (jsstring_eqb name (lit "NotAllowedError")) eqn:E.
    + apply jsstring_eqb_eq in E. subst name. eexists. split; [reflexivity|].
      split; [split; discriminate|]. split; [tauto|]. intros ? [= <-]. congruence.
    + apply jsstring_eqb_neq in E. eexists. split; [reflexivity|].
      split; [split; discriminate|]. split; [|now intros ? [= <-]].
      split; [discriminate|]. intros [= ->]. congruence.
Qed.

(** X10.  In every world a session reaches, [copyReportToClipboard()]
    returns exactly when [navigator.clipboard] is defined at the call; the
    dates of the records are all valid, so building the snapshot does not
    throw, and the only exception is the [TypeError] of the member access
    on the undefined clipboard. *)
Theorem copyReportToClipboard_throws_only_without_clipboard
  (s : HostS H) (cs : list Call) :
  let w := snd (run cs (initial s)) in
  let s2 := snd (native_now H (snd (native_now H (host w)))) in
  (fst (copyReportToClipboard w) = Normal tt <-> navigator_clipboard H s2 = true) /\
  (forall e,
     fst (copyReportToClipboard w) = Throw e ->
     e = TypeError (lit "Cannot read properties of undefined (reading 'writeText')")).
Proof.
  intros w s2. pose proof (copyReportToClipboard_returns_with_clipboard s cs) as E.
  cbv zeta in E. fold w in E. fold s2 in E. rewrite E.
  destruct (navigator_clipboard H s2).
  - split; [tauto | discriminate].
  - split; [split; discriminate | now intros e [= <-]].
Qed.

End Settlement.

(** ** The rows of the table of duplicates, in order *)

Lemma existsb_jsstring (x : jsstring) (l : list jsstring) :
  existsb (jsstring_eqb x) l = true <-> In x l.
Proof.
  rewrite existsb_exists. split.
  - intros (k & Hk & E). apply jsstring_eqb_eq in E. now subst.
  - intros Hin. exists x. split; [assumption | apply jsstring_eqb_refl].
Qed.

Lemma own_some_keys (key : jsstring) (m : OriginMap) :
  existsb (jsstring_eqb key) (map fst m) = match own key m with Some _ => true | None => false end.
Proof.
  induction m as [|[k v] r IH]; simpl; [reflexivity|].
  destruct (jsstring_eqb key k); [reflexivity | exact IH].
Qed.

(** The loop gives the object its keys in the order in which the origins
    first occur. *)
Lemma count_origins_keys (entries : list (Z * TimerInfo)) (m m' : OriginMap) :
  count_origins m entries = Normal m' ->
  map fst m' =
  fold_left
    (fun seen x => if existsb (jsstring_eqb x) seen then seen else seen ++ [x])
    (map (fun e => stack (snd e)) entries) (map fst m).
Proof.
  revert m. induction entries as [|[id info] rest IH]; intros m E.
  - injection E as <-. reflexivity.
  - cbn [count_origins] in E. cbn [map fold_left snd].
    destruct (count_origin m (id, info)) as [m1|e] eqn:E1; [|discriminate E].
    rewrite (IH _ E). f_equal. clear IH E.
    unfold count_origin, originMap_get in E1. rewrite own_some_keys.
    destruct (own (stack info) m) as [o|] eqn:Eo.
    + rewrite Eo in E1. injection E1 as <-. apply own_update_keys.
    + destruct (existsb (jsstring_eqb (stack info)) Object_prototype_keys).
      * rewrite Eo in E1. discriminate E1.
      * rewrite own_create_spec, Eo, jsstring_eqb_refl in E1. injection E1 as <-.
        rewrite own_update_keys. unfold own_create. now rewrite map_app.
Qed.

(** [Object.entries] orders the properties by their keys alone. *)
Lemma insert_by_index_map {A B} (g : A -> B) (x : Z * A) (l : list (Z * A)) :
  insert_by_index (fst x, g (snd x)) (map (fun y => (fst y, g (snd y))) l) =
  map (fun y => (fst y, g (snd y))) (insert_by_index x l).
Proof.
  induction l as [|y r IH]; simpl; [reflexivity|].
  destruct (fst x <? fst y); simpl; [reflexivity|]. now rewrite IH.
Qed.

Lemma sort_by_index_map {A B} (g : A -> B) (l : list (Z * A)) :
  fold_right insert_by_index [] (map (fun y => (fst y, g (snd y))) l) =
  map (fun y => (fst y, g (snd y))) (fold_right insert_by_index [] l).
Proof.
  induction l as [|x r IH]; simpl; [reflexivity|].
  rewrite IH. apply insert_by_index_map.
Qed.

Lemma Object_entries_map {A B} (f : A -> B) (o : list (jsstring * A)) :
  Object_entries (map (fun e => (fst e, f (snd e))) o) =
  map (fun e => (fst e, f (snd e))) (Object_entries o).
Proof.
  unfold Object_entries. rewrite map_app. f_equal.
  - set (g := fun e : jsstring * A => (fst e, f (snd e))).
    assert (E : flat_map indexed (map g o) =
                map (fun y => (fst y, g (snd y))) (flat_map indexed o)).
    { induction o as [|e r IH]; simpl; [reflexivity|]. rewrite map_app, <- IH.
      f_equal. unfold indexed. simpl. now destruct (array_index (fst e)). }
    rewrite E, sort_by_index_map, !map_map. reflexivity.
  - induction o as [|e r IH]; [reflexivity|]. cbn [map filter].
    change (named (fst e, f (snd e))) with (named e).
    destruct (named e); cbn [map]; now rewrite IH.
Qed.

Lemma Object_entries_keys {A} (o : list (jsstring * A)) :
  map fst (Object_entries o) = property_order (map fst o).
Proof.
  unfold property_order. rewrite map_map.
  rewrite (Object_entries_map (fun _ => tt) o), map_map. reflexivity.
Qed.

(** Keys none of which is an array index are listed in the order in which
    they were created. *)
Lemma property_order_named (keys : list jsstring) :
  (forall key, In key keys -> array_index key = None) -> property_order keys = keys.
Proof.
  intros Hnamed. unfold property_order, Object_entries.
  assert (E : flat_map indexed (map (fun key : jsstring => (key, tt)) keys) = [] /\
              map fst (filter named (map (fun key : jsstring => (key, tt)) keys)) = keys).
  { induction keys as [|k r IH]; [now split|].
    destruct IH as [I1 I2]; [intros key Hin; apply Hnamed; now right|].
    cbn [map flat_map filter]. unfold indexed at 1, named at 1. cbn [fst].
    rewrite (Hnamed k (or_introl eq_refl)). cbn [app map fst].
    split; [exact I1 | now rewrite I2]. }
  destruct E as [E1 E2]. rewrite E1. exact E2.
Qed.

Lemma first_seen_In (x : jsstring) (l acc : list jsstring) :
  In x (fold_left
          (fun seen y => if existsb (jsstring_eqb y) seen then seen else seen ++ [y])
          l acc) <-> In x acc \/ In x l.
Proof.
  revert acc. induction l as [|y r IH]; intros acc; simpl; [tauto|].
  rewrite IH. destruct (existsb (jsstring_eqb y) acc) eqn:E.
  - apply existsb_jsstring in E. intuition (subst; auto).
  - rewrite in_app_iff. simpl. intuition (subst; auto).
Qed.

(** When the loop over the entries completes, the table of duplicates has
    the rows of the shared origins, in the order of the properties. *)
Lemma duplicates_of_counted (entries : list (Z * TimerInfo)) (m : OriginMap) :
  count_origins [] entries = Normal m -> duplicates_of m = duplicate_rows entries.
Proof.
  intros E.
  pose proof (count_origins_completion entries []) as Hplain. rewrite E in Hplain.
  specialize (Hplain ltac:(intros key [])).
  destruct (count_origins_tally entries [] []) as (m' & E' & Hnd & Hown);
    [split; [constructor | reflexivity] | exact Hplain |].
  rewrite E in E'. injection E' as <-. simpl in Hnd, Hown.
  pose proof (count_origins_keys entries [] m E) as Hkeys. simpl in Hkeys.
  unfold duplicate_rows, first_seen. rewrite <- Hkeys, <- Object_entries_keys.
  unfold duplicates_of.
  assert (Hinfo : forall e, In e (Object_entries m) ->
            snd e = mkOriginInfo (List.length (bearing (fst e) entries))
                                 (bearing (fst e) entries)).
  { intros [origin info] Hin. simpl.
    apply (Permutation_in _ (Object_entries_perm m)) in Hin.
    apply (own_In _ _ _ Hnd) in Hin. rewrite Hown in Hin.
    destruct (bearing origin entries) as [|i l] eqn:Eb; [discriminate|].
    now injection Hin as <-. }
  induction (Object_entries m) as [|e r IH]; simpl; [reflexivity|].
  assert (He : snd e = mkOriginInfo (List.length (bearing (fst e) entries))
                                    (bearing (fst e) entries))
    by (apply Hinfo; now left).
  assert (Hr : forall e', In e' r ->
            snd e' = mkOriginInfo (List.length (bearing (fst e') entries))
                                  (bearing (fst e') entries))
    by (intros e' Hin; apply Hinfo; now right).
  unfold shared at 1. rewrite He at 1. cbn [count].
  destruct (Nat.ltb 1 (List.length (bearing (fst e) entries))); simpl.
  - rewrite (IH Hr). f_equal. unfold duplicate_row. rewrite He. reflexivity.
  - exact (IH Hr).
Qed.

Section DuplicatesTable.

Context {H : Host}.

(** X11.  Whenever [report()] returns, the table of duplicates is right: it
    prints one table with a row for every origin that two or more of the
    timeouts and intervals together bear, the row holding the origin, the
    number of those entries and their handles joined by ", " (timeouts
    first), and it prints no such table when no origin is shared.  The rows
    stand in the order [Object.entries] gives the origins: those that are
    array indices first, in ascending order, then the others in the order in
    which they first occur in the registry; when no origin is an array
    index, that is the order of first occurrence. *)
Theorem report_duplicates_when_it_returns (w : World (H:=H)) :
  let entries := timeouts w ++ intervals w in
  let origins := first_seen (map (fun e => stack (snd e)) entries) in
  fst (report w) = Normal tt ->
  duplicate_tables (skipn (List.length (effects w)) (effects (snd (report w)))) =
    (if nonempty (duplicate_rows entries) then [duplicate_rows entries] else []) /\
  ((forall e, In e entries -> array_index (stack (snd e)) = None) ->
   duplicate_rows entries =
     map (fun origin => duplicate_row origin entries)
         (filter (shared entries) origins)).
Proof.
  intros entries origins Hret. split.
  - revert Hret. rewrite report_eq.
    destruct (native_now H (host w)) as [now s1].
    destruct (native_now H s1) as [time s2]. cbv zeta.
    unfold table_section, duplicates_section.
    destruct (timeouts w) as [|t ts] eqn:Et, (intervals w) as [|i ivs] eqn:Ei;
      cbn [nonempty negb andb];
      try (destruct (count_origins [] _) as [m|e] eqn:Ec; [|discriminate];
           apply duplicates_of_counted in Ec; subst entries; rewrite <- Ec);
      intros _; cbn [snd effects];
      rewrite <- ?app_assoc, skipn_app, skipn_all, Nat.sub_diag;
      try destruct (nonempty (duplicates_of m)); reflexivity.
  - intros Hnamed. unfold duplicate_rows. fold origins.
    rewrite property_order_named; [reflexivity|].
    intros key Hin. unfold origins, first_seen in Hin.
    apply first_seen_In in Hin. destruct Hin as [[]|Hin].
    apply in_map_iff in Hin. destruct Hin as (e & <- & He). now apply Hnamed.
Qed.

End DuplicatesTable.

(** ** The age of a record *)

(** The arithmetic of this part is on comparisons as booleans. *)
From Stdlib Require Import ZifyBool.

(** *** Rounding to nearest *)

Lemma shr_1_located (N D : Z) (r : shr_record) :
  0 <= shr_m r -> located N D r -> located N (2 * D) (shr_1 r).
Proof.
  destruct r as [m b s]. unfold located. cbn [shr_m shr_r shr_s].
  intros Hm (HD & Hb & Hr & Hs).
  destruct m as [|[p|p|]|p]; try lia; cbn [shr_1 shr_m shr_r shr_s];
    repeat split; try lia.
Qed.

Lemma iter_shr_1_located (p : positive) (N D : Z) (r : shr_record) :
  0 <= shr_m r -> located N D r ->
  0 <= shr_m (iter_pos shr_1 p r) /\
  located N (2 ^ Z.pos p * D) (iter_pos shr_1 p r).
Proof.
  revert N D r. induction p as [p IH|p IH|]; intros N D r Hm Hl; cbn [iter_pos].
  - pose proof (shr_1_nonneg r Hm) as H1.
    pose proof (shr_1_located N D r Hm Hl) as L1.
    destruct (IH _ _ _ H1 L1) as [H2 L2]. destruct (IH _ _ _ H2 L2) as [H3 L3].
    split; [exact H3|].
    replace (2 ^ Z.pos p~1 * D) with (2 ^ Z.pos p * (2 ^ Z.pos p * (2 * D)));
      [exact L3|].
    rewrite (Pos2Z.inj_xI p).
    replace (2 * Z.pos p + 1) with (Z.pos p + Z.pos p + 1) by lia.
    rewrite !Z.pow_add_r by lia. change (2 ^ 1) with 2. ring.
  - destruct (IH _ _ _ Hm Hl) as [H2 L2]. destruct (IH _ _ _ H2 L2) as [H3 L3].
    split; [exact H3|].
    replace (2 ^ Z.pos p~0 * D) with (2 ^ Z.pos p * (2 ^ Z.pos p * D)); [exact L3|].
    rewrite (Pos2Z.inj_xO p).
    replace (2 * Z.pos p) with (Z.pos p + Z.pos p) by lia.
    rewrite !Z.pow_add_r by lia. ring.
  - split; [now apply shr_1_nonneg|]. change (2 ^ 1) with 2.
    now apply shr_1_located.
Qed.

Lemma shr_located (r : shr_record) (e n N D : Z) :
  0 <= shr_m r -> 0 <= n -> located N D r ->
  snd (shr r e n) = e + n /\
  0 <= shr_m (fst (shr r e n)) /\
  located N (2 ^ n * D) (fst (shr r e n)).
Proof.
  intros Hm Hn Hl. destruct n as [|p|p]; try lia; cbn [shr fst snd].
  - split; [lia|]. split; [assumption|]. change (2 ^ 0) with 1.
    now replace (1 * D) with D by lia.
  - split; [reflexivity|]. now apply iter_shr_1_located.
Qed.

(** Rounding to nearest, ties to even, errs by half a unit at most. *)
Lemma round_located (N D : Z) (r : shr_record) :
  located N D r ->
  let mr := round_nearest_even (shr_m r) (loc_of_shr_record r) in
  shr_m r <= mr <= shr_m r + 1 /\ Z.abs (2 * mr * D - 2 * N) <= D.
Proof.
  destruct r as [m b s]. unfold located. cbn [shr_m shr_r shr_s].
  intros (HD & Hb & Hr & Hs).
  destruct b, s; cbn [loc_of_shr_record round_nearest_even];
    try destruct (Z.even m); split; lia.
Qed.

Lemma Zdigits2_unique (m d : Z) : 0 < d -> 2 ^ (d - 1) <= m < 2 ^ d -> Zdigits2 m = d.
Proof.
  intros Hd [Hlo Hhi].
  assert (Hm : 0 < m).
  { assert (0 < 2 ^ (d - 1)) by (apply Z.pow_pos_nonneg; lia). lia. }
  pose proof (Zdigits2_lt_pow2 m d ltac:(lia) ltac:(lia) Hhi) as Hle.
  pose proof (lt_pow2_Zdigits2 m ltac:(lia)) as Hlt.
  pose proof (Zdigits2_nonneg m) as H0.
  destruct (Z_lt_le_dec (Zdigits2 m) d) as [Hs|Hs]; [|lia]. exfalso.
  pose proof (Z.pow_le_mono_r 2 (Zdigits2 m) (d - 1) ltac:(lia) ltac:(lia)). lia.
Qed.

Lemma Zdigits2_bounds (m : Z) : 0 < m -> 2 ^ (Zdigits2 m - 1) <= m < 2 ^ Zdigits2 m.
Proof.
  intros Hm. split; [now apply Zdigits2_le_pow2 | apply lt_pow2_Zdigits2; lia].
Qed.

(** A mantissa of 53 digits or more, located in a rational, is rounded to
    a double of 53 digits within half a unit in the last place of the
    rational, as long as the exponent stays in the range of the normal
    numbers. *)
Lemma binary_round_aux_correct (s : bool) (m e : Z) (l : location) (N D : Z) :
  let n := Zdigits2 m - 53 in
  0 < m -> 0 <= n -> -1074 <= e + n -> e + n < 971 ->
  located N D (shr_record_of_loc m l) ->
  exists mf j,
    binary_round_aux prec emax s m e l = S754_finite s mf (e + n + j) /\
    (j = 0 \/ j = 1) /\
    Z.pos (digits2_pos mf) = 53 /\
    Z.abs (2 * (Z.pos mf * 2 ^ j) * (2 ^ n * D) - 2 * N) <= 2 ^ n * D.
Proof.
  intros n Hm Hn Hlo Hhi Hl.
  assert (HD : 0 < D) by apply Hl.
  pose proof (Zdigits2_bounds m Hm) as Hdm.
  replace (Zdigits2 m) with (53 + n) in Hdm by (unfold n; lia).
  unfold binary_round_aux, shr_fexp.
  replace (fexp prec emax (Zdigits2 m + e) - e) with n
    by (unfold fexp, emin, prec, emax, n in *; lia).
  assert (Hm0 : 0 <= shr_m (shr_record_of_loc m l))
    by (rewrite shr_record_of_loc_m; lia).
  pose proof (shr_located _ e n N D Hm0 Hn Hl) as (E1 & H1 & L1).
  destruct (shr (shr_record_of_loc m l) e n) as [r1 e1]. cbn [fst snd] in *.
  subst e1. pose proof (round_located _ _ _ L1) as [Hmr Herr]. cbv zeta in Hmr, Herr.
  set (m1 := shr_m r1) in *.
  set (mr := round_nearest_even m1 (loc_of_shr_record r1)) in *.
  assert (Hp : 0 < 2 ^ n) by (apply Z.pow_pos_nonneg; lia).
  (* the shifted mantissa has 53 digits *)
  assert (Hm1 : 2 ^ 52 <= m1 < 2 ^ 53).
  { destruct L1 as (_ & Hb1 & _). fold m1 in Hb1.
    destruct Hl as (_ & Hb0 & _). rewrite shr_record_of_loc_m in Hb0.
    replace (53 + n - 1) with (52 + n) in Hdm by lia.
    rewrite !Z.pow_add_r in Hdm by lia. nia. }
  destruct (Z.eq_dec mr (2 ^ 53)) as [Etop|Hne].
  - (* the rounding carries into a 54th digit *)
    rewrite Etop in *. change (Zdigits2 (2 ^ 53)) with 54.
    replace (fexp prec emax (54 + (e + n)) - (e + n)) with 1
      by (unfold fexp, emin, prec, emax in *; lia).
    cbn [shr_record_of_loc shr iter_pos]. change (2 ^ 53) with 9007199254740992.
    cbn [shr_1 shr_m orb].
    assert (Hle : (e + n + 1 <=? emax - prec) = true)
      by (apply Z.leb_le; unfold emax, prec; lia).
    rewrite Hle. exists 4503599627370496%positive, 1.
    split; [reflexivity|]. split; [now right|]. split; [reflexivity|].
    change (Z.pos 4503599627370496 * 2 ^ 1) with (2 ^ 53). exact Herr.
  - assert (Hmr53 : 2 ^ 52 <= mr < 2 ^ 53) by lia.
    pose proof (Zdigits2_unique mr 53 ltac:(lia) Hmr53) as Ed. rewrite Ed.
    replace (fexp prec emax (53 + (e + n)) - (e + n)) with 0
      by (unfold fexp, emin, prec, emax in *; lia).
    cbn [shr_record_of_loc shr shr_m].
    destruct mr as [|mf|mf] eqn:Emr; try lia.
    assert (Hle : (e + n <=? emax - prec) = true)
      by (apply Z.leb_le; unfold emax, prec; lia).
    rewrite Hle. exists mf, 0. rewrite Z.add_0_r.
    split; [reflexivity|]. split; [now left|]. split; [exact Ed|].
    change (2 ^ 0) with 1. now rewrite Z.mul_1_r.
Qed.

(** *** Integers as doubles *)

Lemma iter_xO_value (m d : positive) : Z.pos (Pos.iter xO m d) = Z.pos m * 2 ^ Z.pos d.
Proof.
  induction d as [|d IH] using Pos.peano_ind.
  - simpl. lia.
  - rewrite Pos.iter_succ, Pos2Z.inj_succ, Z.pow_succ_r by lia.
    rewrite (Pos2Z.inj_xO (Pos.iter xO m d)), IH. ring.
Qed.

Lemma shl_align_fst (m : positive) (e e' : Z) :
  e' <= e -> Z.pos (fst (shl_align m e e')) = Z.pos m * 2 ^ (e - e').
Proof.
  intros Hle. unfold shl_align. destruct (e' - e) as [|d|d] eqn:E; try lia; cbn [fst].
  - replace (e - e') with 0 by lia. simpl. lia.
  - rewrite iter_xO_value. f_equal. f_equal. lia.
Qed.

Lemma located_exact (m : Z) : located m 1 (shr_record_of_loc m loc_Exact).
Proof. unfold located. cbn [shr_record_of_loc shr_m shr_r shr_s]. lia. Qed.

(** A positive integer below [2^53], given with [k] more binary zeros at
    the exponent [-k], is rounded to itself: to the double whose mantissa
    is the integer shifted to 53 digits. *)
Lemma binary_round_integer (s : bool) (mx : positive) (k z : Z) :
  0 <= k -> 0 < z < 2 ^ 53 -> Z.pos mx = z * 2 ^ k ->
  exists mf,
    binary_round prec emax s mx (- k) = S754_finite s mf (Zdigits2 z - 53) /\
    Z.pos mf = z * 2 ^ (53 - Zdigits2 z).
Proof.
  intros Hk Hz Emx.
  pose proof (Zdigits2_bounds z ltac:(lia)) as Hdz.
  pose proof (Zdigits2_lt_pow2 z 53 ltac:(lia) ltac:(lia) ltac:(lia)) as Hd53.
  assert (Hd1 : 0 < Zdigits2 z) by (destruct z; simpl; lia).
  set (dz := Zdigits2 z) in *.
  assert (Hpk : 0 < 2 ^ k) by (apply Z.pow_pos_nonneg; lia).
  assert (Edx : Z.pos (digits2_pos mx) = dz + k).
  { change (Z.pos (digits2_pos mx)) with (Zdigits2 (Z.pos mx)). rewrite Emx.
    apply Zdigits2_unique; [lia|].
    replace (dz + k - 1) with (dz - 1 + k) by lia.
    rewrite !Z.pow_add_r by lia. nia. }
  (* the mantissa of 53 digits *)
  assert (Hp53 : 0 < 2 ^ (53 - dz)) by (apply Z.pow_pos_nonneg; lia).
  assert (Hz53 : 2 ^ 52 <= z * 2 ^ (53 - dz) < 2 ^ 53).
  { assert (E52 : 2 ^ 52 = 2 ^ (dz - 1) * 2 ^ (53 - dz))
      by (rewrite <- Z.pow_add_r by lia; f_equal; lia).
    assert (E53 : 2 ^ 53 = 2 ^ dz * 2 ^ (53 - dz))
      by (rewrite <- Z.pow_add_r by lia; f_equal; lia).
    rewrite E52, E53. nia. }
  unfold binary_round. rewrite Edx.
  replace (fexp prec emax (dz + k + - k)) with (dz - 53)
    by (unfold fexp, emin, prec, emax; lia).
  destruct (Z_lt_le_dec (dz - 53) (- k)) as [Hshift|Hkeep].
  - (* fewer than 53 digits: the mantissa is shifted left *)
    pose proof (shl_align_fst mx (- k) (dz - 53) ltac:(lia)) as Ef.
    pose proof (shl_align_snd mx (- k) (dz - 53) ltac:(lia)) as Es.
    destruct (shl_align mx (- k) (dz - 53)) as [mz ez]. cbn [fst snd] in Ef, Es.
    subst ez.
    assert (Emz : Z.pos mz = z * 2 ^ (53 - dz)).
    { rewrite Ef, Emx, <- Z.mul_assoc, <- Z.pow_add_r by lia. do 2 f_equal. lia. }
    assert (Edz : Zdigits2 (Z.pos mz) = 53)
      by (apply Zdigits2_unique; [lia | now rewrite Emz]).
    destruct (binary_round_aux_correct s (Z.pos mz) (dz - 53) loc_Exact (Z.pos mz) 1)
      as (mf & j & E & Hj & Hdf & Herr); try (rewrite Edz; lia); try lia;
      [apply located_exact|].
    rewrite Edz in E, Herr. change (2 ^ (53 - 53)) with 1 in Herr.
    pose proof (Zdigits2_bounds (Z.pos mf) ltac:(lia)) as Hmf.
    change (Zdigits2 (Z.pos mf)) with (Z.pos (digits2_pos mf)) in Hmf.
    rewrite Hdf in Hmf. change (2 ^ (53 - 1)) with (2 ^ 52) in Hmf.
    assert (j = 0) by (destruct Hj as [->| ->]; [reflexivity|];
                       change (2 ^ 1) with 2 in Herr; lia).
    subst j. change (2 ^ 0) with 1 in Herr.
    exists mf. rewrite E. split; [f_equal; lia | lia].
  - (* 53 digits or more: the zeros at the end are shifted out *)
    assert (Esh : shl_align mx (- k) (dz - 53) = (mx, - k)).
    { unfold shl_align. destruct (dz - 53 - - k) eqn:E; try reflexivity; lia. }
    rewrite Esh.
    assert (Edz : Zdigits2 (Z.pos mx) = dz + k) by exact Edx.
    destruct (binary_round_aux_correct s (Z.pos mx) (- k) loc_Exact (Z.pos mx) 1)
      as (mf & j & E & Hj & Hdf & Herr); try (rewrite Edz; lia); try lia;
      [apply located_exact|].
    rewrite Edz in E, Herr.
    set (n := dz + k - 53) in *.
    assert (Hpn : 0 < 2 ^ n) by (apply Z.pow_pos_nonneg; lia).
    assert (Ek : 2 ^ k = 2 ^ (53 - dz) * 2 ^ n).
    { rewrite <- Z.pow_add_r by lia. f_equal. lia. }
    rewrite Emx, Ek in Herr.
    pose proof (Zdigits2_bounds (Z.pos mf) ltac:(lia)) as Hmf.
    change (Zdigits2 (Z.pos mf)) with (Z.pos (digits2_pos mf)) in Hmf.
    rewrite Hdf in Hmf. change (2 ^ (53 - 1)) with (2 ^ 52) in Hmf.
    assert (Eval : Z.pos mf * 2 ^ j = z * 2 ^ (53 - dz)) by nia.
    assert (j = 0) by (destruct Hj as [->| ->]; [reflexivity|];
                       change (2 ^ 1) with 2 in Eval; lia).
    subst j. change (2 ^ 0) with 1 in Eval.
    exists mf. rewrite E. split; [f_equal; lia | lia].
Qed.

(** The Number of a non-zero integer below [2^53] in magnitude is the
    integer. *)
Lemma Number_of_Z_exact (z : Z) :
  z <> 0 -> Z.abs z < 2 ^ 53 ->
  exists mf,
    Number_of_Z z = S754_finite (z <? 0) mf (Zdigits2 z - 53) /\
    Z.pos mf = Z.abs z * 2 ^ (53 - Zdigits2 z).
Proof.
  intros Hz Hlt. rewrite <- (Zdigits2_abs z). unfold Number_of_Z.
  destruct z as [|p|p]; try lia; cbn [binary_normalize Z.abs Z.ltb Z.compare].
  - apply (binary_round_integer false p 0 (Z.pos p)); simpl in *; lia.
  - apply (binary_round_integer true p 0 (Z.pos p)); simpl in *; lia.
Qed.

(** The difference of two integers as Numbers is the Number of their
    difference, when the three of them are below [2^53] in magnitude. *)
Lemma SFsub_exact (a b : Z) :
  Z.abs a < 2 ^ 53 -> Z.abs b < 2 ^ 53 -> Z.abs (a - b) < 2 ^ 53 ->
  SFsub prec emax (Number_of_Z a) (Number_of_Z b) = Number_of_Z (a - b).
Proof.
  intros Ha Hb Hd.
  destruct (Z.eq_dec b 0) as [->|Hb0].
  - rewrite Z.sub_0_r. change (Number_of_Z 0) with (S754_zero false).
    now destruct (Number_of_Z a) as [[]| | |].
  - destruct (Number_of_Z_exact b Hb0 Hb) as (mb & Eb & Hmb).
    destruct (Z.eq_dec a 0) as [->|Ha0].
    + change (Number_of_Z 0) with (S754_zero false). rewrite Eb. cbn [SFsub].
      destruct (Number_of_Z_exact (0 - b) ltac:(lia) ltac:(lia)) as (mf & Ef & Hmf).
      rewrite Ef. replace (Zdigits2 (0 - b)) with (Zdigits2 b) in *
        by (rewrite <- (Zdigits2_abs b), <- (Zdigits2_abs (0 - b)); f_equal; lia).
      f_equal; [lia | lia].
    + destruct (Number_of_Z_exact a Ha0 Ha) as (ma & Ea & Hma).
      rewrite Ea, Eb. cbn [SFsub].
      set (ea := Zdigits2 a - 53) in *. set (eb := Zdigits2 b - 53) in *.
      set (ez := Z.min ea eb).
      pose proof (Zdigits2_lt_pow2 (Z.abs a) 53 ltac:(lia) ltac:(lia) Ha) as Hda.
      pose proof (Zdigits2_lt_pow2 (Z.abs b) 53 ltac:(lia) ltac:(lia) Hb) as Hdb.
      rewrite Zdigits2_abs in Hda, Hdb.
      assert (Hez : ez <= 0) by (unfold ez, ea, eb; lia).
      rewrite !shl_align_fst by (unfold ez; lia).
      assert (Eza : Z.pos ma * 2 ^ (ea - ez) = Z.abs a * 2 ^ (- ez)).
      { rewrite Hma, <- Z.mul_assoc, <- Z.pow_add_r by (unfold ez, ea, eb; lia).
        do 2 f_equal. unfold ea. lia. }
      assert (Ezb : Z.pos mb * 2 ^ (eb - ez) = Z.abs b * 2 ^ (- ez)).
      { rewrite Hmb, <- Z.mul_assoc, <- Z.pow_add_r by (unfold ez, ea, eb; lia).
        do 2 f_equal. unfold eb. lia. }
      rewrite Eza, Ezb.
      assert (Hp : 0 < 2 ^ (- ez)) by (apply Z.pow_pos_nonneg; lia).
      assert (EM : cond_Zopp (a <? 0) (Z.abs a * 2 ^ (- ez)) -
                   cond_Zopp (b <? 0) (Z.abs b * 2 ^ (- ez)) = (a - b) * 2 ^ (- ez)).
      { unfold cond_Zopp. destruct (Z.ltb_spec a 0), (Z.ltb_spec b 0); nia. }
      rewrite EM.
      destruct (Z.eq_dec a b) as [->|Hab].
      * rewrite Z.sub_diag. reflexivity.
      * destruct (Number_of_Z_exact (a - b) ltac:(lia) Hd) as (mf & Ef & Hmf).
        rewrite Ef.
        destruct ((a - b) * 2 ^ (- ez)) as [|p|p] eqn:Ep; try nia;
          cbn [binary_normalize].
        -- destruct (binary_round_integer false p (- ez) (a - b)) as (mf' & E' & Hmf');
             try lia.
           rewrite Z.opp_involutive in E'. rewrite E'.
           replace (a - b <? 0) with false by lia.
           f_equal. replace (Z.abs (a - b)) with (a - b) in Hmf by lia. lia.
        -- destruct (binary_round_integer true p (- ez) (b - a)) as (mf' & E' & Hmf');
             try lia.
           rewrite Z.opp_involutive in E'. rewrite E'.
           replace (a - b <? 0) with true by lia.
           replace (Zdigits2 (b - a)) with (Zdigits2 (a - b)) in *
             by (rewrite <- (Zdigits2_abs (b - a)), <- (Zdigits2_abs (a - b));
                 f_equal; lia).
           f_equal. replace (Z.abs (a - b)) with (b - a) in Hmf by lia. lia.
Qed.

(** *** Division by a thousand *)

Lemma Number_of_Z_1000 : Number_of_Z 1000 = S754_finite false 8796093022208000 (-43).
Proof. reflexivity. Qed.

(** The quotient of a double of 53 digits by 1000 is within half a unit in
    its last place of the exact quotient: with [n] and [j] the digits
    shifted out before and after the rounding, the mantissa of the result
    is within [2^n / 2] of the scaled quotient. *)
Lemma SFdiv_1000 (s : bool) (m1 : positive) (e1 : Z) :
  Z.pos (digits2_pos m1) = 53 -> -52 <= e1 <= 0 ->
  exists mf n j,
    SFdiv prec emax (S754_finite s m1 e1) (Number_of_Z 1000) =
      S754_finite s mf (e1 - 10 + n + j) /\
    (n = 0 \/ n = 1) /\ (j = 0 \/ j = 1) /\
    Z.pos (digits2_pos mf) = 53 /\
    Z.abs (2000 * (Z.pos mf * 2 ^ j) * 2 ^ n - 2048 * Z.pos m1) <= 1000 * 2 ^ n.
Proof.
  intros Hd1 He1. rewrite Number_of_Z_1000. cbn [SFdiv].
  unfold SFdiv_core_binary.
  change (Zdigits2 (Z.pos m1)) with (Z.pos (digits2_pos m1)). rewrite Hd1.
  change (Zdigits2 (Z.pos 8796093022208000)) with 53.
  replace (Z.min (fexp prec emax (53 + e1 - (53 + -43))) (e1 - -43)) with (e1 - 10)
    by (unfold fexp, emin, prec, emax; lia).
  replace (e1 - -43 - (e1 - 10)) with 53 by lia.
  rewrite Z.shiftl_mul_pow2 by lia.
  pose proof (Zdigits2_bounds (Z.pos m1) ltac:(lia)) as Hm1.
  change (Zdigits2 (Z.pos m1)) with (Z.pos (digits2_pos m1)) in Hm1.
  rewrite Hd1 in Hm1. change (2 ^ (53 - 1)) with 4503599627370496 in Hm1.
  change (2 ^ 53) with 9007199254740992 in *.
  pose proof (Z_div_mod (Z.pos m1 * 9007199254740992) 8796093022208000 ltac:(lia))
    as Hdiv.
  destruct (Z.div_eucl (Z.pos m1 * 9007199254740992) 8796093022208000) as [q r].
  destruct Hdiv as [Eq Hr].
  rewrite Bool.xorb_false_r.
  assert (Hq : 4503599627370496 <= q < 18014398509481984) by lia.
  assert (Hloc : located (Z.pos m1 * 9007199254740992) 8796093022208000
                   (shr_record_of_loc q (new_location 8796093022208000 r))).
  { unfold new_location. change (Z.even 8796093022208000) with true. cbv iota.
    unfold new_location_even, located.
    destruct (Z.eqb_spec r 0) as [->|Hr0].
    - cbn [shr_record_of_loc shr_m shr_r shr_s]. lia.
    - destruct (Z.compare_spec (2 * r) 8796093022208000);
        cbn [shr_record_of_loc shr_m shr_r shr_s]; lia. }
  assert (Hn : Zdigits2 q = 53 \/ Zdigits2 q = 54).
  { destruct (Z_lt_le_dec q 9007199254740992).
    - left. apply Zdigits2_unique; [lia|]. change (2 ^ (53 - 1)) with 4503599627370496.
      change (2 ^ 53) with 9007199254740992. lia.
    - right. apply Zdigits2_unique; [lia|]. change (2 ^ (54 - 1)) with 9007199254740992.
      change (2 ^ 54) with 18014398509481984. lia. }
  destruct (binary_round_aux_correct s q (e1 - 10)
              (new_location 8796093022208000 r)
              (Z.pos m1 * 9007199254740992) 8796093022208000)
    as (mf & j & E & Hj & Hdf & Herr); try lia; [exact Hloc|].
  exists mf, (Zdigits2 q - 53), j. split; [exact E|]. split; [lia|].
  split; [exact Hj|]. split; [exact Hdf|].
  set (n := Zdigits2 q - 53) in *.
  assert (Hpn : 0 < 2 ^ n) by (apply Z.pow_pos_nonneg; lia).
  set (X := Z.pos mf * 2 ^ j) in *. lia.
Qed.

(** *** The age to the tenth of a second *)

Lemma digits_value_decimal_fuel (fuel : nat) (n : Z) (acc : jsstring) :
  0 <= n < 10 ^ Z.of_nat fuel ->
  digits_value (decimal_fuel fuel n acc) =
  fold_left (fun a d => a * 10 + (Z.of_N d - 48)) acc n.
Proof.
  revert n acc. induction fuel as [|f IH]; intros n acc Hn.
  - simpl in *. replace n with 0 by lia. reflexivity.
  - cbn [decimal_fuel]. destruct (Z.ltb_spec n 10) as [Hlt|Hge].
    + unfold digits_value. cbn [fold_left]. rewrite digit_value.
      rewrite Z.mod_small by lia. reflexivity.
    + rewrite IH.
      * cbn [fold_left]. rewrite digit_value. f_equal.
        pose proof (Z.div_mod n 10 ltac:(lia)). lia.
      * rewrite Nat2Z.inj_succ, Z.pow_succ_r in Hn by lia.
        split; [apply Z.div_pos; lia | apply Z.div_lt_upper_bound; lia].
Qed.

(** The decimal numeral of a number spells the number. *)
Lemma digits_value_decimal (n : Z) : 0 <= n -> digits_value (decimal n) = n.
Proof.
  intros Hn. unfold decimal. rewrite digits_value_decimal_fuel; [reflexivity|].
  split; [assumption|]. destruct (Z.eq_dec n 0) as [->|Hne]; [simpl; lia|].
  rewrite Nat2Z.inj_succ, Z2Nat.id by apply Z.log2_nonneg.
  pose proof (Z.log2_spec n ltac:(lia)) as [_ Hlt].
  assert (2 ^ Z.succ (Z.log2 n) <= 10 ^ Z.succ (Z.log2 n)); [|lia].
  apply Z.pow_le_mono_l. lia.
Qed.

Lemma digits_value_zeros (k : nat) (s : jsstring) :
  digits_value (repeat 48%N k ++ s) = digits_value s.
Proof. induction k as [|k IH]; [reflexivity|]. exact IH. Qed.

Lemma filter_digits (s : jsstring) : forallb is_digit s = true -> filter is_digit s = s.
Proof.
  induction s as [|c r IH]; simpl; [reflexivity|].
  destruct (is_digit c); simpl; [|discriminate]. intros Hr. now rewrite IH.
Qed.

(** Reading a numeral in fixed notation gives the number of tenths it was
    written from, with or without a sign before it. *)
Lemma tenths_fixed1 (n : Z) (sign : jsstring) :
  0 <= n -> sign = [] \/ sign = lit "-" ->
  tenths (sign ++ fixed1 n) = n.
Proof.
  intros Hn Hsign. unfold tenths. rewrite filter_app.
  assert (Es : filter is_digit sign = []) by (destruct Hsign as [->| ->]; reflexivity).
  rewrite Es. cbn [app]. unfold fixed1.
  set (m := zero_padded n 2).
  rewrite !filter_app. cbn [filter is_digit N.leb N.compare Pos.compare Pos.compare_cont andb app].
  change (filter is_digit [46%N]) with (@nil N). cbn [app].
  rewrite <- filter_app, firstn_skipn.
  rewrite filter_digits by apply zero_padded_digits.
  unfold m, zero_padded. rewrite digits_value_zeros. now apply digits_value_decimal.
Qed.

Lemma shifted_to_53 (z : Z) :
  0 < z < 2 ^ 53 ->
  2 ^ 52 <= z * 2 ^ (53 - Zdigits2 z) < 2 ^ 53 /\ 0 < Zdigits2 z <= 53.
Proof.
  intros Hz.
  pose proof (Zdigits2_bounds z ltac:(lia)) as Hdz.
  pose proof (Zdigits2_lt_pow2 z 53 ltac:(lia) ltac:(lia) ltac:(lia)) as Hd53.
  assert (Hd1 : 0 < Zdigits2 z) by (destruct z; simpl; lia).
  set (dz := Zdigits2 z) in *.
  assert (Hp53 : 0 < 2 ^ (53 - dz)) by (apply Z.pow_pos_nonneg; lia).
  assert (E52 : 2 ^ 52 = 2 ^ (dz - 1) * 2 ^ (53 - dz))
    by (rewrite <- Z.pow_add_r by lia; f_equal; lia).
  assert (E53 : 2 ^ 53 = 2 ^ dz * 2 ^ (53 - dz))
    by (rewrite <- Z.pow_add_r by lia; f_equal; lia).
  split; [|lia]. rewrite E52, E53. nia.
Qed.

(** The tenths [toFixed(1)] prints for a double within half a unit in the
    last place of [d / 1000] are within 50 of [d / 10]: the rounding of the
    division is too small to move the rounding to the tenth. *)
Lemma nearest_tenths_of_quotient (mf : positive) (d e1 n j : Z) :
  0 < d -> -52 <= e1 <= 0 -> (n = 0 \/ n = 1) -> (j = 0 \/ j = 1) ->
  Z.abs (2000 * (Z.pos mf * 2 ^ j) * 2 ^ n - 2048 * (d * 2 ^ (- e1))) <= 1000 * 2 ^ n ->
  let nt := nearest_tenths mf (e1 - 10 + n + j) in
  0 <= nt /\ Z.abs (100 * nt - d) <= 50.
Proof.
  intros Hd He1 Hn Hj Herr. cbv zeta. unfold nearest_tenths.
  assert (Hneg : (0 <=? e1 - 10 + n + j) = false) by lia.
  rewrite Hneg.
  set (V := 2 ^ (- e1)) in *.
  assert (HV : 0 < V) by (apply Z.pow_pos_nonneg; lia).
  assert (E2U : 2 ^ (1 - (e1 - 10 + n + j)) = 2 * 2 ^ (- (e1 - 10 + n + j))).
  { replace (1 - (e1 - 10 + n + j)) with (1 + - (e1 - 10 + n + j)) by lia.
    rewrite Z.pow_add_r by lia. reflexivity. }
  rewrite E2U.
  set (U := 2 ^ (- (e1 - 10 + n + j))) in *.
  assert (EU : U * (2 ^ n * 2 ^ j) = 1024 * V).
  { unfold U, V. change 1024 with (2 ^ 10). rewrite <- !Z.pow_add_r by lia.
    f_equal. lia. }
  assert (HU : 0 < U) by (apply Z.pow_pos_nonneg; lia).
  pose proof (Z.mul_div_le (20 * Z.pos mf + U) (2 * U) ltac:(lia)) as Hlo.
  pose proof (Z.mul_succ_div_gt (20 * Z.pos mf + U) (2 * U) ltac:(lia)) as Hhi.
  unfold Z.succ in Hhi.
  set (nt := (20 * Z.pos mf + U) / (2 * U)) in *.
  assert (Hnt : 0 <= nt) by (apply Z.div_pos; lia).
  split; [exact Hnt|].
  apply Z.abs_le. split.
  - destruct (Z_le_gt_dec (-50) (100 * nt - d)) as [Hok|Hbad]; [exact Hok|exfalso].
    assert (Hprod : 0 <= (d - 100 * nt - 51) * V)
      by (apply Z.mul_nonneg_nonneg; lia).
    destruct Hn as [-> | ->], Hj as [-> | ->];
      change (2 ^ 0) with 1 in *; change (2 ^ 1) with 2 in *; lia.
  - destruct (Z_le_gt_dec (100 * nt - d) 50) as [Hok|Hbad]; [exact Hok|exfalso].
    assert (Hprod : 0 <= (100 * nt - d - 51) * V)
      by (apply Z.mul_nonneg_nonneg; lia).
    destruct Hn as [-> | ->], Hj as [-> | ->];
      change (2 ^ 0) with 1 in *; change (2 ^ 1) with 2 in *; lia.
Qed.

(** X12.  The age [report()] and [copyReportToClipboard()] print for a
    record is the time elapsed since its creation, rounded to the tenth of
    a second: for a clock reading and a creation time below [2^53] in
    magnitude (every time value is) that are less than [2^53] milliseconds
    apart, [((now - createdAt) / 1000).toFixed(1)] is a minus sign when the
    clock reads less than the creation time, and then the fixed notation of
    a number of tenths that is within 50 milliseconds of the time between
    the two; the two roundings of the doubles, of the quotient and of the
    tenths, never add up to more. *)
Theorem age_is_the_elapsed_time_to_the_tenth (now created : Z) :
  Z.abs now < 2 ^ 53 -> Z.abs created < 2 ^ 53 -> Z.abs (now - created) < 2 ^ 53 ->
  let age := toFixed1 (age_seconds now created) in
  age = (if now <? created then lit "-" else []) ++ fixed1 (tenths age) /\
  Z.abs (100 * tenths age - Z.abs (now - created)) <= 50.
Proof.
  intros Hnow Hcreated Hd. unfold age_seconds. rewrite SFsub_exact by assumption.
  destruct (Z.eq_dec (now - created) 0) as [E0|Hne].
  - rewrite E0. change (Number_of_Z 0) with (S754_zero false).
    rewrite Number_of_Z_1000. cbn [SFdiv xorb toFixed1].
    replace (now <? created) with false by lia. cbn [app].
    change (tenths (fixed1 0)) with 0. split; [reflexivity | simpl; lia].
  - destruct (Number_of_Z_exact _ Hne Hd) as (md & Ed & Hmd).
    rewrite <- (Zdigits2_abs (now - created)) in Ed, Hmd.
    destruct (shifted_to_53 (Z.abs (now - created)) ltac:(lia)) as [H53 Hdd].
    set (d := Z.abs (now - created)) in *.
    set (e1 := Zdigits2 d - 53) in *.
    assert (Hdm : Z.pos (digits2_pos md) = 53).
    { change (Z.pos (digits2_pos md)) with (Zdigits2 (Z.pos md)).
      apply Zdigits2_unique; [lia|]. now rewrite Hmd. }
    destruct (SFdiv_1000 (now - created <? 0) md e1 Hdm ltac:(unfold e1; lia))
      as (mf & n & j & E & Hn & Hj & Hdf & Herr).
    rewrite Ed, E. cbn [toFixed1].
    rewrite Hmd in Herr. replace (53 - Zdigits2 d) with (- e1) in Herr by (unfold e1; lia).
    destruct (nearest_tenths_of_quotient mf d e1 n j ltac:(lia) ltac:(unfold e1; lia)
                Hn Hj Herr) as [Hnt Hbound].
    set (nt := nearest_tenths mf (e1 - 10 + n + j)) in *.
    assert (Hsmall : at_least_1e21 mf (e1 - 10 + n + j) = false).
    { unfold at_least_1e21.
      assert (Hneg : (0 <=? e1 - 10 + n + j) = false) by (unfold e1; lia).
      rewrite Hneg.
      pose proof (Zdigits2_bounds (Z.pos mf) ltac:(lia)) as Hmf.
      change (Zdigits2 (Z.pos mf)) with (Z.pos (digits2_pos mf)) in Hmf.
      rewrite Hdf in Hmf.
      assert (0 < 2 ^ (- (e1 - 10 + n + j))) by (apply Z.pow_pos_nonneg; unfold e1; lia).
      assert (2 ^ 53 < 10 ^ 21) by reflexivity.
      apply Z.leb_gt. nia. }
    rewrite Hsmall.
    replace (now - created <? 0) with (now <? created) by lia.
    assert (Et : tenths ((if now <? created then lit "-" else []) ++ fixed1 nt) = nt).
    { apply tenths_fixed1; [exact Hnt|]. destruct (now <? created); tauto. }
    rewrite Et. split; [reflexivity | exact Hbound].
Qed.

(** ** The floating button *)

Lemma find_app_none {A} (f : A -> bool) (l : list A) (x : A) :
  find f l = None -> f x = true -> find f (l ++ [x]) = Some x.
Proof.
  induction l as [|y r IH]; simpl; intros Hn Hx; [now rewrite Hx|].
  destruct (f y); [discriminate | now apply IH].
Qed.

Lemma find_none_filter {A} (f : A -> bool) (l : list A) :
  find f l = None -> filter f l = [].
Proof.
  induction l as [|y r IH]; simpl; [reflexivity|].
  destruct (f y); [discriminate | exact IH].
Qed.

Lemma find_some_filter {A} (f : A -> bool) (l : list A) (x : A) :
  find f l = Some x -> (1 <= List.length (filter f l))%nat.
Proof.
  induction l as [|y r IH]; simpl; [discriminate|].
  destruct (f y); simpl; [lia | exact IH].
Qed.

(** X13.  [createClipboardButton] never gives the document a second
    element with the id of the button.  Where an element has the id
    already, whatever element it is, the function returns and the document
    is as it was; where none has and the document has a body, the button is
    appended as the one element with the id; where none has and the body is
    [null], the function throws a [TypeError] and the document is as it
    was.  Called again after it has returned, it changes nothing. *)
Theorem createClipboardButton_adds_one_button (d : Document) :
  let r := fst (createClipboardButton d) in
  let d' := snd (createClipboardButton d) in
  (r = Normal tt <-> getElementById button_id d <> None \/ has_body d = true) /\
  (forall e, r = Throw e ->
     e = TypeError (lit "Cannot read properties of null (reading 'appendChild')") /\
     d' = d) /\
  (r = Normal tt ->
     count_id button_id d' = Nat.max 1 (count_id button_id d) /\
     elements d' =
       elements d ++
       (if Nat.eqb (count_id button_id d) 0 then [copy_button] else []) /\
     createClipboardButton d' = (Normal tt, d')).
Proof.
  unfold createClipboardButton, count_id, getElementById. cbv zeta.
  set (is_button := fun e => jsstring_eqb (element_id e) button_id).
  destruct (find is_button (elements d)) as [e0|] eqn:Efind; cbn [fst snd].
  - split; [split; [intros _; left; discriminate | reflexivity]|].
    split; [discriminate|]. intros _.
    pose proof (find_some_filter _ _ _ Efind) as Hone.
    destruct (List.length (filter is_button (elements d))) as [|k] eqn:Ek; [lia|].
    cbn [Nat.eqb Nat.max]. rewrite app_nil_r, Efind.
    split; [now destruct k|]. now split.
  - unfold body_appendChild. destruct (has_body d) eqn:Eb; cbn [fst snd].
    + split; [split; [intros _; now right | reflexivity]|].
      split; [discriminate|]. intros _. cbn [elements].
      rewrite filter_app, (find_none_filter _ _ Efind). cbn [app filter].
      change (is_button copy_button) with true. cbn [List.length Nat.eqb Nat.max].
      split; [reflexivity|]. split; [reflexivity|].
      now rewrite (find_app_none is_button (elements d) copy_button Efind).
    + split.
      * split; [discriminate|]. intros [Hfound|Hbody]; [now contradiction Hfound | discriminate].
      * split; [|discriminate]. intros e [= <-]. now split.
Qed.

Lemma dispatchEvent_button (type value : jsstring) :
  dispatchEvent type (button_with value) =
  button_with (if jsstring_eqb type (lit "mouseenter") then lit "1"
               else if jsstring_eqb type (lit "mouseleave") then lit "0.8"
               else value).
Proof.
  unfold dispatchEvent, button_with.
  cbn [listeners copy_button fold_left fst snd].
  unfold jsstring_eqb.
  destruct (jsstring_eq_dec (lit "mouseenter") type) as [<-|Hne1].
  - reflexivity.
  - destruct (jsstring_eq_dec type (lit "mouseenter")) as [->|_]; [congruence|].
    destruct (jsstring_eq_dec (lit "mouseleave") type) as [<-|Hne2].
    + reflexivity.
    + destruct (jsstring_eq_dec type (lit "mouseleave")) as [->|_]; [congruence|].
      reflexivity.
Qed.

(** X14.  Hovering changes the opacity of the button and nothing else.
    After any sequence of events at the button, it is the button as it was
    appended but for the opacity, which is 1 when the last of the
    [mouseenter] and [mouseleave] events was a [mouseenter], and 0.8 when it
    was a [mouseleave] or there was none. *)
Theorem hovering_sets_the_opacity (events : list jsstring) :
  fold_left (fun e event => dispatchEvent event e) events copy_button =
  button_with (if hovered false events then lit "1" else lit "0.8").
Proof.
  assert (Hfrom : forall over : bool,
             fold_left (fun e event => dispatchEvent event e) events
               (button_with (if over then lit "1" else lit "0.8")) =
             button_with (if hovered over events then lit "1" else lit "0.8")).
  { unfold hovered. induction events as [|event events IH]; intros over; [reflexivity|].
    cbn [fold_left]. rewrite dispatchEvent_button.
    destruct (jsstring_eqb event (lit "mouseenter")); [exact (IH true)|].
    destruct (jsstring_eqb event (lit "mouseleave")); [exact (IH false)|].
    exact (IH over). }
  exact (Hfrom false).
Qed.

(** ** The built-ins on known values *)

Example toFixed1_of_a_twentieth : toFixed1 (age_seconds 1050 1000) = lit "0.1".
Proof. vm_compute. reflexivity. Qed.

Example toFixed1_of_a_quarter : toFixed1 (age_seconds 1250 1000) = lit "0.3".
Proof. vm_compute. reflexivity. Qed.

Example toFixed1_of_a_clock_set_back : toFixed1 (age_seconds 1000 1040) = lit "-0.0".
Proof. vm_compute. reflexivity. Qed.

Example toFixed1_of_two_minutes : toFixed1 (age_seconds 123456 0) = lit "123.5".
Proof. vm_compute. reflexivity. Qed.

Example toFixed1_below_1e21 :
  toFixed1 (Number_of_Z 999999999999999868928) = lit "999999999999999868928.0".
Proof. vm_compute. reflexivity. Qed.

Example toFixed1_from_1e21 :
  map (fun z => toFixed1 (Number_of_Z z)) [10 ^ 21; 2 ^ 70; 10 ^ 23; 2 ^ 1023]
  = [lit "1e+21"; lit "1.1805916207174113e+21"; lit "1e+23";
     lit "8.98846567431158e+307"].
Proof. vm_compute. reflexivity. Qed.

Example Number_toString_of_handles :
  join (lit ", ") (map Number_toString [1; 22; -3; 0]) = lit "1, 22, -3, 0".
Proof. vm_compute. reflexivity. Qed.

Example iso_string_of_known_times :
  map iso_string
    [0; -1; 1700000000000; 1709164800000; 951782400000; 253402300799999;
     253402300800000; -62167219200000; -62198755200000;
     8640000000000000; -8640000000000000]
  = map lit
      ["1970-01-01T00:00:00.000Z"; "1969-12-31T23:59:59.999Z";
       "2023-11-14T22:13:20.000Z"; "2024-02-29T00:00:00.000Z";
       "2000-02-29T00:00:00.000Z"; "9999-12-31T23:59:59.999Z";
       "+010000-01-01T00:00:00.000Z"; "0000-01-01T00:00:00.000Z";
       "-000001-01-01T00:00:00.000Z"; "+275760-09-13T00:00:00.000Z";
       "-271821-04-20T00:00:00.000Z"].
Proof. vm_compute. reflexivity. Qed.

Example is_iso8601_refuses :
  map is_iso8601
    (map lit ["2023-11-14 22:13:20.000Z"; "2023-13-14T22:13:20.000Z";
              "2023-11-14T22:13:20Z"; "23-11-14T22:13:20.000Z"])
  = [false; false; false; false].
Proof. vm_compute. reflexivity. Qed.

Example is_decimal1_refuses :
  map is_decimal1 (map lit ["1e+21"; "0.25"; ".5"; "12"; "NaN"; "-"])
  = [false; false; false; false; false; false].
Proof. vm_compute. reflexivity. Qed.

Example trim_and_split :
  map trim (split 10 (stack_from "    at poll (app.ts:9:9)  "))
  = map lit
      ["Error"; "at getStackTag (index.ts:32:21)";
       "at window.setTimeout (index.ts:46:20)"; "at poll (app.ts:9:9)";
       "at main (app.ts:1:1)"].
Proof. vm_compute. reflexivity. Qed.

Example snapshot_entry_of_a_timeout :
  snapshot_entry 1700000000800
    (7, mkTimerInfo 1700000000000 (Int 5000) (lit "at poll (app.ts:9:9)"))
  = Normal
      (JObject
         [(lit "id", JNumber (Int 7));
          (lit "delay", JNumber (Int 5000));
          (lit "created", JString (lit "2023-11-14T22:13:20.000Z"));
          (lit "ageSeconds", JString (lit "0.8"));
          (lit "origin", JString (lit "at poll (app.ts:9:9)"))]).
Proof. vm_compute. reflexivity. Qed.

(** ** Concrete sessions *)

(** C2 as stated fails: where the host hands out a handle again, a snapshot
    taken after the cancellation of handle 1 contains 1. *)
Lemma cancelled_handle_is_listed_after_reuse :
  map listed
    (fst (run [set_timeout None; GetActiveTimeouts; ClearTimeout (Some 1);
               GetActiveTimeouts; set_timeout None; GetActiveTimeouts]
              (page [Normal 1; Normal 1])))
  = [None; Some [1]; None; Some []; None; Some [1]].
Proof. vm_compute. reflexivity. Qed.

Lemma cancel_removes_until_registered_again_witness :
  let w1 :=
    snd (window_clearTimeout (H:=scripted) (Some 1)
           (snd (run [set_timeout None] (page [Normal 1; Normal 2])))) in
  let cs1 := [set_timeout None; GetActiveTimeouts] in
  (forall e info, In e (fst (run cs1 w1)) -> ~ registers_timeout 1 info e) /\
  fst (getActiveTimeouts (snd (run cs1 w1))) =
    Normal (JsMap.entries (timeouts (snd (run cs1 w1)))) /\
  ~ In 1 (map fst (JsMap.entries (timeouts (snd (run cs1 w1))))).
Proof.
  intros w1 cs1.
  assert (Hnone : forall e info,
             In e (fst (run cs1 w1)) -> ~ registers_timeout 1 info e).
  { intros e info Hin (fn & d & a & E1 & E2 & _).
    cbn in Hin. destruct Hin as [<-|[<-|[]]]; simpl in E2; discriminate E2. }
  split; [exact Hnone|]. split; [reflexivity|].
  exact (proj2 (proj1 (@cancel_removes_until_registered_again scripted)
                  (script [Normal 1; Normal 2] "    at poll (app.ts:9:9)")
                  [set_timeout None] 1 cs1)
               Hnone _ eq_refl).
Defined.

Lemma registration_failure_writes_nothing_witness :
  let w := page [Throw (OtherError (lit "quota"))] in
  native_setTimeout scripted tt None [] (host w) =
    (Throw (OtherError (lit "quota")), script [] "    at poll (app.ts:9:9)") /\
  fst (window_setTimeout (H:=scripted) tt None [] w) = Throw (OtherError (lit "quota")) /\
  timeouts (snd (window_setTimeout (H:=scripted) tt None [] w)) = timeouts w /\
  intervals (snd (window_setTimeout (H:=scripted) tt None [] w)) = intervals w.
Proof.
  intros w. split; [reflexivity|].
  exact (proj1 (@registration_failure_writes_nothing scripted) tt None [] w _ _ eq_refl).
Defined.

(** C4 as stated fails: a delay of NaN is given, and the record holds 0. *)
Lemma NaN_delay_is_recorded_as_zero :
  let w' := snd (window_setTimeout (H:=scripted) tt (Some NaN) [] (page [Normal 1])) in
  option_map delay (JsMap.get 1 (timeouts w')) = Some (Int 0) /\
  Int 0 <> NaN.
Proof. split; [vm_compute; reflexivity | discriminate]. Qed.

Lemma registration_writes_the_record_witness :
  let w := page [Normal 1] in
  native_setTimeout scripted tt (Some (Int 5000)) [] (host w) =
    (Normal 1, script [] "    at poll (app.ts:9:9)") /\
  JsMap.get 1 (timeouts (snd (window_setTimeout (H:=scripted) tt (Some (Int 5000)) [] w))) =
    Some (mkTimerInfo 1700000000000 (Int 5000) (lit "at poll (app.ts:9:9)")).
Proof.
  intros w. split; [reflexivity|].
  pose proof (proj1 (@registration_writes_the_record scripted)
                tt (Some (Int 5000)) [] w 1 _ eq_refl) as P.
  destruct (window_setTimeout (H:=scripted) tt (Some (Int 5000)) [] w) as [r w'].
  destruct P as (_ & _ & P & _). exact P.
Defined.

(** A timeout and an interval registered under the handle the map holds:
    the record of the delay 10 (of 20) gives way to the one of the delay
    0. *)
Lemma reused_handle_overwrites_witness :
  let w1 := snd (run [set_timeout (Some (Int 10))] (page [Normal 1; Normal 1])) in
  let w2 := snd (run [set_interval (Some (Int 20))] (page [Normal 2; Normal 2])) in
  let s1 := mkScript [] 1700000000250 (stack_text (host w1)) true in
  let s2 := mkScript [] 1700000000250 (stack_text (host w2)) true in
  let w1' := snd (window_setTimeout (H:=scripted) tt None [] w1) in
  let w2' := snd (window_setInterval (H:=scripted) tt None [] w2) in
  (native_setTimeout scripted tt None [] (host w1) = (Normal 1, s1) /\
   JsMap.has 1 (timeouts w1) = true /\
   option_map delay (JsMap.get 1 (timeouts w1)) = Some (Int 10) /\
   JsMap.get 1 (timeouts w1') = Some (new_record (H:=scripted) None s1) /\
   option_map delay (JsMap.get 1 (timeouts w1')) = Some (Int 0) /\
   JsMap.size (timeouts w1') = JsMap.size (timeouts w1)) /\
  (native_setInterval scripted tt None [] (host w2) = (Normal 2, s2) /\
   JsMap.has 2 (intervals w2) = true /\
   option_map delay (JsMap.get 2 (intervals w2)) = Some (Int 20) /\
   JsMap.get 2 (intervals w2') = Some (new_record (H:=scripted) None s2) /\
   option_map delay (JsMap.get 2 (intervals w2')) = Some (Int 0) /\
   JsMap.size (intervals w2') = JsMap.size (intervals w2)).
Proof.
  intros w1 w2 s1 s2 w1' w2'. split.
  - destruct (proj1 (proj2 (@reused_handle_overwrites scripted))
                w1 tt None [] 1 s1 eq_refl eq_refl) as (P1 & _ & P3 & _).
    split; [reflexivity|]. split; [reflexivity|]. split; [reflexivity|].
    split; [exact P1|]. split; [reflexivity | exact P3].
  - destruct (proj2 (proj2 (@reused_handle_overwrites scripted))
                w2 tt None [] 2 s2 eq_refl eq_refl) as (P1 & _ & P3 & _).
    split; [reflexivity|]. split; [reflexivity|]. split; [reflexivity|].
    split; [exact P1|]. split; [reflexivity | exact P3].
Defined.

(** A timeout and an interval in the registry, and a clipboard: the
    snapshot is written, with one entry in each array. *)
Lemma clipboard_snapshot_lists_the_registry_witness :
  let cs := [set_timeout (Some (Int 5000)); set_interval (Some (Int 1000))] in
  let w := snd (run cs (page [Normal 1; Normal 2])) in
  let now := fst (native_now scripted (host w)) in
  navigator_clipboard scripted
    (snd (native_now scripted (snd (native_now scripted (host w))))) = true /\
  map fst (timeouts w) = [1] /\ map fst (intervals w) = [2] /\
  fst (copyReportToClipboard w) = Normal tt /\
  exists timeout_items interval_items,
    effects (snd (copyReportToClipboard w)) =
      effects w ++
      [ClipboardWriteText
         (JSON_stringify scripted
            (JObject
               [(lit "time",
                 JString (toLocaleTimeString scripted
                            (fst (native_now scripted
                                    (snd (native_now scripted (host w)))))));
                (lit "timeouts", JArray timeout_items);
                (lit "intervals", JArray interval_items)]))] /\
    List.length timeout_items = 1%nat /\
    List.length interval_items = 1%nat /\
    Forall2 (snapshot_of now) (JsMap.entries (timeouts w)) timeout_items /\
    Forall2 (snapshot_of now) (JsMap.entries (intervals w)) interval_items.
Proof.
  intros cs w now.
  assert (Hclip : navigator_clipboard scripted
                    (snd (native_now scripted (snd (native_now scripted (host w)))))
                  = true) by reflexivity.
  split; [exact Hclip|]. split; [reflexivity|]. split; [reflexivity|].
  exact (proj1 (@clipboard_snapshot_lists_the_registry scripted
                  (script [Normal 1; Normal 2] "    at poll (app.ts:9:9)") cs)
           Hclip).
Defined.

(** C8 as stated fails: the frame at the fixed depth is there, its trimmed
    text is the empty string, and the tag is "unknown". *)
Lemma blank_frame_is_tagged_unknown :
  let text := stack_from "   " in
  nth_error (split 10 text) 3 = Some (lit "   ") /\
  trim (lit "   ") = [] /\
  stack_tag (Some text) = lit "unknown".
Proof. vm_compute. repeat split. Qed.

Lemma origin_tag_is_the_fourth_line_witness :
  let text := stack_from "    at poll (app.ts:9:9)  " in
  nth_error (split 10 text) 3 = Some (lit "    at poll (app.ts:9:9)  ") /\
  trim (lit "    at poll (app.ts:9:9)  ") <> [] /\
  stack_tag (Some text) = lit "at poll (app.ts:9:9)".
Proof.
  intros text.
  assert (E : nth_error (split 10 text) 3 = Some (lit "    at poll (app.ts:9:9)  "))
    by reflexivity.
  assert (Hne : trim (lit "    at poll (app.ts:9:9)  ") <> [])
    by (vm_compute; discriminate).
  split; [exact E|]. split; [exact Hne|].
  exact (proj1 (proj2 (proj2 (proj2 (@origin_tag_is_the_fourth_line scripted))))
           text _ E Hne).
Defined.

(** C7: outside a secure context [navigator.clipboard] is undefined, and
    [copyReportToClipboard()] throws a [TypeError] at its caller; nothing is
    written and nothing is warned. *)
Theorem copyReportToClipboard_throws_without_clipboard :
  let w := snd (run [set_timeout (Some (Int 5000))] (insecure_page [Normal 1])) in
  fst (copyReportToClipboard w) =
    Throw (TypeError (lit "Cannot read properties of undefined (reading 'writeText')")) /\
  effects (snd (copyReportToClipboard w)) = effects w.
Proof. vm_compute. split; reflexivity. Qed.

(** C5: with two timers whose origin tag is the name of a property of
    [Object.prototype], [report()] throws inside the loop that counts the
    origins; no table of duplicates is printed. *)
Theorem report_throws_on_inherited_origin :
  let session :=
    run [set_timeout (Some (Int 5000)); set_interval (Some (Int 1000)); Report]
        (page_at "toString" [Normal 1; Normal 2]) in
  map (fun e => stack (snd e)) (timeouts (snd session) ++ intervals (snd session))
    = [lit "toString"; lit "toString"] /\
  map result (fst session) =
    [Handle (Normal 1); Handle (Normal 2);
     Done (Throw (TypeError (lit "Cannot read properties of undefined (reading 'push')")))] /\
  forallb (fun e => match e with ConsoleTableDuplicates _ => false | _ => true end)
    (effects (snd session)) = true.
Proof. vm_compute. repeat split. Qed.

(** The tables [report()] prints for a timeout and an interval registered
    from one call site: one row each, and one row of duplicates. *)
Example report_of_two_timers_of_one_site :
  let w :=
    snd (run [set_timeout (Some (Int 5000)); set_interval (Some (Int 1000)); Report]
             (page [Normal 1; Normal 2])) in
  flat_map (fun e =>
              match e with
              | ConsoleTable rows => [map (fun r => (r_id r, r_delay r)) rows]
              | _ => []
              end) (effects w)
    = [[(1, Int 5000)]; [(2, Int 1000)]] /\
  flat_map (fun e =>
              match e with
              | ConsoleTableDuplicates rows => rows
              | _ => []
              end) (effects w)
    = [mkDuplicateRow (lit "at poll (app.ts:9:9)") 2 (lit "1, 2")].
Proof. vm_compute. split; reflexivity. Qed.

(** In a secure context [copyReportToClipboard()] returns and writes once;
    a denied permission is then warned about. *)
Example copy_then_denied :
  let session :=
    run [set_timeout (Some (Int 5000)); CopyReportToClipboard;
         ClipboardSettles (Rejected (DOMException (lit "NotAllowedError")))]
        (page [Normal 1]) in
  map result (fst session)
    = [Handle (Normal 1); Done (Normal tt); Done (Normal tt)] /\
  effects (snd session)
    = [CallSetTimeout (H:=scripted) tt (Some (Int 5000)) [];
       ClipboardWriteText (lit "{}");
       ConsoleWarn denied_warning None] /\
  pending (snd session) = 0%nat.
Proof. vm_compute. repeat split. Qed.

(** ** The further properties on concrete pages *)

Lemma listing_is_in_registration_order_witness :
  let w := snd (run [set_timeout (Some (Int 10))] (page [Normal 1; Normal 2])) in
  let s := mkScript [] 1700000000250 (stack_text (host w)) true in
  native_setTimeout scripted tt None [] (host w) = (Normal 2, s) /\
  JsMap.has 2 (timeouts w) = false /\
  fst (getActiveTimeouts (snd (window_setTimeout (H:=scripted) tt None [] w))) =
    Normal (timeouts w ++ [(2, new_record (H:=scripted) None s)]).
Proof.
  intros w s. split; [reflexivity|]. split; [reflexivity|].
  exact (proj1 (@listing_is_in_registration_order scripted
                  (script [Normal 1; Normal 2] "    at poll (app.ts:9:9)")
                  [set_timeout (Some (Int 10))])
           tt None [] 2 s eq_refl eq_refl).
Defined.

Lemma report_duplicates_when_it_returns_witness :
  let w :=
    snd (run [set_timeout (Some (Int 5000)); set_interval (Some (Int 1000))]
             (page [Normal 1; Normal 2])) in
  fst (report w) = Normal tt /\
  duplicate_tables (skipn (List.length (effects w)) (effects (snd (report w)))) =
    (if nonempty (duplicate_rows (timeouts w ++ intervals w))
     then [duplicate_rows (timeouts w ++ intervals w)] else []) /\
  duplicate_rows (timeouts w ++ intervals w) =
    [mkDuplicateRow (lit "at poll (app.ts:9:9)") 2 (lit "1, 2")].
Proof.
  intros w.
  assert (Hret : fst (report w) = Normal tt) by (vm_compute; reflexivity).
  split; [exact Hret|]. split.
  - exact (proj1 (@report_duplicates_when_it_returns scripted w Hret)).
  - vm_compute. reflexivity.
Defined.

Lemma age_is_the_elapsed_time_to_the_tenth_witness :
  Z.abs 1700000001250 < 2 ^ 53 /\ Z.abs 1700000000000 < 2 ^ 53 /\
  Z.abs (1700000001250 - 1700000000000) < 2 ^ 53 /\
  toFixed1 (age_seconds 1700000001250 1700000000000) = lit "1.3" /\
  Z.abs (100 * tenths (toFixed1 (age_seconds 1700000001250 1700000000000))
         - Z.abs (1700000001250 - 1700000000000)) <= 50.
Proof.
  assert (H1 : Z.abs 1700000001250 < 2 ^ 53) by reflexivity.
  assert (H2 : Z.abs 1700000000000 < 2 ^ 53) by reflexivity.
  assert (H3 : Z.abs (1700000001250 - 1700000000000) < 2 ^ 53) by reflexivity.
  split; [exact H1|]. split; [exact H2|]. split; [exact H3|].
  split; [vm_compute; reflexivity|].
  exact (proj2 (age_is_the_elapsed_time_to_the_tenth _ _ H1 H2 H3)).
Defined.

Lemma wrappers_and_listings_are_silent_witness :
  let cs := [set_timeout (Some (Int 5000)); GetActiveTimeouts; ClearTimeout (Some 1);
             ClearTimeout None; TimerFires 1] in
  forallb is_silent cs = true /\
  effects (snd (run cs (page [Normal 1]))) =
    [CallSetTimeout (H:=scripted) tt (Some (Int 5000)) []; CallClearTimeout 1].
Proof.
  intros cs.
  assert (Hs : forallb is_silent cs = true) by reflexivity.
  split; [exact Hs|].
  change (page [Normal 1])
    with (initial (H:=scripted) (script [Normal 1] "    at poll (app.ts:9:9)")).
  rewrite (wrappers_and_listings_are_silent _ cs Hs). reflexivity.
Defined.

(** A timeout, a cancellation of a handle the registry does not hold, a
    cancellation of [undefined] and a report: the native calls are the
    first two. *)
Example native_calls_of_a_session :
  filter is_native_call
    (effects (snd (run [set_timeout (Some (Int 5000)); ClearTimeout (Some 7);
                        ClearTimeout None; Report]
                       (page [Normal 1]))))
  = [CallSetTimeout (H:=scripted) tt (Some (Int 5000)) []; CallClearTimeout 7].
Proof. vm_compute. reflexivity. Qed.

(** The button on a page that has a body, on a page whose body is not
    there yet, and on a page where an element has the id already. *)
Example createClipboardButton_on_pages :
  let other := mkElement (lit "div") button_id [] [] [] None in
  createClipboardButton (mkDocument [] true)
    = (Normal tt, mkDocument [copy_button] true) /\
  fst (createClipboardButton (mkDocument [] false))
    = Throw (TypeError (lit "Cannot read properties of null (reading 'appendChild')")) /\
  createClipboardButton (mkDocument [other] true)
    = (Normal tt, mkDocument [other] true).
Proof. vm_compute. repeat split. Qed.

(** The pointer enters the button, a key is pressed, the pointer leaves and
    enters again: the opacity is 1. *)
Example hovering_on_the_button :
  option_map snd
    (find (fun p => jsstring_eqb (fst p) (lit "opacity"))
       (style (fold_left (fun e event => dispatchEvent event e)
                 (map lit ["mouseenter"; "keydown"; "mouseleave"; "mouseenter"])
                 copy_button)))
  = Some (lit "1").
Proof. vm_compute. reflexivity. Qed.
